(** * frcmap.frcgeocoder.geocoder: a shallow embedding and its properties

    The development follows [src/frcmap/frcgeocoder/geocoder.py].

    Modelling conventions.
    - A Python [dict] is an association list in insertion order: assigning
      to a bound key replaces the value where it stands, assigning to a new
      key appends the binding.  Iteration order is list order.
    - Python values are the JSON-like values the geocoder handles
      ([None], booleans, numbers, strings, dicts).  Numbers are exact
      rationals: a Python [int] or a finite [float] is the rational it
      denotes, so that [10 == 10.0] holds as in Python.  NaN and the
      infinities are outside the model.
    - Characters are code points below 256.
    - Each identifier of a batch owns its record: no two entries of a batch
      share one record object, so a record is a value stored in its slot.
      The one object that the source mutates while it is also being
      iterated, the batch of [populate_event_locations], is modelled as
      such (see [event_loop]).
    - A raised exception is a value; in-place mutation is explicit state
      passing, and every pass returns the state it reached together with
      its status, because the caller still sees the mutated records after
      an exception.
    - The geocoding provider, the enrichment collaborator, [random.gauss]
      and the formatting of non-string values are taken as parameters
      ([collaborators]); each is a function of the calls made before it, so
      that no determinism is assumed of the outside world. *)

From Stdlib Require Import String Ascii List Bool Arith ZArith QArith Lia.
From Stdlib Require Import DecimalString.
Import ListNotations.
Local Close Scope Q_scope.
Local Open Scope string_scope.
Local Open Scope nat_scope.
Local Open Scope list_scope.

Set Implicit Arguments.
Local Set Warnings "-register-all".

(* ===================================================================== *)
(** ** Strings: the fragments of [str] the source uses *)
(* ===================================================================== *)

Module PyStr.

(** [str.isspace] on one character (code points below 256). *)
Definition isspace (c : ascii) : bool :=
  let n := nat_of_ascii c in
  ((9 <=? n) && (n <=? 13)) || ((28 <=? n) && (n <=? 32))
  || (n =? 133) || (n =? 160).

Definition is_empty (s : string) : bool :=
  match s with EmptyString => true | String _ _ => false end.

Fixpoint lstrip (s : string) : string :=
  match s with
  | EmptyString => EmptyString
  | String c s' => if isspace c then lstrip s' else s
  end.

Fixpoint rstrip (s : string) : string :=
  match s with
  | EmptyString => EmptyString
  | String c s' =>
      let r := rstrip s' in
      if isspace c && is_empty r then EmptyString else String c r
  end.

(** [s.strip()] *)
Definition strip (s : string) : string := rstrip (lstrip s).

(** [s.split()]: the maximal runs of non-space characters.  [w] is the
    word read so far. *)
Fixpoint split_from (w : string) (s : string) : list string :=
  match s with
  | EmptyString => if is_empty w then [] else [w]
  | String c s' =>
      if isspace c
      then (if is_empty w then split_from EmptyString s'
            else w :: split_from EmptyString s')
      else split_from (w ++ String c EmptyString)%string s'
  end.

Definition split (s : string) : list string := split_from EmptyString s.

(** [sep.join(l)] *)
Definition join (sep : string) (l : list string) : string :=
  String.concat sep l.

(** [s.startswith(p)], returning the rest. *)
Fixpoint strip_prefix (p s : string) : option string :=
  match p, s with
  | EmptyString, _ => Some s
  | String a p', String b s' =>
      if Ascii.eqb a b then strip_prefix p' s' else None
  | String _ _, EmptyString => None
  end.

(** Does [s] contain two adjacent spaces? *)
Fixpoint has_double_space (s : string) : bool :=
  match s with
  | String a ((String b _) as s') =>
      (Ascii.eqb a " " && Ascii.eqb b " ") || has_double_space s'
  | _ => false
  end.

End PyStr.

(* ===================================================================== *)
(** ** Dicts as insertion-ordered association lists *)
(* ===================================================================== *)

Section Assoc.
Variables K V : Type.
Variable eqb : K -> K -> bool.

(** [d.get(k)] / [d[k]] *)
Fixpoint assoc_get (k : K) (d : list (K * V)) : option V :=
  match d with
  | [] => None
  | (k', v) :: d' => if eqb k k' then Some v else assoc_get k d'
  end.

(** [k in d] *)
Definition assoc_mem (k : K) (d : list (K * V)) : bool :=
  match assoc_get k d with Some _ => true | None => false end.

(** [d[k] = v] *)
Fixpoint assoc_set (k : K) (v : V) (d : list (K * V)) : list (K * V) :=
  match d with
  | [] => [(k, v)]
  | (k', v') :: d' =>
      if eqb k k' then (k', v) :: d' else (k', v') :: assoc_set k v d'
  end.

(** [d.update(src)] for a dict [src] *)
Definition assoc_update (d src : list (K * V)) : list (K * V) :=
  fold_left (fun acc kv => assoc_set (fst kv) (snd kv) acc) src d.
End Assoc.

(* ===================================================================== *)
(** ** Values, exceptions *)
(* ===================================================================== *)

Inductive pyval : Type :=
| VNone
| VBool (b : bool)
| VNum (q : Q)
| VStr (s : string)
| VDict (d : list (string * pyval)).

(** A record, an override entry, a location: [Dict[str, ...]]. *)
Definition dict : Type := list (string * pyval).

(** [InfoDict]: identifier -> record, in iteration order. *)
Definition batch : Type := list (string * pyval).

Definition dict_get : string -> dict -> option pyval := assoc_get String.eqb.
Definition dict_mem : string -> dict -> bool := assoc_mem String.eqb.
Definition dict_set : string -> pyval -> dict -> dict := assoc_set String.eqb.
Definition dict_update : dict -> dict -> dict := assoc_update String.eqb.

Inductive exn : Type :=
| KeyError (k : string)
| TypeError
| ValueError
| AttributeError
| RuntimeError          (* dictionary changed size during iteration *)
| JSONDecodeError
| OSError.

Inductive result (A : Type) : Type :=
| Ok (a : A)
| Raise (e : exn).
Arguments Ok {A} a.
Arguments Raise {A} e.

Definition bind {A B} (r : result A) (f : A -> result B) : result B :=
  match r with Ok a => f a | Raise e => Raise e end.

Declare Scope py_scope.
Delimit Scope py_scope with py.
Notation "x <- c ;; k" := (bind c (fun x => k))
  (at level 61, c at next level, right associativity) : py_scope.
Local Open Scope py_scope.

(** How a pass over mutable records ended. *)
Inductive status : Type :=
| Done
| Failed (e : exn).

(** [v == None] *)
Definition is_none (v : pyval) : bool :=
  match v with VNone => true | _ => false end.

(** [bool(v)] *)
Definition truthy (v : pyval) : bool :=
  match v with
  | VNone => false
  | VBool b => b
  | VNum q => negb (Qeq_bool q 0)
  | VStr s => negb (PyStr.is_empty s)
  | VDict d => match d with [] => false | _ => true end
  end.

(** [hash(v)] succeeds *)
Definition hashable (v : pyval) : bool :=
  match v with VDict _ => false | _ => true end.

Definition Q_of_bool (b : bool) : Q := if b then 1%Q else 0%Q.

(** [a == b] on hashable values ([True == 1], [10 == 10.0]). *)
Definition py_eqb (a b : pyval) : bool :=
  match a, b with
  | VNone, VNone => true
  | VBool x, VBool y => Bool.eqb x y
  | VBool x, VNum q => Qeq_bool (Q_of_bool x) q
  | VNum q, VBool x => Qeq_bool q (Q_of_bool x)
  | VNum p, VNum q => Qeq_bool p q
  | VStr s, VStr t => String.eqb s t
  | _, _ => false
  end.

(** [item[k]] *)
Definition getitem (item : pyval) (k : string) : result pyval :=
  match item with
  | VDict d =>
      match dict_get k d with
      | Some v => Ok v
      | None => Raise (KeyError k)
      end
  | _ => Raise TypeError
  end.

(** [obj.update(src)] *)
Definition py_update (obj src : pyval) : result pyval :=
  match obj with
  | VDict d =>
      match src with
      | VDict s => Ok (VDict (dict_update d s))
      | VStr EmptyString => Ok obj
      | VStr _ => Raise ValueError
      | _ => Raise TypeError
      end
  | _ => Raise AttributeError
  end.

(* ===================================================================== *)
(** ** Address synthesis (module-level functions) *)
(* ===================================================================== *)

(** [notNone] *)
Definition notNone (value : pyval) : pyval :=
  if is_none value then VStr "" else value.

(** [read] *)
Definition read (obj : dict) (key : string) : pyval :=
  match dict_get key obj with
  | Some v => notNone v
  | None => VStr ""
  end.

(** What an f-string makes of a value: a [str] is itself, anything else
    goes through the formatting parameter. *)
Definition fstr (format_value : pyval -> string) (v : pyval) : string :=
  match v with VStr s => s | _ => format_value v end.

(** [make_team_address] *)
Definition make_team_address (format_value : pyval -> string) (data : dict)
  : option string :=
  let f k := fstr format_value (read data k) in
  let addr :=
    PyStr.join " "
      (PyStr.split
         (f "school_name" ++ " " ++ f "city" ++ " " ++ f "state_prov"
          ++ " " ++ f "postal_code" ++ " " ++ f "country")%string) in
  if PyStr.is_empty addr then None else Some addr.

(** [str.join] accepts [str] items only. *)
Fixpoint as_strs (l : list pyval) : result (list string) :=
  match l with
  | [] => Ok []
  | VStr s :: l' => r <- as_strs l' ;; Ok (s :: r)
  | _ :: _ => Raise TypeError
  end.

(** [make_event_address] *)
Definition make_event_address (data : dict) : result (option string) :=
  items <- as_strs [ read data "venue"; read data "address";
                     read data "city"; read data "state_prov";
                     read data "postal_code"; read data "country" ] ;;
  let addr := PyStr.strip (PyStr.join " " items) in
  Ok (if PyStr.is_empty addr then None else Some addr).

(* ===================================================================== *)
(** ** The archive directory and the outside world *)
(* ===================================================================== *)

(** An entry of [archive_path]: a sub-directory, or a file whose text is a
    JSON object ([Some]) or does not parse ([None]). *)
Inductive fsnode : Type :=
| Directory
| File (content : option dict).

(** [os.listdir(archive_path)], in the order the system lists it. *)
Definition directory : Type := list (string * fsnode).

Definition is_file (n : fsnode) : bool :=
  match n with File _ => true | Directory => false end.

Record world : Type := mkWorld {
  fs : directory;                  (* the archive directory *)
  provider_calls : list string;    (* addresses sent to the provider *)
  noise_calls : list (Q * Q);      (* (mu, sigma) of each random.gauss *)
  enhance_calls : list dict        (* records sent for enrichment *)
}.

Record collaborators : Type := mkCollaborators {
  (** [gmaps.geocode(addr)[0]["geometry"]["location"]], given the earlier
      calls; [None] when the expression raises. *)
  geocode : list string -> string -> option pyval;
  (** [random.gauss(mu, sigma)], given the earlier draws. *)
  gauss : list (Q * Q) -> Q -> Q -> Q;
  (** [first_api.enhance_event_data(event)]: the record as the call left
      it, and whether the call raised. *)
  enhance_event_data : list dict -> dict -> dict * bool;
  (** [str(v)] for a value that is not a [str]. *)
  format_value : pyval -> string
}.

Definition with_fs (w : world) (d : directory) : world :=
  mkWorld d (provider_calls w) (noise_calls w) (enhance_calls w).

Definition log_provider (w : world) (addr : string) : world :=
  mkWorld (fs w) (provider_calls w ++ [addr]) (noise_calls w)
          (enhance_calls w).

Definition log_noise (w : world) (mu sigma : Q) : world :=
  mkWorld (fs w) (provider_calls w) (noise_calls w ++ [(mu, sigma)])
          (enhance_calls w).

Definition log_enhance (w : world) (event : dict) : world :=
  mkWorld (fs w) (provider_calls w) (noise_calls w)
          (enhance_calls w ++ [event]).

(** [json.load(open(name))] *)
Definition json_load (dir : directory) (name : string) : result dict :=
  match assoc_get String.eqb name dir with
  | Some (File (Some data)) => Ok data
  | Some (File None) => Raise JSONDecodeError
  | Some Directory => Raise OSError
  | None => Raise OSError
  end.

(** [json.dump(data, open(name, "w"))] *)
Definition json_dump (dir : directory) (name : string) (data : dict)
  : result directory :=
  match assoc_get String.eqb name dir with
  | Some Directory => Raise OSError
  | _ => Ok (assoc_set String.eqb name (File (Some data)) dir)
  end.

Definition digit_val (c : ascii) : option Z :=
  let n := nat_of_ascii c in
  if (48 <=? n) && (n <=? 57) then Some (Z.of_nat (n - 48)) else None.

(** [re.match(r"all_team_locations_(\d\d\d\d).json", file)] followed by
    [int(m.group(1))].  The match is anchored at the start only and [.]
    is any character but a newline. *)
Definition match_team_file (file : string) : option Z :=
  match PyStr.strip_prefix "all_team_locations_" file with
  | Some (String a (String b (String c (String d (String dot rest))))) =>
      match digit_val a, digit_val b, digit_val c, digit_val d with
      | Some x, Some y, Some z, Some t =>
          if Ascii.eqb dot "010"%char then None
          else match PyStr.strip_prefix "json" rest with
               | Some _ => Some (1000 * x + 100 * y + 10 * z + t)%Z
               | None => None
               end
      | _, _, _, _ => None
      end
  | _ => None
  end.

(** The loop of [__read_team_archive] that fills [years]. *)
Definition collect_years (files : list string) : list (Z * string) :=
  fold_left
    (fun years file =>
       match match_team_file file with
       | None => years
       | Some y => assoc_set Z.eqb y file years
       end)
    files [].

(** [max(years.keys())] of a non-empty dict *)
Definition max_year (y0 : Z) (rest : list (Z * string)) : Z :=
  fold_left Z.max (map fst rest) y0.

(** [__read_team_archive] *)
Definition read_team_archive (dir : directory) : result dict :=
  let files := map fst (filter (fun e => is_file (snd e)) dir) in
  let years := collect_years files in
  match years with
  | [] => Ok []
  | (y0, _) :: rest =>
      match assoc_get Z.eqb (max_year y0 rest) years with
      | Some latest => json_load dir latest
      | None => Raise (KeyError "")
      end
  end.

(** [__read_event_archive] *)
Definition read_event_archive (dir : directory) : result dict :=
  match assoc_get String.eqb "all_event_locations.json" dir with
  | Some (File _) => json_load dir "all_event_locations.json"
  | _ => Ok []
  end.

(** The geocoder object after [__init__]. *)
Record FRCGeocoder : Type := mkGeocoder {
  teams : list (string * dict);        (* overrides, [LocationDict] *)
  events : list (string * dict);       (* overrides, [LocationDict] *)
  team_archive : dict;
  event_archive : dict
}.


(** [f"{year}"] *)
Definition str_of_int (z : Z) : string :=
  NilZero.string_of_int (Z.to_int z).

Definition team_archive_name (year : Z) : string :=
  ("all_team_locations_" ++ str_of_int year ++ ".json")%string.

Definition event_archive_name : string := "all_event_locations.json".

(* ===================================================================== *)
(** ** The location engine *)
(* ===================================================================== *)

(** [FRCGeocoder.UNKNOWN] *)
Definition UNKNOWN : dict := [("lat", VNone); ("lng", VNone)].

(** The default [sigma] of [__randomnize_location]: 0.001 *)
Definition default_sigma : Q := (1 # 1000)%Q.

(** [__noloc].  The [or] is short-circuit: [item["lng"]] is read only when
    [item["lat"]] is not [None]. *)
Definition noloc (item : pyval) : result bool :=
  lat <- getitem item "lat" ;;
  if is_none lat then Ok true
  else lng <- getitem item "lng" ;; Ok (is_none lng).

(** [location_tuple] of [__dedup_locations] *)
Definition location_tuple (item : pyval) : result (pyval * pyval) :=
  lat <- getitem item "lat" ;;
  lng <- getitem item "lng" ;;
  Ok (lat, lng).

(** Equality of two hashable coordinate tuples. *)
Definition loc_eqb (a b : pyval * pyval) : bool :=
  py_eqb (fst a) (fst b) && py_eqb (snd a) (snd b).

(** [hash(loc)] succeeds *)
Definition loc_hashable (loc : pyval * pyval) : bool :=
  hashable (fst loc) && hashable (snd loc).

(** [item[k] = v] *)
Definition setitem (item : pyval) (k : string) (v : pyval) : result pyval :=
  match item with
  | VDict d => Ok (VDict (dict_set k v d))
  | _ => Raise TypeError
  end.

(** The number [random.gauss] computes with when given [v] as [mu]. *)
Definition as_number (v : pyval) : result Q :=
  match v with
  | VNum q => Ok q
  | VBool b => Ok (Q_of_bool b)
  | _ => Raise TypeError
  end.

(** The location part of a record, as the archive stores it:
    [{k1: v1 for k1, v1 in v0.items() if k1 in ["lat", "lng"]}] *)
Definition project (v0 : dict) : dict :=
  filter (fun kv => String.eqb (fst kv) "lat" || String.eqb (fst kv) "lng")
         v0.

(** The dict comprehension of [__save_team_archive] and
    [__save_event_archive]; [data] is the dict built so far. *)
Fixpoint save_data (items : batch) (data : dict) : result dict :=
  match items with
  | [] => Ok data
  | (k0, v0) :: rest =>
      nl <- noloc v0 ;;
      if nl then save_data rest data
      else match v0 with
           | VDict d => save_data rest (dict_set k0 (VDict (project d)) data)
           | _ => Raise AttributeError
           end
  end.

(** A loop [for key, obj in objects.items()] whose body mutates [obj] only:
    the container keeps its keys, each record is replaced by what the body
    made of it, and an exception leaves the later records untouched. *)
Section ForItems.
Variable S : Type.
Variable body : string -> pyval -> S -> pyval * S * status.

Fixpoint for_items (items : batch) (s : S) : batch * S * status :=
  match items with
  | [] => ([], s, Done)
  | (key, obj) :: rest =>
      match body key obj s with
      | (obj', s', Done) =>
          let '(rest', s'', st) := for_items rest s' in
          ((key, obj') :: rest', s'', st)
      | (obj', s', Failed e) => ((key, obj') :: rest, s', Failed e)
      end
  end.
End ForItems.

(** [l[i] = x] on a list of slots *)
Fixpoint set_slot {A} (i : nat) (x : A) (l : list A) : list A :=
  match l, i with
  | [], _ => []
  | _ :: l', O => x :: l'
  | y :: l', S i' => y :: set_slot i' x l'
  end.

Section Geocoder.
Variable G : collaborators.
Variable self : FRCGeocoder.

(** [__save_team_archive] *)
Definition save_team_archive (tms : batch) (year : Z) (w : world)
  : world * status :=
  match save_data tms [] with
  | Raise e => (w, Failed e)
  | Ok data =>
      match json_dump (fs w) (team_archive_name year) data with
      | Raise e => (w, Failed e)
      | Ok d => (with_fs w d, Done)
      end
  end.

(** [__save_event_archive] *)
Definition save_event_archive (evs : batch) (w : world) : world * status :=
  match save_data evs [] with
  | Raise e => (w, Failed e)
  | Ok data =>
      match json_dump (fs w) event_archive_name data with
      | Raise e => (w, Failed e)
      | Ok d => (with_fs w d, Done)
      end
  end.

(** One assignment of [__randomnize_location]:
    [obj[k] = random.gauss(obj[k], sigma)] *)
Definition jitter_field (k : string) (sigma : Q) (obj : pyval) (w : world)
  : pyval * world * status :=
  match (v <- getitem obj k ;; as_number v) with
  | Raise e => (obj, w, Failed e)
  | Ok mu =>
      let x := gauss G (noise_calls w) mu sigma in
      match setitem obj k (VNum x) with
      | Raise e => (obj, log_noise w mu sigma, Failed e)
      | Ok obj' => (obj', log_noise w mu sigma, Done)
      end
  end.

(** [__randomnize_location] *)
Definition randomnize_location (obj : pyval) (sigma : Q) (w : world)
  : pyval * world * status :=
  match jitter_field "lat" sigma obj w with
  | (obj1, w1, Done) => jitter_field "lng" sigma obj1 w1
  | failed => failed
  end.

(** The provider call of [__geolocate_team] / [__geolocate_event] with its
    bare [except], after the address has been logged. *)
Definition try_geocode (rec : dict) (addr : string) (w : world)
  : dict * world :=
  let w' := log_provider w addr in
  match geocode G (provider_calls w) addr with
  | Some loc =>
      match py_update (VDict rec) loc with
      | Ok (VDict rec') => (rec', w')
      | _ => (dict_update rec UNKNOWN, w')
      end
  | None => (dict_update rec UNKNOWN, w')
  end.

(** The two branches of [__geolocate_team] / [__geolocate_event] once the
    address is known.  Both log through [rec['key']] before anything
    else, outside the [try]. *)
Definition geolocate_with (rec : dict) (addr : option string) (w : world)
  : dict * world * status :=
  match dict_get "key" rec with
  | None => (rec, w, Failed (KeyError "key"))
  | Some _ =>
      match addr with
      | None => (dict_update rec UNKNOWN, w, Done)
      | Some a => let '(rec', w') := try_geocode rec a w in (rec', w', Done)
      end
  end.

(** [__geolocate_team] *)
Definition geolocate_team (team : dict) (w : world)
  : dict * world * status :=
  geolocate_with team (make_team_address (format_value G) team) w.

(** [__geolocate_event] *)
Definition geolocate_event (event : dict) (w : world)
  : dict * world * status :=
  match make_event_address event with
  | Raise e => (event, w, Failed e)
  | Ok addr => geolocate_with event addr w
  end.

(** The body of the loop of [__dedup_locations]; the state is [ulocs]
    and the world. *)
Definition dedup_body (key : string) (obj : pyval)
           (s : list ((pyval * pyval) * string) * world)
  : pyval * (list ((pyval * pyval) * string) * world) * status :=
  let '(ulocs, w) := s in
  match noloc obj with
  | Raise e => (obj, s, Failed e)
  | Ok true => (obj, s, Done)
  | Ok false =>
      match location_tuple obj with
      | Raise e => (obj, s, Failed e)
      | Ok loc =>
          if negb (loc_hashable loc) then (obj, s, Failed TypeError)
          else if assoc_mem loc_eqb loc ulocs then
            let '(obj', w', st) :=
              randomnize_location obj default_sigma w in
            (obj', (ulocs, w'), st)
          else (obj, (assoc_set loc_eqb loc key ulocs, w), Done)
      end
  end.

(** [__dedup_locations] *)
Definition dedup_locations (objects : batch) (w : world)
  : batch * world * status :=
  let '(objects', s, st) := for_items dedup_body objects ([], w) in
  (objects', snd s, st).

(** The body of the loop of [populate_team_locations].  A value that is
    not a dict makes [__geolocate_team] raise [TypeError] whatever its
    fields would be. *)
Definition team_body (key : string) (team : pyval) (w : world)
  : pyval * world * status :=
  match assoc_get String.eqb key (teams self) with
  | Some override =>
      match py_update team (VDict override) with
      | Ok team' => (team', w, Done)
      | Raise e => (team, w, Failed e)
      end
  | None =>
      match dict_get key (team_archive self) with
      | Some archived =>
          match py_update team archived with
          | Ok team' => (team', w, Done)
          | Raise e => (team, w, Failed e)
          end
      | None =>
          match team with
          | VDict d =>
              let '(d', w', st) := geolocate_team d w in (VDict d', w', st)
          | _ => (team, w, Failed TypeError)
          end
      end
  end.

(** The resolution loop of [populate_team_locations] *)
Definition resolve_teams (tms : batch) (w : world)
  : batch * world * status :=
  for_items team_body tms w.

(** [populate_team_locations] *)
Definition populate_team_locations (tms : batch) (year : Z) (w : world)
  : batch * world * status :=
  match resolve_teams tms w with
  | (t1, w1, Failed e) => (t1, w1, Failed e)
  | (t1, w1, Done) =>
      match dedup_locations t1 w1 with
      | (t2, w2, Failed e) => (t2, w2, Failed e)
      | (t2, w2, Done) =>
          let '(w3, st) := save_team_archive t2 year w2 in (t2, w3, st)
      end
  end.
(** [try: enhance_event_data(event); __geolocate_event(event)
    except Exception: log] -- every exception is swallowed, the record
    keeps what was done to it before. *)
Definition enhance_and_geolocate (event : dict) (w : world)
  : dict * world :=
  let '(event1, raised) := enhance_event_data G (enhance_calls w) event in
  let w1 := log_enhance w event in
  if raised then (event1, w1)
  else let '(event2, w2, _) := geolocate_event event1 w1 in (event2, w2).

(** ["is_official" in event and event["is_official"]] *)
Definition is_official (event : pyval) : bool :=
  match event with
  | VDict d =>
      match dict_get "is_official" d with
      | Some v => truthy v
      | None => false
      end
  | _ => false
  end.

(** The block under the first [if self.__noloc(event):] of
    [populate_event_locations], for the record object [ev] of slot [i].
    It returns the record, the container, whether the slot still holds the
    record ([attached]), the world and the status.

    [events.update(...)] in the archive branch acts on the container, not
    on the record; it rebinds the slot when the archived entry has a field
    named [key], and from then on the mutations of the record are no longer
    visible in [events]. *)
Definition resolve_event (i : nat) (key : string) (ev : pyval)
           (evs : batch) (w : world)
  : pyval * batch * bool * world * status :=
  match dict_get key (event_archive self) with
  | Some archived =>
      match py_update (VDict evs) archived with
      | Ok (VDict evs') =>
          let rebound := match archived with
                         | VDict a => dict_mem key a
                         | _ => false
                         end in
          (ev, evs', negb rebound, w, Done)
      | Ok _ => (ev, evs, true, w, Done)
      | Raise e => (ev, evs, true, w, Failed e)
      end
  | None =>
      match ev with
      | VDict d =>
          if is_official ev then
            let '(d', w') := enhance_and_geolocate d w in
            (VDict d', set_slot i (key, VDict d') evs, true, w', Done)
          else (ev, evs, true, w, Done)
      | _ => (ev, evs, true, w, Done)
      end
  end.

(** The body of the loop of [populate_event_locations] for the item
    [(key, event)] found in slot [i] of [events].  [event] is the record
    object of the slot; its mutations are written to the slot as long as
    the slot holds it. *)
Definition event_body (i : nat) (key : string) (event : pyval)
           (evs : batch) (w : world) : batch * world * status :=
  match (match assoc_get String.eqb key (events self) with
         | Some override => py_update event (VDict override)
         | None => Ok event
         end) with
  | Raise e => (evs, w, Failed e)
  | Ok ev1 =>
    let evs1 := set_slot i (key, ev1) evs in
    match noloc ev1 with
    | Raise e => (evs1, w, Failed e)
    | Ok nl =>
      let '(ev2, evs2, attached, w2, st) :=
        if nl then resolve_event i key ev1 evs1 w
        else (ev1, evs1, true, w, Done) in
      match st with
      | Failed e => (evs2, w2, Failed e)
      | Done =>
          match noloc ev2 with
          | Raise e => (evs2, w2, Failed e)
          | Ok false => (evs2, w2, Done)
          | Ok true =>
              match setitem ev2 "ignore" (VBool true) with
              | Raise e => (evs2, w2, Failed e)
              | Ok ev3 =>
                  ((if attached then set_slot i (key, ev3) evs2 else evs2),
                   w2, Done)
              end
          end
      end
    end
  end.

(** The loop [for key, event in events.items()] of
    [populate_event_locations], under the iteration protocol of [dict]:
    the iterator was created when the dict had [size] items, walks the
    slots by position, and every [next] -- also the one that would end
    the loop -- raises [RuntimeError] when the size has changed.
    [todo] is the number of slots still to visit, [i] the next one. *)
Fixpoint event_loop (size todo i : nat) (evs : batch) (w : world)
  : batch * world * status :=
  if negb (length evs =? size) then (evs, w, Failed RuntimeError)
  else
    match todo with
    | O => (evs, w, Done)
    | S todo' =>
        match nth_error evs i with
        | None => (evs, w, Done)
        | Some (key, event) =>
            match event_body i key event evs w with
            | (evs', w', Done) => event_loop size todo' (S i) evs' w'
            | failed => failed
            end
        end
    end.

(** The resolution loop of [populate_event_locations] *)
Definition resolve_events (evs : batch) (w : world)
  : batch * world * status :=
  event_loop (length evs) (length evs) 0 evs w.

(** [populate_event_locations] *)
Definition populate_event_locations (evs : batch) (w : world)
  : batch * world * status :=
  match resolve_events evs w with
  | (e1, w1, Failed e) => (e1, w1, Failed e)
  | (e1, w1, Done) =>
      match save_event_archive e1 w1 with
      | (w2, Failed e) => (e1, w2, Failed e)
      | (w2, Done) => dedup_locations e1 w2
      end
  end.
End Geocoder.

(* ===================================================================== *)
(** ** Vocabulary of the statements, sample data *)
(* ===================================================================== *)

(** What the loop over [files] leaves in [years]. *)
Definition years_sound (files : list string) (years : list (Z * string))
  : Prop :=
  forall y f, assoc_get Z.eqb y years = Some f ->
              In f files /\ match_team_file f = Some y.

Definition years_complete (files : list string) (years : list (Z * string))
  : Prop :=
  forall f y, In f files -> match_team_file f = Some y ->
              In y (map fst years).

(** Sample directory: archives for 2021 and 2022. *)
Definition archive_2021 : dict :=
  [("frc1", VDict [("lat", VNum 1); ("lng", VNum 2)])].

Definition archive_2022 : dict :=
  [("frc1", VDict [("lat", VNum 3); ("lng", VNum 4)])].

Definition dir_2021_2022 : directory :=
  [ ("all_team_locations_2022.json", File (Some archive_2022));
    ("notes", Directory);
    ("all_team_locations_2021.json", File (Some archive_2021)) ].


(** Collaborators that are all unavailable: the provider always fails, the
    noise is zero, enrichment changes nothing. *)
Definition offline : collaborators :=
  mkCollaborators (fun _ _ => None) (fun _ mu _ => mu)
                  (fun _ d => (d, false)) (fun _ => "").

Definition blank_world : world := mkWorld [] [] [] [].

(** One event without location, and a geocoder whose event archive knows
    where it is. *)
Definition event_2020abc : batch :=
  [("2020abc", VDict [("key", VStr "2020abc"); ("lat", VNone);
                      ("lng", VNone)])].

Definition geocoder_knowing_2020abc : FRCGeocoder :=
  mkGeocoder [] [] [("2020abc", VDict [("lat", VNum 1); ("lng", VNum 2)])]
             [("2020abc", VDict [("lat", VNum 1); ("lng", VNum 2)])].

(** A record whose [venue] and [city] are known and nothing else. *)
Definition arena_in_paris : dict :=
  [("venue", VStr "Arena"); ("city", VStr "Paris")].

(** The fields [make_event_address] reads. *)
Definition event_address_fields : list string :=
  ["venue"; "address"; "city"; "state_prov"; "postal_code"; "country"].

(** A field that is absent, [None] or a [str]. *)
Definition textual (data : dict) (k : string) : bool :=
  match dict_get k data with
  | None | Some VNone | Some (VStr _) => true
  | Some _ => false
  end.

(** A record with a location: both [lat] and [lng] are bound and neither
    is [None]. *)
Definition located (v : pyval) : bool :=
  match v with
  | VDict d =>
      match dict_get "lat" d, dict_get "lng" d with
      | Some a, Some b => negb (is_none a) && negb (is_none b)
      | _, _ => false
      end
  | _ => false
  end.

(** A record on which the no-location check can be made: [lat] is bound,
    and so is [lng] unless [lat] is [None]. *)
Definition loc_readable (v : pyval) : bool :=
  match v with
  | VDict d =>
      match dict_get "lat" d with
      | Some a => is_none a || dict_mem "lng" d
      | None => false
      end
  | _ => false
  end.

(** The archive as the specification words it: the located entities, each
    projected to its location. *)
Definition archive_entry (v : pyval) : pyval :=
  match v with VDict d => VDict (project d) | _ => v end.

Definition archive_view (items : batch) : dict :=
  map (fun kv => (fst kv, archive_entry (snd kv)))
      (filter (fun kv => located (snd kv)) items).

(** [name] can be opened for writing in [dir]. *)
Definition writable (dir : directory) (name : string) : bool :=
  match assoc_get String.eqb name dir with
  | Some Directory => false
  | _ => true
  end.

(** The directory after [name] has been overwritten with [data]. *)
Definition with_file (w : world) (name : string) (data : dict) : world :=
  with_fs w (assoc_set String.eqb name (File (Some data)) (fs w)).

(** The file [name] of the archive directory holds the JSON object
    [data]. *)
Definition file_holds (w : world) (name : string) (data : dict) : Prop :=
  assoc_get String.eqb name (fs w) = Some (File (Some data)).

(** The coordinate pair of a record that has both fields. *)
Definition coords (v : pyval) : option (pyval * pyval) :=
  match v with
  | VDict d =>
      match dict_get "lat" d, dict_get "lng" d with
      | Some a, Some b => Some (a, b)
      | _, _ => None
      end
  | _ => None
  end.

(** The invariant of Location in the data model: a record whose [lat] and
    [lng] are both [None] (UNKNOWN) or both numbers. *)
Definition well_located (v : pyval) : bool :=
  match coords v with
  | Some (VNone, VNone) => true
  | Some (VNum _, VNum _) => true
  | _ => false
  end.

(** The entity [kv] has a location, and it is exactly [loc]. *)
Definition holds_at (loc : pyval * pyval) (kv : string * pyval) : bool :=
  located (snd kv) &&
  match coords (snd kv) with
  | Some c => loc_eqb loc c
  | None => false
  end.

(** [v] has a location, and an entity of [earlier] has exactly the same. *)
Definition collides (earlier : batch) (v : pyval) : bool :=
  located v &&
  match coords v with
  | Some loc => existsb (holds_at loc) earlier
  | None => false
  end.

(** The record [v] after Gaussian noise of standard deviation 0.001 has
    been drawn around its [lat], then around its [lng]; [h] is the list of
    the draws made before. *)
Definition jittered (G : collaborators) (h : list (Q * Q)) (v : pyval)
  : pyval :=
  match v with
  | VDict d =>
      match dict_get "lat" d, dict_get "lng" d with
      | Some (VNum a), Some (VNum b) =>
          VDict
            (dict_set "lng"
               (VNum (gauss G (h ++ [(a, default_sigma)]) b default_sigma))
               (dict_set "lat" (VNum (gauss G h a default_sigma)) d))
      | _, _ => v
      end
  | _ => v
  end.

(** The two draws made for [v]. *)
Definition draws_of (v : pyval) : list (Q * Q) :=
  match coords v with
  | Some (VNum a, VNum b) => [(a, default_sigma); (b, default_sigma)]
  | _ => []
  end.

(** Deduplication as the specification words it: walking the entities in
    order, an entity is perturbed when an earlier entity, as it was before
    the pass, has the same location.  [seen] are the entities already
    walked, as they were before the pass; the result is the new batch and
    the draws made. *)
Fixpoint dedup_view (G : collaborators) (seen items : batch)
         (h : list (Q * Q)) : batch * list (Q * Q) :=
  match items with
  | [] => ([], h)
  | (k, v) :: rest =>
      let v' := if collides seen v then jittered G h v else v in
      let h' := if collides seen v then h ++ draws_of v else h in
      let '(rest', h'') := dedup_view G (seen ++ [(k, v)]) rest h' in
      ((k, v') :: rest', h'')
  end.

Definition with_noise (w : world) (h : list (Q * Q)) : world :=
  mkWorld (fs w) (provider_calls w) h (enhance_calls w).

(** The draws of a deduplication pass over [items]; a function of the
    batch before the pass, in its order, and of nothing else. *)
Fixpoint jitter_draws (seen items : batch) : list (Q * Q) :=
  match items with
  | [] => []
  | (k, v) :: rest =>
      (if collides seen v then draws_of v else [])
        ++ jitter_draws (seen ++ [(k, v)]) rest
  end.

(** What [ulocs] knows after the entities [seen] have been walked: the
    pairs of numbers in it are the locations of walked entities. *)
Definition ulocs_track (seen : batch)
           (ulocs : list ((pyval * pyval) * string)) : Prop :=
  forall a b,
    assoc_mem loc_eqb (VNum a, VNum b) ulocs
    = existsb (holds_at (VNum a, VNum b)) seen.

(** Every coordinate pair in [ulocs] is the location of a walked entity. *)
Definition ulocs_sound (seen : batch)
           (ulocs : list ((pyval * pyval) * string)) : Prop :=
  forall loc, assoc_mem loc_eqb loc ulocs = true ->
              existsb (holds_at loc) seen = true.

(** The batch as the resolution loop of [populate_team_locations] leaves
    it. *)
Definition resolved_teams (G : collaborators) (self : FRCGeocoder)
           (tms : batch) (w : world) : batch :=
  fst (fst (resolve_teams G self tms w)).

(** The location part of record [r] is the one of the override [o]. *)
Definition location_is (r o : dict) : bool :=
  match coords (VDict r), coords (VDict o) with
  | Some a, Some b => loc_eqb a b
  | _, _ => false
  end.

(** The final location of the team [k] is the one its override gives. *)
Definition override_respected (self : FRCGeocoder) (final : batch)
           (k : string) : bool :=
  match assoc_get String.eqb k (teams self), dict_get k final with
  | Some o, Some (VDict r) => location_is r o
  | _, _ => false
  end.

(** Noise that moves every draw by [sigma]. *)
Definition shifting : collaborators :=
  mkCollaborators (fun _ _ => None) (fun _ mu sigma => (mu + sigma)%Q)
                  (fun _ d => (d, false)) (fun _ => "").

(** Two teams at the same place: the first through the archive, the second
    through a manual override. *)
Definition geocoder_two_at_10_20 : FRCGeocoder :=
  mkGeocoder [("frc2", [("lat", VNum 10); ("lng", VNum 20)])] []
             [("frc1", VDict [("lat", VNum 10); ("lng", VNum 20)])] [].

Definition teams_frc1_frc2 : batch :=
  [("frc1", VDict [("key", VStr "frc1")]);
   ("frc2", VDict [("key", VStr "frc2")])].

(** A record whose location is entirely there or entirely null. *)
Definition full_or_null (v : pyval) : bool :=
  match coords v with
  | Some (a, b) => Bool.eqb (is_none a) (is_none b)
  | None => false
  end.

(** A record with one coordinate null and the other not. *)
Definition half_filled (v : pyval) : bool :=
  match coords v with
  | Some (a, b) => xorb (is_none a) (is_none b)
  | None => false
  end.

(** A value of a batch that, if it is a record, satisfies [full_or_null]. *)
Definition record_ok (v : pyval) : bool :=
  match v with VDict _ => full_or_null v | _ => true end.

(** No key is bound twice (as in any Python dict). *)
Fixpoint distinct_keys (d : dict) : bool :=
  match d with
  | [] => true
  | (k, _) :: d' => negb (dict_mem k d') && distinct_keys d'
  end.

(** A dict that carries a location, entire or null. *)
Definition location_like (d : dict) : bool :=
  distinct_keys d && full_or_null (VDict d).

(** A JSON location: a dict that carries a location and has no dict among
    its fields. *)
Definition location_entry (a : pyval) : bool :=
  match a with
  | VDict d => location_like d && forallb (fun kv => hashable (snd kv)) d
  | _ => false
  end.

(** Every source of locations gives a location that is entire or null. *)
Record sound_sources (G : collaborators) (self : FRCGeocoder) : Prop := {
  team_overrides_ok :
    forallb (fun ko => location_like (snd ko)) (teams self) = true;
  event_overrides_ok :
    forallb (fun ko => location_like (snd ko)) (events self) = true;
  team_archive_ok :
    forallb (fun ka => location_entry (snd ka)) (team_archive self) = true;
  event_archive_ok :
    forallb (fun ka => location_entry (snd ka)) (event_archive self) = true;
  provider_ok :
    forall h addr loc,
      geocode G h addr = Some loc -> location_entry loc = true;
  enhance_ok :
    forall h d,
      full_or_null (VDict d) = true ->
      full_or_null (VDict (fst (enhance_event_data G h d))) = true
}.

(** An override that gives a latitude only. *)
Definition geocoder_partial_override : FRCGeocoder :=
  mkGeocoder [("frc1", [("lat", VNum 10)])] [("2020abc", [("lat", VNum 10)])]
             [] [].

Definition team_frc1_unlocated : batch :=
  [("frc1", VDict [("key", VStr "frc1"); ("lat", VNone); ("lng", VNone)])].

(** The team [k] is neither overridden nor archived: its location is asked
    of the provider. *)
Definition geocoded (self : FRCGeocoder) (k : string) : bool :=
  negb (assoc_mem String.eqb k (teams self))
  && negb (dict_mem k (team_archive self)).

(** The address sent to the provider for one team, if any. *)
Definition team_attempt (G : collaborators) (self : FRCGeocoder)
           (kv : string * pyval) : list string :=
  if geocoded self (fst kv) then
    match snd kv with
    | VDict d =>
        match make_team_address (format_value G) d with
        | Some a => [a]
        | None => []
        end
    | _ => []
    end
  else [].

(** One attempt at most for each team of the batch, in order. *)
Definition provider_attempts (G : collaborators) (self : FRCGeocoder)
           (tms : batch) : list string :=
  flat_map (team_attempt G self) tms.

(** A dict with distinct keys that carries two numbers or two nulls. *)
Definition numeric_location (d : dict) : bool :=
  distinct_keys d && well_located (VDict d).

Definition numeric_entry (a : pyval) : bool :=
  match a with VDict d => numeric_location d | _ => false end.

(** An entity record: a dict with its identifier under [key]. *)
Definition entity_record (v : pyval) : bool :=
  match v with VDict d => dict_mem "key" d | _ => false end.

Definition with_calls (w : world) (calls : list string) : world :=
  mkWorld (fs w) calls (noise_calls w) (enhance_calls w).

(** What a run of [populate_team_locations] can rely on: locations given by
    the overrides, the archive and the provider are pairs of numbers or of
    nulls, the batch is a dict of entity records, and the archive file can
    be written. *)
Record team_run_ready (G : collaborators) (self : FRCGeocoder)
       (tms : batch) (year : Z) (w : world) : Prop := {
  ready_overrides :
    forallb (fun ko => numeric_location (snd ko)) (teams self) = true;
  ready_archive :
    forallb (fun ka => numeric_entry (snd ka)) (team_archive self) = true;
  ready_provider :
    forall h addr loc,
      geocode G h addr = Some loc -> numeric_entry loc = true;
  ready_records :
    forallb (fun kv => entity_record (snd kv)) tms = true;
  ready_keys : NoDup (map fst tms);
  ready_file : writable (fs w) (team_archive_name year) = true
}.

(** The record of the event [k] after the override step. *)
Definition after_override (self : FRCGeocoder) (k : string) (d : dict)
  : dict :=
  match assoc_get String.eqb k (events self) with
  | Some o => dict_update d o
  | None => d
  end.

(** No entry of the event archive has a field named [k]. *)
Definition archive_avoids (self : FRCGeocoder) (k : string) : bool :=
  forallb (fun ka => match snd ka with
                     | VDict a => negb (dict_mem k a)
                     | _ => true
                     end)
          (event_archive self).

(** Two events: the first has a null [lat] and no [lng] field at all, the
    second is located. *)
Definition events_without_lng : batch :=
  [("2020abc", VDict [("key", VStr "2020abc"); ("lat", VNone)]);
   ("2020xyz", VDict [("key", VStr "2020xyz"); ("lat", VNum 1);
                      ("lng", VNum 2)])].

Definition geocoder_empty : FRCGeocoder := mkGeocoder [] [] [] [].

(** A batch with a located team, a team without location and a team with a
    latitude only. *)
Definition teams_mixed : batch :=
  [("frc1", VDict [("key", VStr "frc1"); ("city", VStr "Paris");
                   ("lat", VNum 10); ("lng", VNum 20)]);
   ("frc2", VDict [("key", VStr "frc2"); ("lat", VNone); ("lng", VNone)]);
   ("frc3", VDict [("key", VStr "frc3"); ("lat", VNum 5); ("lng", VNone)])].

(** Four entities: the first and the last two stand at the same place (the
    last one written as a fraction), the second has no location. *)
Definition teams_colliding : batch :=
  [("frc1", VDict [("lat", VNum 10); ("lng", VNum 20)]);
   ("frc2", VDict [("lat", VNone); ("lng", VNone)]);
   ("frc3", VDict [("name", VStr "C"); ("lat", VNum 10); ("lng", VNum 20)]);
   ("frc4", VDict [("lat", VNum (20 # 2)); ("lng", VNum (40 # 2))])].

(** The batch of [teams_frc1_frc2] with the overridden team first. *)
Definition teams_frc2_frc1 : batch :=
  [("frc2", VDict [("key", VStr "frc2")]);
   ("frc1", VDict [("key", VStr "frc1")])].

(** Two events that overrides put at the same place. *)
Definition geocoder_events_at_10_20 : FRCGeocoder :=
  mkGeocoder [] [("2020abc", [("lat", VNum 10); ("lng", VNum 20)]);
                 ("2020xyz", [("lat", VNum 10); ("lng", VNum 20)])]
             [] [].

Definition events_abc_xyz : batch :=
  [("2020abc", VDict [("key", VStr "2020abc"); ("lat", VNone);
                      ("lng", VNone)]);
   ("2020xyz", VDict [("key", VStr "2020xyz"); ("lat", VNone);
                      ("lng", VNone)])].

(** A provider that knows one place only, and fails from its second call
    on. *)
Definition answering_once : collaborators :=
  mkCollaborators
    (fun h _ => match h with
                | [] => Some (VDict [("lat", VNum 30); ("lng", VNum 40)])
                | _ => None
                end)
    (fun _ mu sigma => (mu + sigma)%Q)
    (fun _ d => (d, false)) (fun _ => "").

(** Three teams with an address, none overridden or archived, and one
    team without any address field. *)
Definition teams_to_geocode : batch :=
  [("frc1", VDict [("key", VStr "frc1"); ("city", VStr "Paris")]);
   ("frc2", VDict [("key", VStr "frc2"); ("city", VStr "Lyon")]);
   ("frc3", VDict [("key", VStr "frc3")]);
   ("frc4", VDict [("key", VStr "frc4"); ("city", VStr "Nice")])].

(** An event record without coordinates, followed by a located one. *)
Definition events_without_lat : batch :=
  [("2020abc", VDict [("key", VStr "2020abc")]);
   ("2020xyz", VDict [("key", VStr "2020xyz"); ("lat", VNum 1);
                      ("lng", VNum 2)])].

(* ===================================================================== *)
(** ** Vocabulary of the further properties *)
(* ===================================================================== *)

(** No character of [s] is white space. *)
Fixpoint no_space (s : string) : bool :=
  match s with
  | EmptyString => true
  | String c s' => negb (PyStr.isspace c) && no_space s'
  end.

(** Every character of [s] is white space. *)
Fixpoint all_space (s : string) : bool :=
  match s with
  | EmptyString => true
  | String c s' => PyStr.isspace c && all_space s'
  end.

(** A word: not empty, no white space. *)
Definition is_word (s : string) : bool :=
  negb (PyStr.is_empty s) && no_space s.

(** [s] is empty or starts with a character that is not white space. *)
Definition starts_clean (s : string) : bool :=
  match s with
  | EmptyString => true
  | String c _ => negb (PyStr.isspace c)
  end.

(** The fields [make_team_address] reads. *)
Definition team_address_fields : list string :=
  ["school_name"; "city"; "state_prov"; "postal_code"; "country"].

Definition is_str (v : pyval) : bool :=
  match v with VStr _ => true | _ => false end.

(** A team record with ragged white space in its fields. *)
Definition ragged_team : dict :=
  [("school_name", VStr "  Lycee   Jean
Moulin "); ("city", VNone); ("state_prov", VStr "	");
   ("country", VStr "France")].

(** A record whose fields are all blank, and one whose postal code is a
    number. *)
Definition blank_team : dict :=
  [("school_name", VStr " "); ("city", VNone); ("country", VStr "")].

Definition numbered_event : dict :=
  [("venue", VStr "Arena"); ("postal_code", VNum 75000)].


(** For the year [y], the loader recognises the file name the saver
    writes, with that year, when the year has four digits and not
    otherwise. *)
Definition name_agrees (y : Z) : bool :=
  match match_team_file (team_archive_name y) with
  | Some y' => (1000 <=? y)%Z && (y <=? 9999)%Z && (y' =? y)%Z
  | None => negb ((1000 <=? y)%Z && (y <=? 9999)%Z)
  end.

(** [f] holds of 0, 1, ..., [count - 1]. *)
Definition holds_below (f : Z -> bool) (count : N) : bool :=
  fst (N.iter count (fun p => (fst p && f (snd p), (snd p + 1)%Z))
              (true, 0%Z)).

(** Record [v'] is record [v] but for the values of [lat] and [lng]: the
    same fields in the same order, every other field with its value. *)
Definition only_location_changed (v v' : pyval) : Prop :=
  match v, v' with
  | VDict d, VDict d' =>
      map fst d' = map fst d /\
      forall f, f <> "lat" -> f <> "lng" -> dict_get f d' = dict_get f d
  | _, _ => v' = v
  end.

(** No entity of [items] has the location of an earlier one or of one of
    [seen]. *)
Fixpoint collision_free (seen items : batch) : bool :=
  match items with
  | [] => true
  | (k, v) :: rest =>
      negb (collides seen v) && collision_free (seen ++ [(k, v)]) rest
  end.

(** Three located teams at three places and one team without location. *)
Definition teams_apart : batch :=
  [("frc1", VDict [("lat", VNum 10); ("lng", VNum 20)]);
   ("frc2", VDict [("lat", VNone); ("lng", VNone)]);
   ("frc3", VDict [("lat", VNum 10); ("lng", VNum 21)]);
   ("frc4", VDict [("lat", VNum 11); ("lng", VNum 20)])].

(** The record is marked [ignore]. *)
Definition ignored (v : pyval) : bool :=
  match v with
  | VDict d =>
      match dict_get "ignore" d with
      | Some (VBool true) => true
      | _ => false
      end
  | _ => false
  end.

(** The record has a location or is marked [ignore]. *)
Definition accounted (v : pyval) : bool := located v || ignored v.

(** No identifier of the batch is in the event archive. *)
Definition archive_misses (self : FRCGeocoder) (evs : batch) : bool :=
  forallb (fun kv => negb (dict_mem (fst kv) (event_archive self))) evs.

(** An official event the provider can place, an event that is not
    official, and a located event. *)
Definition events_mixed : batch :=
  [("2020abc", VDict [("key", VStr "2020abc"); ("is_official", VBool true);
                      ("city", VStr "Paris"); ("lat", VNone);
                      ("lng", VNone)]);
   ("2020off", VDict [("key", VStr "2020off"); ("is_official", VBool false);
                      ("lat", VNone); ("lng", VNone)]);
   ("2020xyz", VDict [("key", VStr "2020xyz"); ("lat", VNum 1);
                      ("lng", VNum 2)])].

(** The batch and the world that a first run over [teams_frc1_frc2] leaves,
    and a geocoder constructed afterwards. *)
Definition first_run : batch * world * status :=
  populate_team_locations shifting geocoder_two_at_10_20 teams_frc1_frc2
                          2022 blank_world.

Definition geocoder_after_first_run : FRCGeocoder :=
  mkGeocoder [] [] (archive_view (fst (fst first_run))) [].



(** The keys [extra] are field names of entries of the event archive. *)
Definition archive_fields (self : FRCGeocoder) (extra : list string) : Prop :=
  forall k, In k extra ->
            exists key a, dict_get key (event_archive self) = Some (VDict a)
                          /\ In k (map fst a).
(* ===================================================================== *)
(** * Properties *)
(* ===================================================================== *)

(** ** Association lists *)

Unset Implicit Arguments.

Section AssocFacts.
Context {K V : Type} {eqb : K -> K -> bool}.
Hypothesis eqb_eq : forall a b, eqb a b = true <-> a = b.

Lemma eqb_refl_of a : eqb a a = true.
Proof. now apply eqb_eq. Qed.

Lemma assoc_get_set_same k (v : V) d :
  assoc_get eqb k (assoc_set eqb k v d) = Some v.
Proof.
  induction d as [|[k' v'] d IH]; simpl.
  - now rewrite eqb_refl_of.
  - destruct (eqb k k') eqn:E; simpl; rewrite E; auto.
Qed.

Lemma assoc_get_set_other k k' (v : V) d :
  k <> k' -> assoc_get eqb k' (assoc_set eqb k v d) = assoc_get eqb k' d.
Proof.
  intros Hne. induction d as [|[k0 v0] d IH]; simpl.
  - destruct (eqb k' k) eqn:E; auto. apply eqb_eq in E. congruence.
  - destruct (eqb k k0) eqn:E; simpl.
    + apply eqb_eq in E. subst k0.
      destruct (eqb k' k) eqn:E'; auto. apply eqb_eq in E'. congruence.
    + destruct (eqb k' k0); auto.
Qed.

Lemma assoc_get_In k (v : V) d :
  assoc_get eqb k d = Some v -> In (k, v) d.
Proof.
  induction d as [|[k' v'] d IH]; simpl; [discriminate|].
  destruct (eqb k k') eqn:E.
  - intros [= ->]. apply eqb_eq in E. subst. now left.
  - intros H. right. auto.
Qed.

Lemma assoc_get_of_key k d :
  In k (map fst d) -> exists v : V, assoc_get eqb k d = Some v.
Proof.
  induction d as [|[k' v'] d IH]; simpl; [tauto|].
  intros [->|H].
  - rewrite eqb_refl_of. eauto.
  - destruct (eqb k k'); eauto.
Qed.

Lemma assoc_get_key k (v : V) d :
  assoc_get eqb k d = Some v -> In k (map fst d).
Proof.
  intros H. apply assoc_get_In in H.
  apply in_map_iff. exists (k, v). auto.
Qed.

(** Binding a key that is not there appends. *)
Lemma assoc_set_fresh k (v : V) d :
  ~ In k (map fst d) -> assoc_set eqb k v d = d ++ [(k, v)].
Proof.
  induction d as [|[k' v'] d IH]; simpl; auto.
  intros Hn. destruct (eqb k k') eqn:E.
  - apply eqb_eq in E. subst. tauto.
  - f_equal. apply IH. tauto.
Qed.

End AssocFacts.

Lemma string_eqb_eq (a b : string) : String.eqb a b = true <-> a = b.
Proof. apply String.eqb_eq. Qed.

Lemma Z_eqb_eq (a b : Z) : Z.eqb a b = true <-> a = b.
Proof. apply Z.eqb_eq. Qed.

(** ** Reading the team archive *)

Lemma max_year_ge y0 rest :
  (y0 <= max_year y0 rest)%Z /\
  forall y, In y (map fst rest) -> (y <= max_year y0 rest)%Z.
Proof.
  unfold max_year. generalize (map fst rest) as l. intros l0.
  revert y0. induction l0 as [|a l IH]; intros y0; simpl.
  - split; [lia|tauto].
  - destruct (IH (Z.max y0 a)) as [H1 H2]. split; [lia|].
    intros y [->|Hy]; [lia|auto].
Qed.

Lemma max_year_in y0 rest :
  max_year y0 rest = y0 \/ In (max_year y0 rest) (map fst rest).
Proof.
  unfold max_year. generalize (map fst rest) as l. intros l0.
  revert y0. induction l0 as [|a l IH]; intros y0; simpl; auto.
  destruct (IH (Z.max y0 a)) as [H|H]; auto.
  rewrite H. destruct (Z.max_spec y0 a) as [[_ ->]|[_ ->]]; auto.
Qed.


Lemma collect_years_spec files :
  years_sound files (collect_years files) /\
  years_complete files (collect_years files).
Proof.
  unfold collect_years.
  assert (Hgen : forall todo seen acc,
             years_sound seen acc -> years_complete seen acc ->
             let r := fold_left
                        (fun years file =>
                           match match_team_file file with
                           | None => years
                           | Some y => assoc_set Z.eqb y file years
                           end) todo acc in
             years_sound (seen ++ todo) r /\ years_complete (seen ++ todo) r).
  { induction todo as [|f todo IH]; intros seen acc Hs Hc; simpl.
    - rewrite app_nil_r. auto.
    - replace (seen ++ f :: todo) with ((seen ++ [f]) ++ todo)
        by (rewrite <- app_assoc; reflexivity).
      apply IH.
      + intros y g Hg. destruct (match_team_file f) as [yf|] eqn:Ef.
        * destruct (Z.eq_dec yf y) as [->|Hne].
          -- rewrite (assoc_get_set_same Z_eqb_eq) in Hg.
             injection Hg as <-. split; auto.
             apply in_or_app. right. now left.
          -- rewrite (assoc_get_set_other Z_eqb_eq) in Hg by auto.
             destruct (Hs _ _ Hg). split; auto. apply in_or_app. auto.
        * destruct (Hs _ _ Hg). split; auto. apply in_or_app. auto.
      + intros g y Hin Hg. apply in_app_or in Hin.
        destruct Hin as [Hin|[<-|[]]].
        * specialize (Hc _ _ Hin Hg).
          destruct (match_team_file f) as [yf|]; auto.
          destruct (Z.eq_dec yf y) as [->|Hne].
          -- eapply (assoc_get_key Z_eqb_eq).
             apply (assoc_get_set_same Z_eqb_eq).
          -- destruct (assoc_get_of_key Z_eqb_eq _ _ Hc) as [v Hv].
             eapply (assoc_get_key Z_eqb_eq).
             rewrite (assoc_get_set_other Z_eqb_eq) by auto. exact Hv.
        * rewrite Hg. eapply (assoc_get_key Z_eqb_eq).
          apply (assoc_get_set_same Z_eqb_eq). }
  apply (Hgen files [] []).
  - intros y f H. discriminate H.
  - intros f y H. destruct H.
Qed.

Lemma listed_files (dir : directory) (f : string) :
  In f (map fst (filter (fun e => is_file (snd e)) dir)) <->
  exists c, In (f, File c) dir.
Proof.
  rewrite in_map_iff. split.
  - intros [[g n] [<- H]]. apply filter_In in H. destruct H as [H1 H2].
    destruct n; simpl in *; [discriminate|]. eauto.
  - intros [c H]. exists (f, File c). split; auto.
    apply filter_In. auto.
Qed.

(** C8. [__read_team_archive] returns the empty archive, without raising,
    when no file of the directory matches the year-stamped pattern; when
    some file matches, it loads a matching file whose year is the maximum
    of the years of all matching files. *)
Theorem read_team_archive_latest (dir : directory) :
  ((forall name c, In (name, File c) dir -> match_team_file name = None) ->
   read_team_archive dir = Ok [])
  /\
  (forall name0 c0 y0,
      In (name0, File c0) dir -> match_team_file name0 = Some y0 ->
      exists name c y,
        In (name, File c) dir /\ match_team_file name = Some y /\
        (forall name' c' y',
            In (name', File c') dir -> match_team_file name' = Some y' ->
            (y' <= y)%Z) /\
        read_team_archive dir = json_load dir name).
Proof.
  unfold read_team_archive.
  set (files := map fst (filter (fun e => is_file (snd e)) dir)).
  destruct (collect_years_spec files) as [Hsound Hcomplete].
  split.
  - intros Hnone.
    destruct (collect_years files) as [|[y0 f0] rest] eqn:Ey; auto.
    destruct (Hsound y0 f0) as [Hin Hm].
    { simpl. now rewrite Z.eqb_refl. }
    apply listed_files in Hin. destruct Hin as [c Hin].
    rewrite (Hnone _ _ Hin) in Hm. discriminate.
  - intros name0 c0 y0 Hin0 Hm0.
    assert (Hk0 : In y0 (map fst (collect_years files))).
    { apply (Hcomplete name0 y0); auto. apply listed_files. eauto. }
    destruct (collect_years files) as [|[y1 f1] rest] eqn:Ey;
      [destruct Hk0|].
    set (m := max_year y1 rest).
    assert (Hkey : In m (map fst ((y1, f1) :: rest))).
    { simpl. destruct (max_year_in y1 rest) as [H|H]; [left|right]; auto. }
    destruct (assoc_get_of_key Z_eqb_eq _ _ Hkey) as [latest Hlatest].
    rewrite Hlatest.
    destruct (Hsound m latest Hlatest) as [Hin Hm].
    apply listed_files in Hin. destruct Hin as [c Hin].
    exists latest, c, m. repeat split; auto.
    intros name' c' y' Hin' Hm'.
    assert (Hk' : In y' (map fst ((y1, f1) :: rest))).
    { apply (Hcomplete name' y'); auto. apply listed_files. eauto. }
    destruct (max_year_ge y1 rest) as [H1 H2].
    simpl in Hk'. destruct Hk' as [<-|Hk']; auto.
Qed.

(** Scenario 5 of the specification: with files for 2021 and 2022, the
    archive of 2022 is loaded, whatever the listing order. *)
Example read_team_archive_scenario5 :
  read_team_archive dir_2021_2022 = Ok archive_2022 /\
  read_team_archive (rev dir_2021_2022) = Ok archive_2022.
Proof. split; reflexivity. Qed.

Lemma read_team_archive_latest_witness :
  read_team_archive [("readme.txt", File None); ("old", Directory)] = Ok []
  /\
  exists name c y,
    In (name, File c) dir_2021_2022 /\ match_team_file name = Some y /\
    (forall name' c' y',
        In (name', File c') dir_2021_2022 ->
        match_team_file name' = Some y' -> (y' <= y)%Z) /\
    read_team_archive dir_2021_2022 = json_load dir_2021_2022 name.
Proof.
  split.
  - apply (proj1 (read_team_archive_latest _)).
    intros name c [H|[H|[]]]; inversion H; reflexivity.
  - apply (proj2 (read_team_archive_latest dir_2021_2022)
                 "all_team_locations_2021.json" (Some archive_2021) 2021%Z).
    + simpl. auto.
    + reflexivity.
Defined.

(** ** Address synthesis *)

(** Absent and [None] fields never make [make_event_address] raise. *)
Lemma make_event_address_total (data : dict) :
  forallb (textual data) event_address_fields = true ->
  exists r, make_event_address data = Ok r.
Proof.
  unfold make_event_address, event_address_fields, textual, read; simpl.
  intros H.
  repeat (apply andb_prop in H; destruct H as [?H H]).
  repeat match goal with
         | Hf : match dict_get ?k data with _ => _ end = true |- _ =>
             destruct (dict_get k data) as [[| | | |]|];
             try discriminate Hf; clear Hf
         end; simpl; eauto.
Qed.

(** C6. [make_event_address] joins the six fields with single spaces and
    only strips the ends: with [venue] and [city] known and [address]
    empty in between, the result carries a repeated separator. *)
Theorem make_event_address_repeats_separator :
  make_event_address arena_in_paris = Ok (Some "Arena  Paris") /\
  PyStr.has_double_space "Arena  Paris" = true.
Proof. split; reflexivity. Qed.

(** The sibling [make_team_address] collapses the gaps. *)
Example make_team_address_collapses (fmt : pyval -> string) :
  make_team_address fmt [("school_name", VStr "Arena"); ("city", VNone);
                         ("country", VStr "France")]
  = Some "Arena France".
Proof. reflexivity. Qed.

(** ** An archived event *)

(** C1. On an event without location whose identifier is in the event
    archive, [populate_event_locations] updates the batch itself instead of
    the record: the coordinates land in [events] under the keys [lat] and
    [lng], the record keeps its null location and is marked [ignore], and
    the next step of the iteration raises [RuntimeError]. *)
Theorem archived_event_not_merged (G : collaborators) (w : world) :
  populate_event_locations G geocoder_knowing_2020abc event_2020abc w
  = ([("2020abc", VDict [("key", VStr "2020abc"); ("lat", VNone);
                         ("lng", VNone); ("ignore", VBool true)]);
      ("lat", VNum 1); ("lng", VNum 2)],
     w, Failed RuntimeError).
Proof. reflexivity. Qed.

(** The sibling path for teams merges the archived location into the
    record. *)
Example archived_team_merged (G : collaborators) :
  fst (fst (populate_team_locations G geocoder_knowing_2020abc
                                    event_2020abc 2020 blank_world))
  = [("2020abc", VDict [("key", VStr "2020abc"); ("lat", VNum 1);
                        ("lng", VNum 2)])].
Proof. reflexivity. Qed.

(** ** Saving an archive *)

Lemma noloc_readable (v : pyval) :
  loc_readable v = true -> noloc v = Ok (negb (located v)).
Proof.
  destruct v as [| | | |d]; simpl; try discriminate.
  unfold noloc, getitem, dict_mem, assoc_mem. fold dict_get. simpl.
  destruct (dict_get "lat" d) as [a|]; simpl; [|discriminate].
  destruct (is_none a) eqn:Ea; simpl.
  - intros _. now destruct (dict_get "lng" d).
  - destruct (dict_get "lng" d) as [b|]; simpl; [|discriminate].
    intros _. now rewrite negb_involutive.
Qed.

Lemma located_is_dict (v : pyval) :
  located v = true -> exists d, v = VDict d.
Proof. destruct v; simpl; try discriminate. eauto. Qed.

Lemma save_data_view (items : batch) :
  forall data : dict,
    NoDup (map fst items) ->
    (forall k, In k (map fst items) -> ~ In k (map fst data)) ->
    forallb (fun kv => loc_readable (snd kv)) items = true ->
    save_data items data = Ok (data ++ archive_view items).
Proof.
  induction items as [|[k0 v0] rest IH]; intros data Hnd Hfresh Hread.
  - simpl. now rewrite app_nil_r.
  - simpl in Hread. apply andb_prop in Hread. destruct Hread as [Hr0 Hread].
    inversion Hnd as [|? ? Hk0 Hnd']; subst.
    simpl. rewrite (noloc_readable _ Hr0). simpl.
    unfold archive_view. simpl.
    destruct (located v0) eqn:Eloc; simpl.
    + destruct (located_is_dict _ Eloc) as [d ->]. simpl.
      unfold dict_set.
      rewrite (assoc_set_fresh string_eqb_eq) by (apply Hfresh; now left).
      fold (archive_view rest).
      rewrite IH; auto.
      * now rewrite <- app_assoc.
      * intros k Hk Hin. rewrite map_app in Hin. apply in_app_or in Hin.
        destruct Hin as [Hin|[<-|[]]].
        -- apply (Hfresh k); auto. now right.
        -- auto.
    + apply IH; auto. intros k Hk. apply Hfresh. now right.
Qed.

Lemma project_spec (d : dict) (f : string) (x : pyval) :
  In (f, x) (project d) <-> In (f, x) d /\ (f = "lat" \/ f = "lng").
Proof.
  unfold project. rewrite filter_In. simpl.
  rewrite orb_true_iff, !String.eqb_eq. tauto.
Qed.

Lemma archive_view_spec (items : batch) (k : string) (v : pyval) :
  In (k, v) (archive_view items) <->
  exists d a b,
    In (k, VDict d) items /\
    dict_get "lat" d = Some a /\ dict_get "lng" d = Some b /\
    is_none a = false /\ is_none b = false /\ v = VDict (project d).
Proof.
  unfold archive_view. rewrite in_map_iff. split.
  - intros [[k' v'] [Heq Hin]]. simpl in Heq. injection Heq as -> <-.
    apply filter_In in Hin. destruct Hin as [Hin Hloc]. simpl in Hloc.
    destruct (located_is_dict _ Hloc) as [d ->]. simpl in Hloc.
    destruct (dict_get "lat" d) as [a|] eqn:Ea; [|discriminate].
    destruct (dict_get "lng" d) as [b|] eqn:Eb; [|discriminate].
    apply andb_prop in Hloc. destruct Hloc as [Ha Hb].
    exists d, a, b. repeat split; auto.
    + now destruct (is_none a).
    + now destruct (is_none b).
  - intros (d & a & b & Hin & Ea & Eb & Ha & Hb & ->).
    exists (k, VDict d). split; auto.
    apply filter_In. split; auto. simpl. now rewrite Ea, Eb, Ha, Hb.
Qed.

(** C7. [__save_team_archive] and [__save_event_archive] overwrite their
    file with exactly the entities that have both [lat] and [lng] non-null,
    each reduced to its [lat] and [lng] fields; an entity without location
    is never written. *)
Theorem save_archives_write_located
        (items : batch) (year : Z) (w : world) :
  NoDup (map fst items) ->
  forallb (fun kv => loc_readable (snd kv)) items = true ->
  writable (fs w) (team_archive_name year) = true ->
  writable (fs w) event_archive_name = true ->
  save_team_archive items year w
  = (with_file w (team_archive_name year) (archive_view items), Done)
  /\ save_event_archive items w
     = (with_file w event_archive_name (archive_view items), Done)
  /\ (forall k v,
         In (k, v) (archive_view items) <->
         exists d a b,
           In (k, VDict d) items /\
           dict_get "lat" d = Some a /\ dict_get "lng" d = Some b /\
           is_none a = false /\ is_none b = false /\ v = VDict (project d))
  /\ (forall d f x,
         In (f, x) (project d) <-> In (f, x) d /\ (f = "lat" \/ f = "lng")).
Proof.
  intros Hnd Hread Hwt Hwe.
  assert (Hdata : save_data items [] = Ok (archive_view items)).
  { apply (save_data_view items []); auto. }
  unfold save_team_archive, save_event_archive, json_dump, writable in *.
  rewrite Hdata. split; [|split; [|split]].
  - destruct (assoc_get String.eqb (team_archive_name year) (fs w))
      as [[|c]|]; try discriminate; reflexivity.
  - destruct (assoc_get String.eqb event_archive_name (fs w))
      as [[|c]|]; try discriminate; reflexivity.
  - apply archive_view_spec.
  - apply project_spec.
Qed.

(** ** Collision deduplication *)

Lemma Qeq_bool_cong (p q r : Q) :
  Qeq_bool p q = true -> Qeq_bool p r = Qeq_bool q r.
Proof.
  intros H. apply Qeq_bool_iff in H.
  destruct (Qeq_bool p r) eqn:E1, (Qeq_bool q r) eqn:E2; auto.
  - apply Qeq_bool_iff in E1. rewrite H in E1.
    apply Qeq_bool_iff in E1. congruence.
  - apply Qeq_bool_iff in E2. rewrite <- H in E2.
    apply Qeq_bool_iff in E2. congruence.
Qed.

(** Two equal pairs of numbers are equal to the same tuples. *)
Lemma loc_eqb_cong (a b a' b' : Q) (c : pyval * pyval) :
  loc_eqb (VNum a', VNum b') (VNum a, VNum b) = true ->
  loc_eqb (VNum a', VNum b') c = loc_eqb (VNum a, VNum b) c.
Proof.
  unfold loc_eqb. simpl. intros H. apply andb_prop in H. destruct H as [H1 H2].
  destruct c as [x y]; destruct x, y; simpl; auto;
    rewrite ?(Qeq_bool_cong _ _ _ H1), ?(Qeq_bool_cong _ _ _ H2);
    reflexivity.
Qed.

Section AssocAnyEq.
Context {K V : Type} (eqb : K -> K -> bool).

Lemma assoc_set_absent (k : K) (v : V) (d : list (K * V)) :
  assoc_mem eqb k d = false -> assoc_set eqb k v d = d ++ [(k, v)].
Proof.
  unfold assoc_mem. induction d as [|[k' v'] d IH]; simpl; auto.
  destruct (eqb k k'); [discriminate|].
  intros H. f_equal. auto.
Qed.

Lemma assoc_mem_snoc (k k' : K) (v : V) (d : list (K * V)) :
  assoc_mem eqb k' (d ++ [(k, v)]) = assoc_mem eqb k' d || eqb k' k.
Proof.
  unfold assoc_mem. induction d as [|[k0 v0] d IH]; simpl.
  - now destruct (eqb k' k).
  - destruct (eqb k' k0); auto.
Qed.
End AssocAnyEq.

Lemma dict_get_set_same (k : string) (v : pyval) (d : dict) :
  dict_get k (dict_set k v d) = Some v.
Proof. apply (assoc_get_set_same string_eqb_eq). Qed.

Lemma dict_get_set_other (k k' : string) (v : pyval) (d : dict) :
  k <> k' -> dict_get k' (dict_set k v d) = dict_get k' d.
Proof. apply (assoc_get_set_other string_eqb_eq). Qed.

(** The two shapes of a record that satisfies the Location invariant. *)
Lemma well_located_cases (v : pyval) :
  well_located v = true ->
  exists d, v = VDict d /\
    ((dict_get "lat" d = Some VNone /\ dict_get "lng" d = Some VNone) \/
     (exists a b, dict_get "lat" d = Some (VNum a) /\
                  dict_get "lng" d = Some (VNum b))).
Proof.
  unfold well_located, coords. destruct v as [| | | |d]; try discriminate.
  intros H. exists d. split; auto.
  destruct (dict_get "lat" d) as [[|x1|a|s1|d1]|];
    destruct (dict_get "lng" d) as [[|x2|b|s2|d2]|]; try discriminate; eauto.
Qed.

Lemma randomnize_located (G : collaborators) (d : dict) (a b : Q)
      (w : world) :
  dict_get "lat" d = Some (VNum a) ->
  dict_get "lng" d = Some (VNum b) ->
  randomnize_location G (VDict d) default_sigma w
  = (jittered G (noise_calls w) (VDict d),
     with_noise w (noise_calls w ++ draws_of (VDict d)), Done).
Proof.
  intros Ha Hb.
  unfold randomnize_location, jitter_field, jittered, draws_of, coords.
  simpl. rewrite Ha, Hb. simpl.
  rewrite dict_get_set_other by discriminate. rewrite Hb. simpl.
  unfold with_noise, log_noise. simpl. rewrite <- app_assoc. reflexivity.
Qed.

Lemma holds_at_unlocated loc (k : string) (v : pyval) :
  located v = false -> existsb (holds_at loc) [(k, v)] = false.
Proof. intros H. simpl. unfold holds_at. simpl. now rewrite H. Qed.

Lemma holds_at_located loc (k : string) (d : dict) (a b : Q) :
  dict_get "lat" d = Some (VNum a) ->
  dict_get "lng" d = Some (VNum b) ->
  existsb (holds_at loc) [(k, VDict d)] = loc_eqb loc (VNum a, VNum b).
Proof.
  intros Ha Hb. simpl. unfold holds_at. simpl. rewrite Ha, Hb. simpl.
  now rewrite orb_false_r.
Qed.

Lemma ulocs_track_skip (seen : batch) ulocs (k : string) (v : pyval) :
  located v = false ->
  ulocs_track seen ulocs -> ulocs_track (seen ++ [(k, v)]) ulocs.
Proof.
  intros Hl Ht a b.
  now rewrite existsb_app, Ht, (holds_at_unlocated _ _ _ Hl), orb_false_r.
Qed.

Lemma ulocs_track_collision (seen : batch) ulocs (k : string) (d : dict)
      (a b : Q) :
  dict_get "lat" d = Some (VNum a) ->
  dict_get "lng" d = Some (VNum b) ->
  assoc_mem loc_eqb (VNum a, VNum b) ulocs = true ->
  ulocs_track seen ulocs -> ulocs_track (seen ++ [(k, VDict d)]) ulocs.
Proof.
  intros Ha Hb Hmem Ht a' b'.
  rewrite existsb_app, Ht, (holds_at_located _ _ _ _ _ Ha Hb).
  destruct (loc_eqb (VNum a', VNum b') (VNum a, VNum b)) eqn:E;
    [|now rewrite orb_false_r].
  rewrite orb_true_r.
  rewrite Ht in Hmem. rewrite <- Hmem.
  clear -E. induction seen as [|kv seen IH]; simpl; auto.
  rewrite IH. f_equal. unfold holds_at.
  destruct (located (snd kv)); simpl; auto.
  destruct (coords (snd kv)) as [c|]; auto.
  now apply loc_eqb_cong.
Qed.

Lemma ulocs_track_claim (seen : batch) ulocs (k : string) (d : dict)
      (a b : Q) :
  dict_get "lat" d = Some (VNum a) ->
  dict_get "lng" d = Some (VNum b) ->
  assoc_mem loc_eqb (VNum a, VNum b) ulocs = false ->
  ulocs_track seen ulocs ->
  ulocs_track (seen ++ [(k, VDict d)])
              (assoc_set loc_eqb (VNum a, VNum b) k ulocs).
Proof.
  intros Ha Hb Hmem Ht a' b'.
  rewrite (assoc_set_absent loc_eqb _ _ _ Hmem), assoc_mem_snoc.
  now rewrite existsb_app, Ht, (holds_at_located _ _ _ _ _ Ha Hb).
Qed.

Lemma dedup_body_unknown (G : collaborators) (k : string) (d : dict) s :
  dict_get "lat" d = Some VNone ->
  dedup_body G k (VDict d) s = (VDict d, s, Done).
Proof.
  intros Ha. destruct s as [ulocs w].
  unfold dedup_body, noloc, getitem. now rewrite Ha.
Qed.

Lemma dedup_body_located (G : collaborators) (k : string) (d : dict)
      (a b : Q) ulocs (w : world) :
  dict_get "lat" d = Some (VNum a) ->
  dict_get "lng" d = Some (VNum b) ->
  dedup_body G k (VDict d) (ulocs, w)
  = if assoc_mem loc_eqb (VNum a, VNum b) ulocs
    then (jittered G (noise_calls w) (VDict d),
          (ulocs, with_noise w (noise_calls w ++ draws_of (VDict d))), Done)
    else (VDict d, (assoc_set loc_eqb (VNum a, VNum b) k ulocs, w), Done).
Proof.
  intros Ha Hb.
  unfold dedup_body, noloc, location_tuple, getitem. rewrite Ha, Hb. simpl.
  destruct (assoc_mem loc_eqb (VNum a, VNum b) ulocs); auto.
  now rewrite (randomnize_located G d a b w Ha Hb).
Qed.

Lemma collides_unknown (seen : batch) (d : dict) :
  dict_get "lat" d = Some VNone -> collides seen (VDict d) = false.
Proof.
  intros Ha. unfold collides, located. rewrite Ha.
  now destruct (dict_get "lng" d).
Qed.

Lemma collides_located (seen : batch) (d : dict) (a b : Q) :
  dict_get "lat" d = Some (VNum a) ->
  dict_get "lng" d = Some (VNum b) ->
  collides seen (VDict d) = existsb (holds_at (VNum a, VNum b)) seen.
Proof.
  intros Ha Hb. unfold collides, located, coords. now rewrite Ha, Hb.
Qed.

Lemma for_items_cons {S : Type} (body : string -> pyval -> S -> pyval * S * status)
      (key : string) (obj : pyval) (rest : batch) (s : S) :
  for_items body ((key, obj) :: rest) s
  = match body key obj s with
    | (obj', s', Done) =>
        let '(rest', s'', st) := for_items body rest s' in
        ((key, obj') :: rest', s'', st)
    | (obj', s', Failed e) => ((key, obj') :: rest, s', Failed e)
    end.
Proof. reflexivity. Qed.

Lemma dedup_view_cons (G : collaborators) (seen rest : batch) (k : string)
      (v : pyval) (h : list (Q * Q)) :
  dedup_view G seen ((k, v) :: rest) h
  = (let v' := if collides seen v then jittered G h v else v in
     let h' := if collides seen v then h ++ draws_of v else h in
     let '(rest', h'') := dedup_view G (seen ++ [(k, v)]) rest h' in
     ((k, v') :: rest', h'')).
Proof. reflexivity. Qed.

(** The loop of [__dedup_locations], which remembers the first holder of
    each coordinate pair, perturbs the same entities as the walk that
    compares with every earlier entity. *)
Lemma dedup_loop_refines (G : collaborators) (w0 : world) (items : batch) :
  forall (seen : batch) ulocs (h : list (Q * Q)),
    forallb (fun kv => well_located (snd kv)) items = true ->
    ulocs_track seen ulocs ->
    exists ulocs',
      for_items (dedup_body G) items (ulocs, with_noise w0 h)
      = (fst (dedup_view G seen items h),
         (ulocs', with_noise w0 (snd (dedup_view G seen items h))), Done).
Proof.
  induction items as [|[k v] rest IH]; intros seen ulocs h Hwl Ht.
  - simpl. eauto.
  - simpl in Hwl. apply andb_prop in Hwl. destruct Hwl as [Hv Hwl].
    destruct (well_located_cases v Hv) as [d [-> [[Ha Hb]|[a [b [Ha Hb]]]]]].
    + rewrite for_items_cons, dedup_view_cons.
      rewrite (dedup_body_unknown G k d _ Ha).
      rewrite (collides_unknown seen d Ha).
      destruct (IH (seen ++ [(k, VDict d)]) ulocs h Hwl) as [ulocs' IH'].
      { apply ulocs_track_skip; auto. unfold located. now rewrite Ha, Hb. }
      rewrite IH'. cbv zeta iota.
      destruct (dedup_view G (seen ++ [(k, VDict d)]) rest h); simpl. eauto.
    + rewrite for_items_cons, dedup_view_cons.
      rewrite (dedup_body_located G k d a b ulocs _ Ha Hb).
      rewrite (collides_located seen d a b Ha Hb), <- (Ht a b).
      destruct (assoc_mem loc_eqb (VNum a, VNum b) ulocs) eqn:Emem.
      * destruct (IH (seen ++ [(k, VDict d)]) ulocs
                     (h ++ draws_of (VDict d)) Hwl) as [ulocs' IH'].
        { eapply ulocs_track_collision; eauto. }
        simpl noise_calls. unfold with_noise at 1. simpl.
        fold (with_noise w0 (h ++ draws_of (VDict d))).
        rewrite IH'. cbv zeta iota.
        destruct (dedup_view G (seen ++ [(k, VDict d)]) rest
                             (h ++ draws_of (VDict d))); simpl. eauto.
      * destruct (IH (seen ++ [(k, VDict d)])
                     (assoc_set loc_eqb (VNum a, VNum b) k ulocs) h Hwl)
          as [ulocs' IH'].
        { eapply ulocs_track_claim; eauto. }
        rewrite IH'. cbv zeta iota.
        destruct (dedup_view G (seen ++ [(k, VDict d)]) rest h); simpl. eauto.
Qed.

Lemma dedup_view_draws (G : collaborators) (items : batch) :
  forall seen h,
    snd (dedup_view G seen items h) = h ++ jitter_draws seen items.
Proof.
  induction items as [|[k v] rest IH]; intros seen h; simpl.
  - now rewrite app_nil_r.
  - specialize (IH (seen ++ [(k, v)])
                   (if collides seen v then h ++ draws_of v else h)).
    destruct (dedup_view G (seen ++ [(k, v)]) rest
                         (if collides seen v then h ++ draws_of v else h)).
    simpl in *. rewrite IH.
    destruct (collides seen v); simpl; auto. now rewrite <- app_assoc.
Qed.

Lemma dedup_view_keys (G : collaborators) (items : batch) :
  forall seen h, map fst (fst (dedup_view G seen items h)) = map fst items.
Proof.
  induction items as [|[k v] rest IH]; intros seen h; simpl; auto.
  specialize (IH (seen ++ [(k, v)])
                 (if collides seen v then h ++ draws_of v else h)).
  destruct (dedup_view G (seen ++ [(k, v)]) rest
                       (if collides seen v then h ++ draws_of v else h)).
  simpl in *. now rewrite IH.
Qed.

Lemma dedup_view_nth (G : collaborators) (items : batch) :
  forall seen h i k v,
    nth_error items i = Some (k, v) ->
    nth_error (fst (dedup_view G seen items h)) i
    = Some (k, if collides (seen ++ firstn i items) v
               then jittered G (h ++ jitter_draws seen (firstn i items)) v
               else v).
Proof.
  induction items as [|[k0 v0] rest IH]; intros seen h i k v Hi.
  - destruct i; discriminate.
  - rewrite dedup_view_cons. cbv zeta.
    specialize (IH (seen ++ [(k0, v0)])
                   (if collides seen v0 then h ++ draws_of v0 else h)).
    destruct (dedup_view G (seen ++ [(k0, v0)]) rest
                         (if collides seen v0 then h ++ draws_of v0 else h))
      as [rest' h''].
    simpl fst in IH.
    destruct i as [|i]; simpl in Hi |- *.
    + injection Hi as -> ->. now rewrite !app_nil_r.
    + rewrite (IH i k v Hi). simpl.
      rewrite <- !app_assoc. simpl.
      destruct (collides seen v0); simpl; auto.
      now rewrite <- app_assoc.
Qed.

(** C4. On a batch whose records satisfy the Location invariant,
    [__dedup_locations] returns normally, keeps the identifiers and their
    order, and changes exactly the entities that have a location equal to
    the location an earlier entity had before the pass: such an entity gets
    its [lat], then its [lng], replaced by a Gaussian draw around the old
    value with standard deviation 0.001.  The first holder of a coordinate
    pair and every entity without location are returned as they were.
    Which entities are perturbed, and with which parameters the draws are
    made, depends on the batch before the pass and its order only. *)
Theorem dedup_perturbs_later_holders
        (G : collaborators) (items : batch) (w : world) :
  forallb (fun kv => well_located (snd kv)) items = true ->
  exists items',
    dedup_locations G items w
    = (items', with_noise w (noise_calls w ++ jitter_draws [] items), Done)
    /\ map fst items' = map fst items
    /\ (forall i k v,
           nth_error items i = Some (k, v) ->
           nth_error items' i
           = Some (k, if collides (firstn i items) v
                      then jittered G (noise_calls w
                                       ++ jitter_draws [] (firstn i items)) v
                      else v))
    /\ (forall i k v,
           nth_error items i = Some (k, v) -> located v = false ->
           nth_error items' i = Some (k, v)).
Proof.
  intros Hwl.
  destruct (dedup_loop_refines G w items [] [] (noise_calls w) Hwl)
    as [ulocs' Hrun].
  { intros a b. reflexivity. }
  exists (fst (dedup_view G [] items (noise_calls w))).
  assert (Hw : with_noise w (noise_calls w) = w) by now destruct w.
  rewrite Hw in Hrun.
  assert (Hnth : forall i k v,
             nth_error items i = Some (k, v) ->
             nth_error (fst (dedup_view G [] items (noise_calls w))) i
             = Some (k, if collides (firstn i items) v
                        then jittered G (noise_calls w
                                         ++ jitter_draws [] (firstn i items)) v
                        else v)).
  { intros i k v Hi. apply (dedup_view_nth G items [] _ i k v Hi). }
  split; [|split; [|split]].
  - unfold dedup_locations. rewrite Hrun. simpl.
    now rewrite dedup_view_draws.
  - apply dedup_view_keys.
  - exact Hnth.
  - intros i k v Hi Hl. rewrite (Hnth i k v Hi).
    unfold collides. now rewrite Hl.
Qed.

(** ** Order of deduplication and persistence *)

Lemma for_items_preserves {S : Type}
      (body : string -> pyval -> S -> pyval * S * status) (P : S -> Prop) :
  (forall k v s v' s' st, body k v s = (v', s', st) -> P s -> P s') ->
  forall items s items' s' st,
    for_items body items s = (items', s', st) -> P s -> P s'.
Proof.
  intros Hbody. induction items as [|[k v] rest IH];
    intros s items' s' st Hrun Hs.
  - simpl in Hrun. now injection Hrun as <- <- <-.
  - rewrite for_items_cons in Hrun.
    destruct (body k v s) as [[v1 s1] st1] eqn:Eb.
    pose proof (Hbody _ _ _ _ _ _ Eb Hs) as Hs1.
    destruct st1.
    + destruct (for_items body rest s1) as [[rest' s2] st2] eqn:Er.
      injection Hrun as <- <- <-. eapply IH; eauto.
    + now injection Hrun as <- <- <-.
Qed.

Lemma jitter_field_fs (G : collaborators) (k : string) (sigma : Q)
      (obj obj' : pyval) (w w' : world) (st : status) :
  jitter_field G k sigma obj w = (obj', w', st) -> fs w' = fs w.
Proof.
  unfold jitter_field.
  destruct (bind (getitem obj k) as_number) as [mu|e].
  - destruct (setitem obj k _); intros [= <- <- <-]; reflexivity.
  - intros [= <- <- <-]; reflexivity.
Qed.

Lemma randomnize_location_fs (G : collaborators) (sigma : Q)
      (obj obj' : pyval) (w w' : world) (st : status) :
  randomnize_location G obj sigma w = (obj', w', st) -> fs w' = fs w.
Proof.
  unfold randomnize_location.
  destruct (jitter_field G "lat" sigma obj w) as [[o1 w1] st1] eqn:E1.
  apply jitter_field_fs in E1. destruct st1.
  - intros E2. apply jitter_field_fs in E2. congruence.
  - intros [= <- <- <-]. auto.
Qed.

Lemma dedup_locations_fs (G : collaborators) (items items' : batch)
      (w w' : world) (st : status) :
  dedup_locations G items w = (items', w', st) -> fs w' = fs w.
Proof.
  unfold dedup_locations.
  destruct (for_items (dedup_body G) items ([], w)) as [[it s] st0] eqn:E.
  intros [= <- <- <-].
  apply (for_items_preserves (dedup_body G)
           (fun s => fs (snd s) = fs w) ) in E; auto.
  clear. intros k v [u w1] v' [u' w1'] st Hb Hs. simpl in *.
  unfold dedup_body in Hb.
  destruct (noloc v) as [[|]|e]; try (injection Hb as <- <- <- <-; auto).
  destruct (location_tuple v) as [loc|e];
    try (injection Hb as <- <- <- <-; auto).
  destruct (negb (loc_hashable loc));
    try (injection Hb as <- <- <- <-; auto).
  destruct (assoc_mem loc_eqb loc u);
    try (injection Hb as <- <- <- <-; auto).
  destruct (randomnize_location G v default_sigma w1) as [[o w2] st2] eqn:Er.
  injection Hb as <- <- <- <-.
  apply randomnize_location_fs in Er. congruence.
Qed.

Lemma json_dump_holds (dir dir' : directory) (name : string) (data : dict) :
  json_dump dir name data = Ok dir' ->
  assoc_get String.eqb name dir' = Some (File (Some data)).
Proof.
  unfold json_dump.
  destruct (assoc_get String.eqb name dir) as [[|c]|]; intros [= <-];
    apply (assoc_get_set_same string_eqb_eq).
Qed.

(** C5. When [populate_team_locations] returns, the team archive of the
    year was computed from the batch as deduplication left it (jittered
    coordinates included); when [populate_event_locations] returns, the
    event archive was computed from the batch as resolution left it, and
    deduplication ran afterwards, leaving the file as written. *)
Theorem archive_order_differs
        (G : collaborators) (self : FRCGeocoder) (w : world) :
  (forall tms year tms' w',
      populate_team_locations G self tms year w = (tms', w', Done) ->
      exists resolved w1 w2 data,
        resolve_teams G self tms w = (resolved, w1, Done) /\
        dedup_locations G resolved w1 = (tms', w2, Done) /\
        save_data tms' [] = Ok data /\
        file_holds w' (team_archive_name year) data)
  /\
  (forall evs evs' w',
      populate_event_locations G self evs w = (evs', w', Done) ->
      exists resolved w1 w2 data,
        resolve_events G self evs w = (resolved, w1, Done) /\
        save_data resolved [] = Ok data /\
        save_event_archive resolved w1 = (w2, Done) /\
        dedup_locations G resolved w2 = (evs', w', Done) /\
        file_holds w' event_archive_name data).
Proof.
  split.
  - intros tms year tms' w'. unfold populate_team_locations.
    destruct (resolve_teams G self tms w) as [[t1 w1] [|e1]];
      [|discriminate].
    destruct (dedup_locations G t1 w1) as [[t2 w2] [|e2]] eqn:Ed;
      [|discriminate].
    unfold save_team_archive.
    destruct (save_data t2 []) as [data|e3] eqn:Es; [|discriminate].
    destruct (json_dump (fs w2) (team_archive_name year) data)
      as [dir|e4] eqn:Ej; [|discriminate].
    intros [= <- <-]. exists t1, w1, w2, data. repeat split; auto.
    unfold file_holds. simpl. eapply json_dump_holds; eauto.
  - intros evs evs' w'. unfold populate_event_locations.
    destruct (resolve_events G self evs w) as [[e1 w1] [|x1]];
      [|discriminate].
    destruct (save_event_archive e1 w1) as [w2 [|x2]] eqn:Es;
      [|discriminate].
    intros Hd. pose proof Es as Es'. unfold save_event_archive in Es'.
    destruct (save_data e1 []) as [data|x3] eqn:Esd; [|discriminate].
    destruct (json_dump (fs w1) event_archive_name data)
      as [dir|x4] eqn:Ej; [|discriminate].
    injection Es' as <-.
    exists e1, w1, (with_fs w1 dir), data. repeat split; auto.
    unfold file_holds. rewrite (dedup_locations_fs _ _ _ _ _ _ Hd). simpl.
    eapply json_dump_holds; eauto.
Qed.

(** ** Override precedence *)

Lemma for_items_nth {S : Type}
      (body : string -> pyval -> S -> pyval * S * status) (items : batch) :
  forall s items' s' i k v,
    for_items body items s = (items', s', Done) ->
    nth_error items i = Some (k, v) ->
    exists s1 s2 v',
      for_items body (firstn i items) s = (firstn i items', s1, Done) /\
      body k v s1 = (v', s2, Done) /\
      nth_error items' i = Some (k, v').
Proof.
  induction items as [|[k0 v0] rest IH]; intros s items' s' i k v Hrun Hi.
  - destruct i; discriminate.
  - rewrite for_items_cons in Hrun.
    destruct (body k0 v0 s) as [[v1 s1] [|e]] eqn:Eb; [|discriminate].
    destruct (for_items body rest s1) as [[rest' s2] st2] eqn:Er.
    injection Hrun as <- <- ->.
    destruct i as [|i]; simpl in Hi.
    + injection Hi as <- <-. exists s, s1, v1. simpl. auto.
    + destruct (IH _ _ _ _ _ _ Er Hi) as (sa & sb & v' & Hpre & Hb & Hn).
      exists sa, sb, v'. simpl. rewrite Eb, Hpre. auto.
Qed.

Lemma noloc_false_located (v : pyval) :
  noloc v = Ok false ->
  located v = true /\
  exists loc, coords v = Some loc /\ location_tuple v = Ok loc.
Proof.
  unfold noloc, location_tuple, located, coords, getitem.
  destruct v as [| | | |d]; try discriminate. simpl.
  destruct (dict_get "lat" d) as [a|]; [|discriminate]. simpl.
  destruct (is_none a) eqn:Ea; [discriminate|].
  destruct (dict_get "lng" d) as [b|]; [|discriminate]. simpl.
  intros [= Hb]. rewrite Hb. eauto.
Qed.

Lemma existsb_app_l {A : Type} (f : A -> bool) (l1 l2 : list A) :
  existsb f l1 = true -> existsb f (l1 ++ l2) = true.
Proof. intros H. now rewrite existsb_app, H. Qed.

Lemma dedup_body_sound (G : collaborators) (seen : batch) (k : string)
      (v v' : pyval) ulocs ulocs' (w w' : world) (st : status) :
  dedup_body G k v (ulocs, w) = (v', (ulocs', w'), st) ->
  ulocs_sound seen ulocs -> ulocs_sound (seen ++ [(k, v)]) ulocs'.
Proof.
  intros Hb Hs.
  assert (Hmono : ulocs_sound (seen ++ [(k, v)]) ulocs).
  { intros loc Hm. apply existsb_app_l. auto. }
  unfold dedup_body in Hb.
  destruct (noloc v) as [[|]|e] eqn:En;
    try (injection Hb as <- <- <- <-; exact Hmono).
  destruct (noloc_false_located v En) as [Hloc [loc [Hc Ht]]].
  rewrite Ht in Hb.
  destruct (negb (loc_hashable loc));
    try (injection Hb as <- <- <- <-; exact Hmono).
  destruct (assoc_mem loc_eqb loc ulocs) eqn:Em.
  - destruct (randomnize_location G v default_sigma w) as [[o w2] st2].
    injection Hb as <- <- <- <-. exact Hmono.
  - injection Hb as <- <- <- <-. intros loc' Hm.
    rewrite (assoc_set_absent loc_eqb _ _ _ Em), assoc_mem_snoc in Hm.
    rewrite existsb_app. apply orb_true_iff in Hm. destruct Hm as [Hm|Hm].
    + now rewrite (Hs _ Hm).
    + simpl. unfold holds_at. simpl. rewrite Hloc, Hc, Hm.
      now rewrite orb_true_r.
Qed.

Lemma dedup_prefix_sound (G : collaborators) (pre : batch) :
  forall seen ulocs w pre' ulocs' w' st,
    for_items (dedup_body G) pre (ulocs, w) = (pre', (ulocs', w'), st) ->
    ulocs_sound seen ulocs -> ulocs_sound (seen ++ pre) ulocs'.
Proof.
  induction pre as [|[k v] rest IH];
    intros seen ulocs w pre' ulocs' w' st Hrun Hs.
  - simpl in Hrun. injection Hrun as <- <- <- <-. now rewrite app_nil_r.
  - rewrite for_items_cons in Hrun.
    destruct (dedup_body G k v (ulocs, w)) as [[v1 [u1 w1]] st1] eqn:Eb.
    pose proof (dedup_body_sound _ _ _ _ _ _ _ _ _ _ Eb Hs) as Hs1.
    replace (seen ++ (k, v) :: rest) with ((seen ++ [(k, v)]) ++ rest)
      by (now rewrite <- app_assoc).
    destruct st1.
    + destruct (for_items (dedup_body G) rest (u1, w1))
        as [[rest' [u2 w2]] st2] eqn:Er.
      injection Hrun as <- <- <- <-. eapply IH; eauto.
    + injection Hrun as <- <- <- <-.
      intros loc Hm. apply existsb_app_l. auto.
Qed.

(** An entity that no earlier entity collides with leaves the
    deduplication pass as it entered it. *)
Lemma dedup_first_holder_unchanged (G : collaborators) (items items' : batch)
      (w w' : world) (i : nat) (k : string) (v : pyval) :
  dedup_locations G items w = (items', w', Done) ->
  nth_error items i = Some (k, v) ->
  collides (firstn i items) v = false ->
  nth_error items' i = Some (k, v).
Proof.
  unfold dedup_locations.
  destruct (for_items (dedup_body G) items ([], w)) as [[it [u1 w1]] st] eqn:E.
  intros [= <- <- ->] Hi Hc.
  destruct (for_items_nth _ _ _ _ _ _ _ _ E Hi)
    as ([ua wa] & [ub wb] & v' & Hpre & Hb & Hn).
  rewrite Hn. f_equal. f_equal.
  assert (Hs : ulocs_sound ([] ++ firstn i items) ua).
  { eapply dedup_prefix_sound; eauto. intros loc Hm. discriminate. }
  simpl in Hs. unfold dedup_body in Hb.
  destruct (noloc v) as [[|]|e] eqn:En; try congruence.
  destruct (noloc_false_located v En) as [Hloc [loc [Hco Ht]]].
  rewrite Ht in Hb.
  destruct (negb (loc_hashable loc)); try congruence.
  destruct (assoc_mem loc_eqb loc ua) eqn:Em; try congruence.
  apply Hs in Em. unfold collides in Hc. rewrite Hloc, Hco, Em in Hc.
  discriminate.
Qed.

Lemma dict_update_cons (d : dict) (k : string) (v : pyval) (src : dict) :
  dict_update d ((k, v) :: src) = dict_update (dict_set k v d) src.
Proof. reflexivity. Qed.

Lemma dict_get_update_absent (f : string) (src : dict) :
  forall d, ~ In f (map fst src) ->
            dict_get f (dict_update d src) = dict_get f d.
Proof.
  induction src as [|[k v] src IH]; intros d Hn; auto.
  rewrite dict_update_cons, IH by (simpl in Hn; tauto).
  apply dict_get_set_other. simpl in Hn. tauto.
Qed.

(** After [d.update(src)], every field of [src] reads as in [src]. *)
Lemma dict_get_update_bound (f : string) (x : pyval) (src : dict) :
  forall d, NoDup (map fst src) -> dict_get f src = Some x ->
            dict_get f (dict_update d src) = Some x.
Proof.
  induction src as [|[k v] src IH]; intros d Hnd Hf; [discriminate|].
  inversion Hnd as [|? ? Hk Hnd']; subst.
  rewrite dict_update_cons.
  unfold dict_get in Hf. simpl in Hf. fold dict_get in Hf.
  destruct (String.eqb f k) eqn:E.
  - apply String.eqb_eq in E. subst k. injection Hf as ->.
    rewrite dict_get_update_absent by auto. apply dict_get_set_same.
  - apply IH; auto.
Qed.

Lemma team_body_override (G : collaborators) (self : FRCGeocoder)
      (k : string) (r o : dict) (w : world) :
  assoc_get String.eqb k (teams self) = Some o ->
  team_body G self k (VDict r) w = (VDict (dict_update r o), w, Done).
Proof. intros H. unfold team_body. now rewrite H. Qed.

(** C3, as the code has it.  For a team whose identifier is in the
    override map, the resolution loop leaves the record updated with the
    override's fields, whatever the archive holds and the provider would
    answer, so that every field of the override, [lat] and [lng] included,
    reads as in the override.  When the call returns, the record is still
    that one provided no earlier team of the batch has resolved to the same
    location; otherwise the deduplication pass perturbs it. *)
Theorem override_precedence_until_dedup
        (G : collaborators) (self : FRCGeocoder) (tms : batch) (year : Z)
        (w : world) (i : nat) (k : string) (r o : dict)
        (tms' : batch) (w' : world) :
  nth_error tms i = Some (k, VDict r) ->
  assoc_get String.eqb k (teams self) = Some o ->
  NoDup (map fst o) ->
  populate_team_locations G self tms year w = (tms', w', Done) ->
  nth_error (resolved_teams G self tms w) i
  = Some (k, VDict (dict_update r o))
  /\ (forall f x, dict_get f o = Some x ->
                  dict_get f (dict_update r o) = Some x)
  /\ (collides (firstn i (resolved_teams G self tms w))
               (VDict (dict_update r o)) = false ->
      nth_error tms' i = Some (k, VDict (dict_update r o))).
Proof.
  intros Hi Ho Hnd Hrun. unfold resolved_teams.
  unfold populate_team_locations in Hrun.
  destruct (resolve_teams G self tms w) as [[t1 w1] [|e1]] eqn:Er;
    [|discriminate].
  destruct (dedup_locations G t1 w1) as [[t2 w2] [|e2]] eqn:Ed;
    [|discriminate].
  destruct (save_team_archive t2 year w2) as [w3 st3].
  injection Hrun as <- <- ->. simpl.
  destruct (for_items_nth _ _ _ _ _ _ _ _ Er Hi)
    as (sa & sb & v' & _ & Hb & Hn).
  rewrite (team_body_override G self k r o sa Ho) in Hb.
  injection Hb as <- <-.
  split; [exact Hn|]. split.
  - intros f x Hf. now apply dict_get_update_bound.
  - intros Hc. eapply dedup_first_holder_unchanged; eauto.
Qed.

(** A team with an override at the place where an earlier team already
    stands is moved by the deduplication pass: its final location is not
    the override's. *)
Lemma override_precedence_counterexample :
  let final := fst (fst (populate_team_locations
                           shifting geocoder_two_at_10_20 teams_frc1_frc2
                           2022 blank_world)) in
  assoc_mem String.eqb "frc2" (teams geocoder_two_at_10_20) = true /\
  override_respected geocoder_two_at_10_20 final "frc2" = false /\
  dict_get "frc2" final
  = Some (VDict [("key", VStr "frc2");
                 ("lat", VNum (10 + default_sigma));
                 ("lng", VNum (20 + default_sigma))]).
Proof. repeat split. Qed.

(** ** The location of a record is entire or null *)

Lemma distinct_keys_NoDup (d : dict) :
  distinct_keys d = true -> NoDup (map fst d).
Proof.
  induction d as [|[k v] d IH]; simpl; intros H; constructor.
  - apply andb_prop in H. destruct H as [H _].
    intros Hin. destruct (assoc_get_of_key string_eqb_eq k d Hin) as [x Hx].
    unfold dict_mem, assoc_mem in H. rewrite Hx in H. discriminate.
  - apply andb_prop in H. tauto.
Qed.

Lemma full_or_null_fields (d : dict) :
  full_or_null (VDict d) = true <->
  exists a b, dict_get "lat" d = Some a /\ dict_get "lng" d = Some b /\
              is_none a = is_none b.
Proof.
  unfold full_or_null, coords.
  destruct (dict_get "lat" d) as [a|]; destruct (dict_get "lng" d) as [b|];
    split; try discriminate.
  - intros H. apply eqb_prop in H. eauto.
  - intros (a' & b' & [= <-] & [= <-] & ->). apply eqb_reflx.
  - intros (a' & b' & _ & H & _). discriminate.
  - intros (a' & b' & H & _). discriminate.
  - intros (a' & b' & H & _). discriminate.
Qed.

(** Merging a location into a record gives the record that location. *)
Lemma update_location_like (r o : dict) :
  location_like o = true -> full_or_null (VDict (dict_update r o)) = true.
Proof.
  unfold location_like. intros H. apply andb_prop in H. destruct H as [Hd Hf].
  apply distinct_keys_NoDup in Hd.
  apply full_or_null_fields in Hf. destruct Hf as (a & b & Ha & Hb & Hab).
  apply full_or_null_fields. exists a, b.
  repeat split; auto; now apply dict_get_update_bound.
Qed.

Lemma forallb_In {A : Type} (f : A -> bool) (l : list A) (x : A) :
  forallb f l = true -> In x l -> f x = true.
Proof. intros H. rewrite forallb_forall in H. auto. Qed.

Lemma dict_lookup_entry (k : string) (a : pyval) (d : dict)
      (P : pyval -> bool) :
  forallb (fun ka => P (snd ka)) d = true ->
  dict_get k d = Some a -> P a = true.
Proof.
  intros H Hg. apply (assoc_get_In string_eqb_eq) in Hg.
  apply (forallb_In _ _ _ H Hg).
Qed.

Lemma py_update_entry (r : dict) (a : pyval) :
  location_entry a = true ->
  exists d, a = VDict d /\ location_like d = true /\
            py_update (VDict r) a = Ok (VDict (dict_update r d)).
Proof.
  destruct a as [| | | |d]; try discriminate. simpl.
  intros H. apply andb_prop in H. destruct H as [H _]. eauto.
Qed.

Section Sources.
Variable G : collaborators.
Variable self : FRCGeocoder.
Hypothesis Hsrc : sound_sources G self.

Lemma try_geocode_full (rec : dict) (addr : string) (w : world) :
  full_or_null (VDict (fst (try_geocode G rec addr w))) = true.
Proof.
  unfold try_geocode.
  destruct (geocode G (provider_calls w) addr) as [loc|] eqn:Eg.
  - apply (provider_ok Hsrc) in Eg.
    destruct (py_update_entry rec loc Eg) as (d & -> & Hd & Hu).
    rewrite Hu. simpl. now apply update_location_like.
  - exact (update_location_like rec UNKNOWN eq_refl).
Qed.

Lemma geolocate_with_full (rec : dict) (addr : option string) (w : world)
      (rec' : dict) (w' : world) (st : status) :
  geolocate_with G rec addr w = (rec', w', st) ->
  (st = Done \/ full_or_null (VDict rec) = true) ->
  full_or_null (VDict rec') = true.
Proof.
  unfold geolocate_with.
  destruct (dict_get "key" rec).
  - destruct addr as [a|].
    + pose proof (try_geocode_full rec a w) as Hf.
      destruct (try_geocode G rec a w) as [r1 w1].
      intros [= <- <- <-] _. exact Hf.
    + intros [= <- <- <-] _. exact (update_location_like rec UNKNOWN eq_refl).
  - intros [= <- <- <-] [H|H]; [discriminate|auto].
Qed.

Lemma team_body_full (k : string) (v v' : pyval) (w w' : world) :
  team_body G self k v w = (v', w', Done) -> full_or_null v' = true.
Proof.
  unfold team_body.
  destruct (assoc_get String.eqb k (teams self)) as [o|] eqn:Eo.
  - destruct v as [| | | |r]; try discriminate. simpl.
    intros [= <- <-]. apply update_location_like.
    apply (assoc_get_In string_eqb_eq) in Eo.
    apply (forallb_In _ _ _ (team_overrides_ok Hsrc) Eo).
  - destruct (dict_get k (team_archive self)) as [a|] eqn:Ea.
    + pose proof (dict_lookup_entry _ _ _ location_entry
                                    (team_archive_ok Hsrc) Ea) as Hent.
      destruct v as [| | | |r]; try discriminate.
      destruct (py_update_entry r a Hent) as (d & -> & Hd & Hu).
      rewrite Hu. intros [= <- <-]. now apply update_location_like.
    + destruct v as [| | | |r]; try discriminate.
      destruct (geolocate_team G r w) as [[r1 w1] st1] eqn:Eg.
      intros [= <- <- ->]. unfold geolocate_team in Eg.
      eapply geolocate_with_full; eauto.
Qed.
End Sources.

Lemma for_items_all_done {S : Type}
      (body : string -> pyval -> S -> pyval * S * status)
      (Q : pyval -> bool) :
  (forall k v s v' s', body k v s = (v', s', Done) -> Q v' = true) ->
  forall items s items' s',
    for_items body items s = (items', s', Done) ->
    forallb (fun kv => Q (snd kv)) items' = true.
Proof.
  intros Hbody. induction items as [|[k v] rest IH]; intros s items' s' Hrun.
  - simpl in Hrun. now injection Hrun as <- <-.
  - rewrite for_items_cons in Hrun.
    destruct (body k v s) as [[v1 s1] [|e]] eqn:Eb; [|discriminate].
    destruct (for_items body rest s1) as [[rest' s2] st2] eqn:Er.
    injection Hrun as <- <- ->. simpl.
    rewrite (Hbody _ _ _ _ _ Eb). simpl. eapply IH; eauto.
Qed.

Lemma for_items_all_kept {S : Type}
      (body : string -> pyval -> S -> pyval * S * status)
      (P : pyval -> bool) :
  (forall k v s v' s' st,
      body k v s = (v', s', st) -> P v = true -> P v' = true) ->
  forall items s items' s' st,
    for_items body items s = (items', s', st) ->
    forallb (fun kv => P (snd kv)) items = true ->
    forallb (fun kv => P (snd kv)) items' = true.
Proof.
  intros Hbody. induction items as [|[k v] rest IH];
    intros s items' s' st Hrun Hall.
  - simpl in Hrun. now injection Hrun as <- <- <-.
  - simpl in Hall. apply andb_prop in Hall. destruct Hall as [Hv Hall].
    rewrite for_items_cons in Hrun.
    destruct (body k v s) as [[v1 s1] st1] eqn:Eb.
    pose proof (Hbody _ _ _ _ _ _ Eb Hv) as Hv1.
    destruct st1.
    + destruct (for_items body rest s1) as [[rest' s2] st2] eqn:Er.
      injection Hrun as <- <- <-. simpl. rewrite Hv1. simpl.
      eapply IH; eauto.
    + injection Hrun as <- <- <-. simpl. now rewrite Hv1, Hall.
Qed.

Lemma as_number_not_none (v : pyval) (mu : Q) :
  as_number v = Ok mu -> is_none v = false.
Proof. destruct v; simpl; congruence. Qed.

Lemma jitter_field_full (G : collaborators) (k : string) (sigma : Q)
      (obj obj' : pyval) (w w' : world) (st : status) :
  k = "lat" \/ k = "lng" ->
  full_or_null obj = true ->
  jitter_field G k sigma obj w = (obj', w', st) ->
  full_or_null obj' = true.
Proof.
  intros Hk Hf. unfold jitter_field.
  destruct obj as [| | | |d]; try discriminate.
  unfold getitem. destruct (dict_get k d) as [v|] eqn:Ev; simpl;
    [|intros [= <- <- <-]; auto].
  destruct (as_number v) as [mu|e] eqn:En; [|intros [= <- <- <-]; auto].
  intros [= <- <- <-]. apply as_number_not_none in En.
  apply full_or_null_fields in Hf. destruct Hf as (a & b & Ha & Hb & Hab).
  apply full_or_null_fields.
  destruct Hk as [-> | ->].
  - exists (VNum (gauss G (noise_calls w) mu sigma)), b.
    rewrite dict_get_set_same, dict_get_set_other by discriminate.
    repeat split; auto. rewrite <- Hab. simpl. congruence.
  - exists a, (VNum (gauss G (noise_calls w) mu sigma)).
    rewrite dict_get_set_same, dict_get_set_other by discriminate.
    repeat split; auto. rewrite Hab. simpl. congruence.
Qed.

Lemma randomnize_location_full (G : collaborators) (sigma : Q)
      (obj obj' : pyval) (w w' : world) (st : status) :
  full_or_null obj = true ->
  randomnize_location G obj sigma w = (obj', w', st) ->
  full_or_null obj' = true.
Proof.
  intros Hf. unfold randomnize_location.
  destruct (jitter_field G "lat" sigma obj w) as [[o1 w1] st1] eqn:E1.
  apply jitter_field_full in E1; auto.
  destruct st1.
  - intros E2. apply jitter_field_full in E2; auto.
  - intros [= <- <- <-]. auto.
Qed.

Lemma dedup_body_full (G : collaborators) (k : string) (v v' : pyval)
      s s' (st : status) :
  dedup_body G k v s = (v', s', st) ->
  full_or_null v = true -> full_or_null v' = true.
Proof.
  destruct s as [u w]. unfold dedup_body. intros Hb Hf.
  destruct (noloc v) as [[|]|e]; try (injection Hb as <- <- <-; auto).
  destruct (location_tuple v) as [loc|e];
    try (injection Hb as <- <- <-; auto).
  destruct (negb (loc_hashable loc)); try (injection Hb as <- <- <-; auto).
  destruct (assoc_mem loc_eqb loc u); try (injection Hb as <- <- <-; auto).
  destruct (randomnize_location G v default_sigma w) as [[o w2] st2] eqn:Er.
  injection Hb as <- <- <-. eapply randomnize_location_full; eauto.
Qed.

Lemma full_record_ok (v : pyval) : full_or_null v = true -> record_ok v = true.
Proof. destruct v; auto. Qed.

Lemma dedup_body_record_ok (G : collaborators) (k : string) (v v' : pyval)
      s s' (st : status) :
  dedup_body G k v s = (v', s', st) ->
  record_ok v = true -> record_ok v' = true.
Proof.
  intros Hb Hr. destruct v as [| | | |d];
    try (destruct s as [u w]; unfold dedup_body in Hb; simpl in Hb;
         injection Hb as <- <- <-; reflexivity).
  apply full_record_ok. eapply dedup_body_full; eauto.
Qed.

Lemma dedup_locations_kept (G : collaborators) (P : pyval -> bool) :
  (forall k v v' s s' st,
      dedup_body G k v s = (v', s', st) -> P v = true -> P v' = true) ->
  forall items items' w w' st,
    dedup_locations G items w = (items', w', st) ->
    forallb (fun kv => P (snd kv)) items = true ->
    forallb (fun kv => P (snd kv)) items' = true.
Proof.
  intros Hbody items items' w w' st. unfold dedup_locations.
  destruct (for_items (dedup_body G) items ([], w)) as [[it s] st0] eqn:E.
  intros [= <- <- <-].
  apply (for_items_all_kept (dedup_body G) P) with (s := ([], w)) (s' := s)
                                                   (st := st0); auto.
  intros k v s1 v' s1' st1. apply Hbody.
Qed.

Lemma forallb_set_slot {A : Type} (f : A -> bool) (x : A) (l : list A) :
  forall i, forallb f l = true -> f x = true ->
            forallb f (set_slot i x l) = true.
Proof.
  induction l as [|y l IH]; intros i Hl Hx.
  - now destruct i.
  - simpl in Hl. apply andb_prop in Hl. destruct Hl as [Hy Hl].
    destruct i; simpl; [now rewrite Hx, Hl | now rewrite Hy, IH].
Qed.

Lemma forallb_dict_set (P : pyval -> bool) (k : string) (v : pyval)
      (d : dict) :
  forallb (fun kv => P (snd kv)) d = true -> P v = true ->
  forallb (fun kv => P (snd kv)) (dict_set k v d) = true.
Proof.
  induction d as [|[k' v'] d IH]; simpl; intros Hd Hv.
  - now rewrite Hv.
  - apply andb_prop in Hd. destruct Hd as [H1 H2].
    destruct (String.eqb k k'); simpl.
    + now rewrite Hv, H2.
    + rewrite H1. simpl. apply IH; auto.
Qed.

Lemma forallb_dict_update (P : pyval -> bool) (src : dict) :
  forall d,
    forallb (fun kv => P (snd kv)) d = true ->
    forallb (fun kv => P (snd kv)) src = true ->
    forallb (fun kv => P (snd kv)) (dict_update d src) = true.
Proof.
  induction src as [|[k v] src IH]; intros d Hd Hs; auto.
  simpl in Hs. apply andb_prop in Hs. destruct Hs as [Hv Hs].
  rewrite dict_update_cons. apply IH; auto.
  apply forallb_dict_set; auto.
Qed.

Lemma hashable_record_ok (v : pyval) : hashable v = true -> record_ok v = true.
Proof. destruct v; auto; discriminate. Qed.

Lemma set_ignore_full (d : dict) :
  full_or_null (VDict d) = true ->
  full_or_null (VDict (dict_set "ignore" (VBool true) d)) = true.
Proof.
  intros H. apply full_or_null_fields in H.
  destruct H as (a & b & Ha & Hb & Hab).
  apply full_or_null_fields. exists a, b.
  rewrite !dict_get_set_other by discriminate. auto.
Qed.

Section EventSources.
Variable G : collaborators.
Variable self : FRCGeocoder.
Hypothesis Hsrc : sound_sources G self.

Lemma enhance_and_geolocate_full (d : dict) (w : world) :
  full_or_null (VDict d) = true ->
  full_or_null (VDict (fst (enhance_and_geolocate G d w))) = true.
Proof.
  intros Hf. unfold enhance_and_geolocate.
  pose proof (enhance_ok Hsrc (enhance_calls w) d Hf) as He.
  destruct (enhance_event_data G (enhance_calls w) d) as [d1 raised].
  simpl in He. destruct raised; auto.
  destruct (geolocate_event G d1 (log_enhance w d)) as [[d2 w2] st2] eqn:Eg.
  simpl. unfold geolocate_event in Eg.
  destruct (make_event_address d1) as [addr|e].
  - eapply (geolocate_with_full G self Hsrc); eauto.
  - now injection Eg as <- <- <-.
Qed.

Lemma resolve_event_record_ok (i : nat) (key : string) (ev : pyval)
      (evs : batch) (w : world) :
  record_ok ev = true ->
  forallb (fun kv => record_ok (snd kv)) evs = true ->
  record_ok (fst (fst (fst (fst (resolve_event G self i key ev evs w)))))
  = true /\
  forallb (fun kv => record_ok (snd kv))
          (snd (fst (fst (fst (resolve_event G self i key ev evs w)))))
  = true.
Proof.
  intros Hev Hall. unfold resolve_event.
  destruct (dict_get key (event_archive self)) as [a|] eqn:Ea.
  - pose proof (dict_lookup_entry _ _ _ location_entry
                                  (event_archive_ok Hsrc) Ea) as Hent.
    destruct a as [| | | |a]; try discriminate. simpl.
    split; auto. apply forallb_dict_update; auto.
    simpl in Hent. apply andb_prop in Hent. destruct Hent as [_ Hh].
    rewrite forallb_forall in Hh |- *. intros x Hx.
    apply hashable_record_ok. auto.
  - destruct ev as [| | | |d]; auto.
    destruct (is_official (VDict d)); auto.
    pose proof (enhance_and_geolocate_full d w Hev) as Hf.
    destruct (enhance_and_geolocate G d w) as [d' w1]. simpl in *.
    split; auto. apply forallb_set_slot; auto.
Qed.

Lemma event_body_record_ok (i : nat) (key : string) (event : pyval)
      (evs evs' : batch) (w w' : world) (st : status) :
  record_ok event = true ->
  forallb (fun kv => record_ok (snd kv)) evs = true ->
  event_body G self i key event evs w = (evs', w', st) ->
  forallb (fun kv => record_ok (snd kv)) evs' = true.
Proof.
  intros Hev Hall. unfold event_body.
  set (ov := match assoc_get String.eqb key (events self) with
             | Some override => py_update event (VDict override)
             | None => Ok event
             end).
  assert (Hov : match ov with
                | Ok ev1 => record_ok ev1 = true
                | Raise _ => True
                end).
  { subst ov.
    destruct (assoc_get String.eqb key (events self)) as [o|] eqn:Eo; auto.
    destruct event as [| | | |r]; simpl; auto.
    apply update_location_like.
    apply (assoc_get_In string_eqb_eq) in Eo.
    apply (forallb_In _ _ _ (event_overrides_ok Hsrc) Eo). }
  destruct ov as [ev1|e]; [|now intros [= <- <- <-]].
  assert (Hall1 : forallb (fun kv => record_ok (snd kv))
                          (set_slot i (key, ev1) evs) = true).
  { apply forallb_set_slot; auto. }
  destruct (noloc ev1) as [nl|e] eqn:En; [|now intros [= <- <- <-]].
  assert (Hblk :
            let blk := if nl
                       then resolve_event G self i key ev1
                                          (set_slot i (key, ev1) evs) w
                       else (ev1, set_slot i (key, ev1) evs, true, w, Done) in
            record_ok (fst (fst (fst (fst blk)))) = true /\
            forallb (fun kv => record_ok (snd kv))
                    (snd (fst (fst (fst blk)))) = true).
  { destruct nl; simpl; auto. apply resolve_event_record_ok; auto. }
  cbv zeta in Hblk.
  destruct (if nl
            then resolve_event G self i key ev1 (set_slot i (key, ev1) evs) w
            else (ev1, set_slot i (key, ev1) evs, true, w, Done))
    as [[[[ev2 evs2] attached] w2] st2].
  simpl in Hblk. destruct Hblk as [Hev2 Hall2].
  destruct st2; [|now intros [= <- <- <-]].
  destruct (noloc ev2) as [[|]|e]; try (now intros [= <- <- <-]).
  destruct ev2 as [| | | |d2]; simpl; try (now intros [= <- <- <-]).
  intros [= <- <- <-]. destruct attached; auto.
  apply forallb_set_slot; auto. simpl. now apply set_ignore_full.
Qed.
End EventSources.

Section Invariant.
Variable G : collaborators.
Variable self : FRCGeocoder.
Hypothesis Hsrc : sound_sources G self.

Lemma event_loop_record_ok (size : nat) :
  forall todo i evs w evs' w' st,
    forallb (fun kv => record_ok (snd kv)) evs = true ->
    event_loop G self size todo i evs w = (evs', w', st) ->
    forallb (fun kv => record_ok (snd kv)) evs' = true.
Proof.
  induction todo as [|todo IH]; intros i evs w evs' w' st Hall; simpl.
  - destruct (negb (length evs =? size)); now intros [= <- <- <-].
  - destruct (negb (length evs =? size)); [now intros [= <- <- <-]|].
    destruct (nth_error evs i) as [[key event]|] eqn:Ei;
      [|now intros [= <- <- <-]].
    assert (Hev : record_ok event = true).
    { apply nth_error_In in Ei. apply (forallb_In _ _ _ Hall Ei). }
    destruct (event_body G self i key event evs w) as [[e1 w1] st1] eqn:Eb.
    pose proof (event_body_record_ok G self Hsrc _ _ _ _ _ _ _ _
                                     Hev Hall Eb) as Hall1.
    destruct st1.
    + apply IH; auto.
    + now intros [= <- <- <-].
Qed.

Lemma save_data_dicts (items : batch) :
  forall data data',
    save_data items data = Ok data' ->
    forallb (fun kv => match snd kv with VDict _ => true | _ => false end)
            items = true.
Proof.
  induction items as [|[k v] rest IH]; intros data data' Hs; auto.
  simpl in Hs |- *.
  destruct v as [| | | |d]; try discriminate. simpl.
  destruct (noloc (VDict d)) as [[|]|e]; simpl in Hs; try discriminate;
    eapply IH; eauto.
Qed.

Lemma record_ok_dicts_full (items : batch) :
  forallb (fun kv => record_ok (snd kv)) items = true ->
  forallb (fun kv => match snd kv with VDict _ => true | _ => false end)
          items = true ->
  forallb (fun kv => full_or_null (snd kv)) items = true.
Proof.
  induction items as [|[k v] rest IH]; simpl; auto.
  intros H1 H2. apply andb_prop in H1. apply andb_prop in H2.
  destruct H1 as [Hv H1], H2 as [Hd H2].
  rewrite IH by auto. destruct v; try discriminate. simpl in Hv.
  now rewrite Hv.
Qed.

(** C2, as the code has it.  When every source of locations (override
    entries, archive entries, provider answers) gives both [lat] and
    [lng], both null or both non-null, and enrichment keeps that, then:
    after [populate_team_locations] has returned, every record of the
    batch has a location that is entirely null or entirely non-null; and
    [populate_event_locations], run on records that are so, leaves every
    record so, whether it returns or raises. *)
Theorem location_entire_or_null :
  (forall tms year w tms' w',
      populate_team_locations G self tms year w = (tms', w', Done) ->
      forallb (fun kv => full_or_null (snd kv)) tms' = true)
  /\
  (forall evs w evs' w' st,
      forallb (fun kv => record_ok (snd kv)) evs = true ->
      populate_event_locations G self evs w = (evs', w', st) ->
      forallb (fun kv => record_ok (snd kv)) evs' = true /\
      (st = Done -> forallb (fun kv => full_or_null (snd kv)) evs' = true)).
Proof.
  split.
  - intros tms year w tms' w'. unfold populate_team_locations.
    destruct (resolve_teams G self tms w) as [[t1 w1] [|e1]] eqn:Er;
      [|discriminate].
    destruct (dedup_locations G t1 w1) as [[t2 w2] [|e2]] eqn:Ed;
      [|discriminate].
    destruct (save_team_archive t2 year w2) as [w3 st3].
    intros [= <- <- ->].
    apply (dedup_locations_kept G full_or_null) with (1 := dedup_body_full G)
      in Ed; auto.
    unfold resolve_teams in Er.
    apply (for_items_all_done (team_body G self) full_or_null) in Er; auto.
    intros k v s v' s'. apply (team_body_full G self Hsrc).
  - intros evs w evs' w' st Hall. unfold populate_event_locations.
    destruct (resolve_events G self evs w) as [[e1 w1] st1] eqn:Er.
    unfold resolve_events in Er.
    apply event_loop_record_ok in Er; auto.
    destruct st1; [|intros [= <- <- <-]; split; [auto|discriminate]].
    destruct (save_event_archive e1 w1) as [w2 st2] eqn:Es.
    destruct st2; [|intros [= <- <- <-]; split; [auto|discriminate]].
    intros Hd. split.
    + apply (dedup_locations_kept G record_ok)
        with (1 := dedup_body_record_ok G) in Hd; auto.
    + intros ->.
      apply (dedup_locations_kept G full_or_null)
        with (1 := dedup_body_full G) in Hd; auto.
      apply record_ok_dicts_full; auto.
      unfold save_event_archive in Es.
      destruct (save_data e1 []) as [data|e] eqn:Esd; [|discriminate].
      eapply save_data_dicts; eauto.
Qed.
End Invariant.

(** An override that gives [lat] only is merged as it is: the record ends
    with a latitude and no longitude, for a team and for an event. *)
Lemma partial_override_counterexample :
  let teams' := fst (fst (populate_team_locations
                            offline geocoder_partial_override
                            team_frc1_unlocated 2022 blank_world)) in
  let events' := fst (fst (populate_event_locations
                             offline geocoder_partial_override
                             event_2020abc blank_world)) in
  teams' = [("frc1", VDict [("key", VStr "frc1"); ("lat", VNum 10);
                            ("lng", VNone)])]
  /\ forallb (fun kv => half_filled (snd kv)) teams' = true
  /\ events' = [("2020abc", VDict [("key", VStr "2020abc");
                                   ("lat", VNum 10); ("lng", VNone);
                                   ("ignore", VBool true)])]
  /\ forallb (fun kv => half_filled (snd kv)) events' = true
  /\ snd (populate_team_locations offline geocoder_partial_override
                                  team_frc1_unlocated 2022 blank_world)
     = Done
  /\ snd (populate_event_locations offline geocoder_partial_override
                                   event_2020abc blank_world)
     = Done.
Proof. repeat split. Qed.

(** ** A provider failure stays with its entity *)

Lemma with_calls_same (w : world) : with_calls w (provider_calls w) = w.
Proof. now destruct w. Qed.

Lemma update_numeric (r o : dict) :
  numeric_location o = true -> well_located (VDict (dict_update r o)) = true.
Proof.
  unfold numeric_location. intros H. apply andb_prop in H.
  destruct H as [Hd Hw]. apply distinct_keys_NoDup in Hd.
  destruct (well_located_cases _ Hw) as [d [[= <-] Hcases]].
  unfold well_located, coords.
  destruct Hcases as [[Ha Hb]|[a [b [Ha Hb]]]];
    rewrite (dict_get_update_bound _ _ _ r Hd Ha),
            (dict_get_update_bound _ _ _ r Hd Hb); reflexivity.
Qed.

Lemma py_update_numeric (r : dict) (a : pyval) :
  numeric_entry a = true ->
  exists d, a = VDict d /\ numeric_location d = true /\
            py_update (VDict r) a = Ok (VDict (dict_update r d)).
Proof. destruct a as [| | | |d]; try discriminate. simpl. eauto. Qed.

Section TeamRun.
Variable G : collaborators.
Variable self : FRCGeocoder.
Hypothesis Hover :
  forallb (fun ko => numeric_location (snd ko)) (teams self) = true.
Hypothesis Harch :
  forallb (fun ka => numeric_entry (snd ka)) (team_archive self) = true.
Hypothesis Hprov :
  forall h addr loc, geocode G h addr = Some loc -> numeric_entry loc = true.

Lemma try_geocode_spec (rec : dict) (addr : string) (w : world) :
  snd (try_geocode G rec addr w)
  = with_calls w (provider_calls w ++ [addr])
  /\ well_located (VDict (fst (try_geocode G rec addr w))) = true
  /\ (geocode G (provider_calls w) addr = None ->
      fst (try_geocode G rec addr w) = dict_update rec UNKNOWN).
Proof.
  unfold try_geocode.
  destruct (geocode G (provider_calls w) addr) as [loc|] eqn:Eg.
  - apply Hprov in Eg.
    destruct (py_update_numeric rec loc Eg) as (d & -> & Hd & Hu).
    rewrite Hu. simpl. repeat split; [now apply update_numeric|discriminate].
  - simpl. repeat split. exact (update_numeric rec UNKNOWN eq_refl).
Qed.

Lemma team_body_total (k : string) (v : pyval) (w : world) :
  entity_record v = true ->
  team_body G self k v w
  = (fst (fst (team_body G self k v w)),
     with_calls w (provider_calls w ++ team_attempt G self (k, v)), Done)
  /\ well_located (fst (fst (team_body G self k v w))) = true.
Proof.
  destruct v as [| | | |d]; try discriminate. simpl entity_record.
  intros Hkey. unfold team_body, team_attempt, geocoded, dict_mem, assoc_mem.
  simpl fst. simpl snd. fold dict_get.
  destruct (assoc_get String.eqb k (teams self)) as [o|] eqn:Eo.
  - simpl. rewrite app_nil_r, with_calls_same. split; auto.
    apply update_numeric.
    apply (assoc_get_In string_eqb_eq) in Eo.
    apply (forallb_In _ _ _ Hover Eo).
  - destruct (dict_get k (team_archive self)) as [a|] eqn:Ea.
    + pose proof (dict_lookup_entry _ _ _ numeric_entry Harch Ea) as Hent.
      destruct (py_update_numeric d a Hent) as (da & -> & Hd & Hu).
      rewrite Hu. simpl. rewrite app_nil_r, with_calls_same. split; auto.
      now apply update_numeric.
    + simpl. unfold geolocate_team, geolocate_with.
      unfold dict_mem, assoc_mem in Hkey. fold dict_get in Hkey.
      destruct (dict_get "key" d); [|discriminate].
      destruct (make_team_address (format_value G) d) as [addr|].
      * destruct (try_geocode_spec d addr w) as (Hw & Hl & _).
        destruct (try_geocode G d addr w) as [r1 w1]. simpl in *.
        subst w1. auto.
      * simpl. rewrite app_nil_r, with_calls_same. split; auto.
        exact (update_numeric d UNKNOWN eq_refl).
Qed.

Lemma team_body_failure (k : string) (d : dict) (addr : string) (w : world) :
  geocoded self k = true ->
  dict_mem "key" d = true ->
  make_team_address (format_value G) d = Some addr ->
  geocode G (provider_calls w) addr = None ->
  fst (fst (team_body G self k (VDict d) w)) = VDict (dict_update d UNKNOWN).
Proof.
  unfold geocoded, dict_mem, assoc_mem. fold dict_get.
  intros Hg Hkey Haddr Hfail. apply andb_prop in Hg. destruct Hg as [H1 H2].
  unfold team_body.
  destruct (assoc_get String.eqb k (teams self)); [discriminate|].
  destruct (dict_get k (team_archive self)); [discriminate|].
  unfold geolocate_team, geolocate_with. rewrite Haddr.
  destruct (dict_get "key" d); [|discriminate].
  destruct (try_geocode_spec d addr w) as (_ & _ & Hf).
  destruct (try_geocode G d addr w) as [r1 w1]. simpl in *.
  now rewrite Hf.
Qed.

Lemma resolve_teams_total (tms : batch) :
  forall w,
    forallb (fun kv => entity_record (snd kv)) tms = true ->
    exists t1,
      resolve_teams G self tms w
      = (t1, with_calls w (provider_calls w ++ provider_attempts G self tms),
         Done)
      /\ map fst t1 = map fst tms
      /\ forallb (fun kv => well_located (snd kv)) t1 = true
      /\ forall i k v,
          nth_error tms i = Some (k, v) ->
          nth_error t1 i
          = Some (k, fst (fst (team_body G self k v
                                 (with_calls w
                                    (provider_calls w ++
                                     provider_attempts G self
                                       (firstn i tms)))))).
Proof.
  unfold resolve_teams.
  induction tms as [|[k0 v0] rest IH]; intros w Hrec.
  - exists []. simpl. rewrite app_nil_r, with_calls_same.
    repeat split; auto. intros [|i] k v H; discriminate.
  - simpl in Hrec. apply andb_prop in Hrec. destruct Hrec as [Hr0 Hrec].
    destruct (team_body_total k0 v0 w Hr0) as [Hb Hwl].
    set (w1 := with_calls w (provider_calls w ++ team_attempt G self (k0, v0)))
      in *.
    destruct (IH w1 Hrec) as (t1 & Hrun & Hkeys & Hall & Hnth).
    exists ((k0, fst (fst (team_body G self k0 v0 w))) :: t1).
    rewrite for_items_cons, Hb, Hrun.
    repeat split.
    + unfold w1, with_calls. simpl. now rewrite <- app_assoc.
    + simpl. now rewrite Hkeys.
    + simpl. now rewrite Hwl, Hall.
    + intros [|i] k v Hi; simpl in Hi |- *.
      * injection Hi as <- <-. now rewrite app_nil_r, with_calls_same.
      * rewrite (Hnth i k v Hi). unfold w1, with_calls. simpl.
        now rewrite <- app_assoc.
Qed.
End TeamRun.

Lemma dedup_locations_view (G : collaborators) (items : batch) (w : world) :
  forallb (fun kv => well_located (snd kv)) items = true ->
  dedup_locations G items w
  = (fst (dedup_view G [] items (noise_calls w)),
     with_noise w (noise_calls w ++ jitter_draws [] items), Done).
Proof.
  intros Hwl.
  destruct (dedup_loop_refines G w items [] [] (noise_calls w) Hwl)
    as [ulocs' Hrun].
  { intros a b. reflexivity. }
  assert (Hw : with_noise w (noise_calls w) = w) by now destruct w.
  rewrite Hw in Hrun. unfold dedup_locations. rewrite Hrun. simpl.
  now rewrite dedup_view_draws.
Qed.

Lemma jittered_well_located (G : collaborators) (h : list (Q * Q))
      (v : pyval) :
  well_located v = true -> well_located (jittered G h v) = true.
Proof.
  intros Hv. destruct (well_located_cases v Hv)
    as [d [-> [[Ha Hb]|[a [b [Ha Hb]]]]]]; unfold jittered; rewrite Ha, ?Hb;
    auto.
  unfold well_located, coords.
  rewrite dict_get_set_other, !dict_get_set_same by discriminate.
  reflexivity.
Qed.

Lemma dedup_view_well_located (G : collaborators) (items : batch) :
  forall seen h,
    forallb (fun kv => well_located (snd kv)) items = true ->
    forallb (fun kv => well_located (snd kv))
            (fst (dedup_view G seen items h)) = true.
Proof.
  induction items as [|[k v] rest IH]; intros seen h Hall; auto.
  simpl in Hall. apply andb_prop in Hall. destruct Hall as [Hv Hall].
  rewrite dedup_view_cons. cbv zeta.
  specialize (IH (seen ++ [(k, v)])
                 (if collides seen v then h ++ draws_of v else h) Hall).
  destruct (dedup_view G (seen ++ [(k, v)]) rest
                       (if collides seen v then h ++ draws_of v else h)).
  simpl in *. rewrite IH, andb_true_r.
  destruct (collides seen v); auto. now apply jittered_well_located.
Qed.

Lemma well_located_readable (items : batch) :
  forallb (fun kv => well_located (snd kv)) items = true ->
  forallb (fun kv => loc_readable (snd kv)) items = true.
Proof.
  induction items as [|[k v] rest IH]; simpl; auto.
  intros H. apply andb_prop in H. destruct H as [Hv H].
  rewrite IH by auto. rewrite andb_true_r.
  destruct (well_located_cases v Hv)
    as [d [-> [[Ha Hb]|[a [b [Ha Hb]]]]]]; unfold loc_readable, snd;
    rewrite Ha; auto.
  unfold dict_mem, assoc_mem. unfold dict_get in Hb. now rewrite Hb.
Qed.

(** C9.  On a run of [populate_team_locations] that can rely on its
    sources, the call returns and the archive of the year is written from
    the final batch; the provider is asked exactly once for each team that
    is neither overridden nor archived and has an address, in batch order,
    and never again; and a team whose single attempt fails ends with both
    [lat] and [lng] null, its other fields untouched. *)
Theorem provider_failure_is_confined
        (G : collaborators) (self : FRCGeocoder) (tms : batch) (year : Z)
        (w : world) :
  team_run_ready G self tms year w ->
  exists tms' w',
    populate_team_locations G self tms year w = (tms', w', Done)
    /\ file_holds w' (team_archive_name year) (archive_view tms')
    /\ map fst tms' = map fst tms
    /\ provider_calls w' = provider_calls w ++ provider_attempts G self tms
    /\ forall i k d addr,
        nth_error tms i = Some (k, VDict d) ->
        geocoded self k = true ->
        make_team_address (format_value G) d = Some addr ->
        geocode G (provider_calls w
                   ++ provider_attempts G self (firstn i tms)) addr = None ->
        nth_error tms' i = Some (k, VDict (dict_update d UNKNOWN))
        /\ located (VDict (dict_update d UNKNOWN)) = false.
Proof.
  intros [Hover Harch Hprov Hrec Hkeys Hfile].
  destruct (resolve_teams_total G self Hover Harch Hprov tms w Hrec)
    as (t1 & Hrun & Hk1 & Hwl1 & Hnth1).
  set (w1 := with_calls w (provider_calls w ++ provider_attempts G self tms))
    in *.
  pose proof (dedup_locations_view G t1 w1 Hwl1) as Hdd.
  set (t2 := fst (dedup_view G [] t1 (noise_calls w1))) in *.
  set (w2 := with_noise w1 (noise_calls w1 ++ jitter_draws [] t1)) in *.
  assert (Hwl2 : forallb (fun kv => well_located (snd kv)) t2 = true).
  { apply dedup_view_well_located; auto. }
  assert (Hk2 : map fst t2 = map fst tms).
  { unfold t2. now rewrite dedup_view_keys. }
  assert (Hsave : save_data t2 [] = Ok (archive_view t2)).
  { apply (save_data_view t2 []); auto.
    - now rewrite Hk2.
    - now apply well_located_readable. }
  exists t2, (with_file w2 (team_archive_name year) (archive_view t2)).
  split; [|split; [|split; [|split]]].
  - unfold populate_team_locations. rewrite Hrun, Hdd.
    unfold save_team_archive, json_dump. rewrite Hsave.
    unfold writable in Hfile. simpl fs.
    destruct (assoc_get String.eqb (team_archive_name year) (fs w))
      as [[|c]|]; try discriminate; reflexivity.
  - unfold file_holds, with_file. simpl.
    apply (assoc_get_set_same string_eqb_eq).
  - exact Hk2.
  - reflexivity.
  - intros i k d addr Hi Hg Haddr Hfail.
    assert (Hun : located (VDict (dict_update d UNKNOWN)) = false).
    { unfold located.
      rewrite (dict_get_update_bound "lat" VNone UNKNOWN d),
              (dict_get_update_bound "lng" VNone UNKNOWN d); auto;
        repeat constructor; simpl; intuition discriminate. }
    split; auto.
    pose proof (Hnth1 i k (VDict d) Hi) as Hr.
    rewrite team_body_failure with (addr := addr) in Hr; auto.
    + unfold t2. rewrite (dedup_view_nth G t1 [] _ i k _ Hr).
      unfold collides. now rewrite Hun.
    + apply nth_error_In in Hi.
      apply (forallb_In _ _ _ Hrec Hi).
Qed.

(** ** Records without coordinate fields *)

Lemma noloc_unreadable (d : dict) :
  loc_readable (VDict d) = false ->
  exists f, (f = "lat" \/ f = "lng") /\ noloc (VDict d) = Raise (KeyError f).
Proof.
  unfold loc_readable, noloc, getitem, dict_mem, assoc_mem. fold dict_get.
  destruct (dict_get "lat" d) as [a|]; simpl; [|eauto].
  destruct (is_none a); simpl; [discriminate|].
  destruct (dict_get "lng" d); simpl; [discriminate|eauto].
Qed.

Lemma try_geocode_fs (G : collaborators) (rec : dict) (addr : string)
      (w : world) :
  fs (snd (try_geocode G rec addr w)) = fs w.
Proof.
  unfold try_geocode.
  destruct (geocode G (provider_calls w) addr) as [loc|]; auto.
  destruct (py_update (VDict rec) loc) as [[| | | |r]|]; auto.
Qed.

Lemma geolocate_with_fs (G : collaborators) (rec : dict)
      (addr : option string) (w : world) :
  fs (snd (fst (geolocate_with G rec addr w))) = fs w.
Proof.
  unfold geolocate_with. destruct (dict_get "key" rec); auto.
  destruct addr as [a|]; auto.
  pose proof (try_geocode_fs G rec a w) as H.
  now destruct (try_geocode G rec a w).
Qed.

Lemma enhance_and_geolocate_fs (G : collaborators) (d : dict) (w : world) :
  fs (snd (enhance_and_geolocate G d w)) = fs w.
Proof.
  unfold enhance_and_geolocate.
  destruct (enhance_event_data G (enhance_calls w) d) as [d1 raised].
  destruct raised; auto.
  unfold geolocate_event.
  destruct (make_event_address d1) as [addr|e]; auto.
  pose proof (geolocate_with_fs G d1 addr (log_enhance w d)) as H.
  now destruct (geolocate_with G d1 addr (log_enhance w d)) as [[d2 w2] st2].
Qed.

Lemma resolve_event_fs (G : collaborators) (self : FRCGeocoder) (i : nat)
      (key : string) (ev : pyval) (evs : batch) (w : world) :
  fs (snd (fst (resolve_event G self i key ev evs w))) = fs w.
Proof.
  unfold resolve_event.
  destruct (dict_get key (event_archive self)) as [a|].
  - destruct (py_update (VDict evs) a) as [[| | | |r]|]; auto.
  - destruct ev as [| | | |d]; auto.
    destruct (is_official (VDict d)); auto.
    pose proof (enhance_and_geolocate_fs G d w) as H.
    now destruct (enhance_and_geolocate G d w).
Qed.

Lemma event_body_fs (G : collaborators) (self : FRCGeocoder) (i : nat)
      (key : string) (event : pyval) (evs evs' : batch) (w w' : world)
      (st : status) :
  event_body G self i key event evs w = (evs', w', st) -> fs w' = fs w.
Proof.
  unfold event_body.
  destruct (match assoc_get String.eqb key (events self) with
            | Some override => py_update event (VDict override)
            | None => Ok event
            end) as [ev1|e]; [|now intros [= <- <- <-]].
  destruct (noloc ev1) as [nl|e]; [|now intros [= <- <- <-]].
  assert (Hblk : fs (snd (fst
            (if nl
             then resolve_event G self i key ev1 (set_slot i (key, ev1) evs) w
             else (ev1, set_slot i (key, ev1) evs, true, w, Done))))
                 = fs w).
  { destruct nl; auto. apply resolve_event_fs. }
  destruct (if nl
            then resolve_event G self i key ev1 (set_slot i (key, ev1) evs) w
            else (ev1, set_slot i (key, ev1) evs, true, w, Done))
    as [[[[ev2 evs2] attached] w2] st2].
  simpl in Hblk.
  destruct st2; [|now intros [= <- <- <-]].
  destruct (noloc ev2) as [[|]|e]; try (now intros [= <- <- <-]).
  destruct (setitem ev2 "ignore" (VBool true)); now intros [= <- <- <-].
Qed.

Lemma nth_error_set_slot_other {A : Type} (x : A) (l : list A) :
  forall i j, i <> j -> nth_error (set_slot j x l) i = nth_error l i.
Proof.
  induction l as [|y l IH]; intros i j Hne.
  - now destruct j.
  - destruct j, i; simpl; auto; try congruence.
Qed.

Lemma nth_error_dict_set_other (k k' : string) (v v' : pyval) (d : dict) :
  forall i, k <> k' -> nth_error d i = Some (k, v) ->
            nth_error (dict_set k' v' d) i = Some (k, v).
Proof.
  induction d as [|[k0 v0] d IH]; intros i Hne Hi.
  - destruct i; discriminate.
  - unfold dict_set. simpl. fold dict_set.
    destruct i; simpl in Hi.
    + injection Hi as -> ->.
      destruct (String.eqb k' k) eqn:E; auto.
      apply String.eqb_eq in E. congruence.
    + destruct (String.eqb k' k0); simpl; auto.
Qed.

Lemma nth_error_dict_update_other (k : string) (v : pyval) (src : dict) :
  forall d i, dict_mem k src = false -> nth_error d i = Some (k, v) ->
              nth_error (dict_update d src) i = Some (k, v).
Proof.
  induction src as [|[k' v'] src IH]; intros d i Hm Hi; auto.
  rewrite dict_update_cons.
  unfold dict_mem, assoc_mem in Hm. simpl in Hm.
  destruct (String.eqb k k') eqn:E; [discriminate|].
  apply IH; auto.
  apply nth_error_dict_set_other; auto.
  intros ->. rewrite String.eqb_refl in E. discriminate.
Qed.

Section MissingField.
Variable G : collaborators.
Variable self : FRCGeocoder.
Variable k : string.
Hypothesis Havoid : archive_avoids self k = true.

Lemma resolve_event_keeps_slot (i j : nat) (key : string) (ev : pyval)
      (evs : batch) (w : world) (v : pyval) :
  i <> j ->
  nth_error evs i = Some (k, v) ->
  nth_error (snd (fst (fst (fst (resolve_event G self j key ev evs w))))) i
  = Some (k, v).
Proof.
  intros Hne Hi. unfold resolve_event.
  destruct (dict_get key (event_archive self)) as [a|] eqn:Ea.
  - pose proof (dict_lookup_entry _ _ _
                  (fun x => match x with
                            | VDict a => negb (dict_mem k a)
                            | _ => true
                            end) Havoid Ea) as Hk.
    destruct a as [| | |s|a]; simpl; auto.
    + destruct s; auto.
    + apply nth_error_dict_update_other; auto.
      now destruct (dict_mem k a).
  - destruct ev as [| | | |d]; auto.
    destruct (is_official (VDict d)); auto.
    destruct (enhance_and_geolocate G d w). simpl.
    rewrite nth_error_set_slot_other; auto.
Qed.

Lemma event_body_keeps_slot (i j : nat) (key : string) (event : pyval)
      (evs evs' : batch) (w w' : world) (st : status) (v : pyval) :
  i <> j ->
  nth_error evs i = Some (k, v) ->
  event_body G self j key event evs w = (evs', w', st) ->
  nth_error evs' i = Some (k, v).
Proof.
  intros Hne Hi. unfold event_body.
  destruct (match assoc_get String.eqb key (events self) with
            | Some override => py_update event (VDict override)
            | None => Ok event
            end) as [ev1|e]; [|now intros [= <- <- <-]].
  assert (Hi1 : nth_error (set_slot j (key, ev1) evs) i = Some (k, v)).
  { rewrite nth_error_set_slot_other; auto. }
  destruct (noloc ev1) as [nl|e]; [|now intros [= <- <- <-]].
  assert (Hblk : nth_error (snd (fst (fst (fst
            (if nl
             then resolve_event G self j key ev1 (set_slot j (key, ev1) evs) w
             else (ev1, set_slot j (key, ev1) evs, true, w, Done)))))) i
                 = Some (k, v)).
  { destruct nl; auto. apply resolve_event_keeps_slot; auto. }
  destruct (if nl
            then resolve_event G self j key ev1 (set_slot j (key, ev1) evs) w
            else (ev1, set_slot j (key, ev1) evs, true, w, Done))
    as [[[[ev2 evs2] attached] w2] st2].
  simpl in Hblk.
  destruct st2; [|now intros [= <- <- <-]].
  destruct (noloc ev2) as [[|]|e]; try (now intros [= <- <- <-]).
  destruct (setitem ev2 "ignore" (VBool true)); intros [= <- <- <-]; auto.
  destruct attached; auto. rewrite nth_error_set_slot_other; auto.
Qed.

Variable d0 : dict.
Hypothesis Hbad : loc_readable (VDict (after_override self k d0)) = false.

Lemma event_body_unreadable (i : nat) (evs : batch) (w : world) :
  exists f,
    event_body G self i k (VDict d0) evs w
    = (set_slot i (k, VDict (after_override self k d0)) evs, w,
       Failed (KeyError f)).
Proof.
  destruct (noloc_unreadable _ Hbad) as [f [_ Hf]]. exists f.
  unfold event_body. unfold after_override in *.
  destruct (assoc_get String.eqb k (events self)) as [o|]; simpl;
    now rewrite Hf.
Qed.

Lemma event_loop_stops (size i : nat) :
  forall todo j evs w,
    j <= i -> i < j + todo ->
    nth_error evs i = Some (k, VDict d0) ->
    exists evs' w' e,
      event_loop G self size todo j evs w = (evs', w', Failed e) /\
      fs w' = fs w.
Proof.
  induction todo as [|todo IH]; intros j evs w Hji Hlt Hi; [lia|].
  simpl. destruct (negb (length evs =? size)); [eauto|].
  destruct (Nat.eq_dec j i) as [->|Hne].
  - rewrite Hi. destruct (event_body_unreadable i evs w) as [f Hf].
    rewrite Hf. eauto.
  - destruct (nth_error evs j) as [[kj vj]|] eqn:Ej.
    + destruct (event_body G self j kj vj evs w) as [[e1 w1] st1] eqn:Eb.
      pose proof (event_body_fs _ _ _ _ _ _ _ _ _ _ Eb) as Hfs.
      destruct st1; [|eauto].
      assert (Hi1 : nth_error e1 i = Some (k, VDict d0)).
      { apply (event_body_keeps_slot i j kj vj evs e1 w w1 Done);
          auto. }
      destruct (IH (S j) e1 w1 ltac:(lia) ltac:(lia) Hi1)
        as (evs' & w' & e & Hrun & Hfs').
      exists evs', w', e. split; auto. congruence.
    + exfalso. apply nth_error_None in Ej.
      assert (i < length evs) by (apply nth_error_Some; congruence). lia.
Qed.
End MissingField.

Lemma dedup_loop_unreadable (G : collaborators) (k : string) (d : dict)
      (post : batch) :
  loc_readable (VDict d) = false ->
  forall pre s,
  exists pre' s' e,
    for_items (dedup_body G) (pre ++ (k, VDict d) :: post) s
    = (pre' ++ (k, VDict d) :: post, s', Failed e)
    /\ fs (snd s') = fs (snd s).
Proof.
  intros Hbad. destruct (noloc_unreadable _ Hbad) as [f [_ Hf]].
  induction pre as [|[k0 v0] pre IH]; intros s.
  - exists [], s, (KeyError f). simpl.
    destruct s as [u w]. unfold dedup_body. rewrite Hf. auto.
  - simpl app. rewrite for_items_cons.
    destruct (dedup_body G k0 v0 s) as [[v1 s1] st1] eqn:Eb.
    assert (Hfs : fs (snd s1) = fs (snd s)).
    { apply (for_items_preserves (dedup_body G)
               (fun x => fs (snd x) = fs (snd s)) ) with
        (items := [(k0, v0)]) (s := s) (items' := [(k0, v1)]) (st := st1);
        auto.
      - clear. intros k v [u w1] v' [u' w1'] st Hb Hs. simpl in *.
        unfold dedup_body in Hb.
        destruct (noloc v) as [[|]|e];
          try (injection Hb as <- <- <- <-; auto).
        destruct (location_tuple v) as [loc|e];
          try (injection Hb as <- <- <- <-; auto).
        destruct (negb (loc_hashable loc));
          try (injection Hb as <- <- <- <-; auto).
        destruct (assoc_mem loc_eqb loc u);
          try (injection Hb as <- <- <- <-; auto).
        destruct (randomnize_location G v default_sigma w1)
          as [[o w2] st2] eqn:Er.
        injection Hb as <- <- <- <-.
        apply randomnize_location_fs in Er. congruence.
      - rewrite for_items_cons, Eb. now destruct st1. }
    destruct st1.
    + destruct (IH s1) as (pre' & s' & e & Hrun & Hfs').
      rewrite Hrun. exists ((k0, v1) :: pre'), s', e. split; auto.
      congruence.
    + exists ((k0, v1) :: pre), s1, e. split; auto.
Qed.

Lemma save_data_unreadable (k : string) (d : dict) (post : batch) :
  loc_readable (VDict d) = false ->
  forall pre data,
  exists e, save_data (pre ++ (k, VDict d) :: post) data = Raise e.
Proof.
  intros Hbad. destruct (noloc_unreadable _ Hbad) as [f [_ Hf]].
  induction pre as [|[k0 v0] pre IH]; intros data.
  - exists (KeyError f). simpl. unfold bind. now rewrite Hf.
  - simpl. destruct (noloc v0) as [[|]|e]; simpl; eauto.
    destruct v0; eauto.
Qed.

(** C10, as the code has it.  The no-location check reads [lat], and reads
    [lng] only when [lat] is not null.  A record without [lat], or with a
    non-null [lat] and without [lng], makes the check raise [KeyError];
    then [populate_event_locations] (where the record is so after the
    override step) raises without writing the archive, with that
    [KeyError] and no other record touched when the record comes first;
    the deduplication pass raises and leaves that record and the later
    ones as they were; and neither archive is written. *)
Theorem missing_coordinate_aborts
        (G : collaborators) (self : FRCGeocoder) (pre post : batch)
        (k : string) (d : dict) (year : Z) (w : world) :
  loc_readable (VDict d) = false ->
  (exists f, (f = "lat" \/ f = "lng") /\
             noloc (VDict d) = Raise (KeyError f))
  /\ (forall d0,
         after_override self k d0 = d -> archive_avoids self k = true ->
         exists evs' w' e,
           populate_event_locations G self (pre ++ (k, VDict d0) :: post) w
           = (evs', w', Failed e) /\ fs w' = fs w)
  /\ (forall d0,
         after_override self k d0 = d ->
         exists f,
           populate_event_locations G self ((k, VDict d0) :: post) w
           = ((k, VDict d) :: post, w, Failed (KeyError f)))
  /\ (exists pre' w' e,
         dedup_locations G (pre ++ (k, VDict d) :: post) w
         = (pre' ++ (k, VDict d) :: post, w', Failed e) /\ fs w' = fs w)
  /\ (exists e1 e2,
         save_team_archive (pre ++ (k, VDict d) :: post) year w
         = (w, Failed e1) /\
         save_event_archive (pre ++ (k, VDict d) :: post) w
         = (w, Failed e2)).
Proof.
  intros Hbad. split; [now apply noloc_unreadable|]. split; [|split; [|split]].
  - intros d0 Hd0 Havoid. rewrite <- Hd0 in Hbad.
    unfold populate_event_locations, resolve_events.
    set (evs := pre ++ (k, VDict d0) :: post).
    destruct (event_loop_stops G self k Havoid d0 Hbad (length evs)
                               (length pre) (length evs) 0 evs w)
      as (evs' & w' & e & Hrun & Hfs).
    + lia.
    + unfold evs. rewrite length_app. simpl. lia.
    + unfold evs. rewrite nth_error_app2 by lia.
      now rewrite Nat.sub_diag.
    + rewrite Hrun. eauto.
  - intros d0 Hd0. rewrite <- Hd0 in Hbad.
    destruct (event_body_unreadable G self k d0 Hbad 0
                                    ((k, VDict d0) :: post) w) as [f Hf].
    exists f. unfold populate_event_locations, resolve_events.
    simpl length. simpl event_loop. rewrite Nat.eqb_refl. simpl negb.
    cbv iota. rewrite Hf. simpl. now rewrite Hd0.
  - unfold dedup_locations.
    destruct (dedup_loop_unreadable G k d post Hbad pre ([], w))
      as (pre' & s' & e & Hrun & Hfs).
    rewrite Hrun. exists pre', (snd s'), e. auto.
  - destruct (save_data_unreadable k d post Hbad pre []) as [e He].
    exists e, e. unfold save_team_archive, save_event_archive.
    now rewrite He.
Qed.

(** A record with a null [lat] and no [lng] field does not make the call
    raise: the event is marked [ignore], the located event of the batch is
    processed and archived, and the call returns. *)
Lemma missing_lng_counterexample :
  dict_mem "lng" [("key", VStr "2020abc"); ("lat", VNone)] = false /\
  populate_event_locations offline geocoder_empty events_without_lng
                           blank_world
  = ([("2020abc", VDict [("key", VStr "2020abc"); ("lat", VNone);
                         ("ignore", VBool true)]);
      ("2020xyz", VDict [("key", VStr "2020xyz"); ("lat", VNum 1);
                         ("lng", VNum 2)])],
     with_file blank_world event_archive_name
               [("2020xyz", VDict [("lat", VNum 1); ("lng", VNum 2)])],
     Done).
Proof. split; reflexivity. Qed.

(** ** The statements at concrete inputs *)

Ltac distinct := repeat constructor; simpl; intuition discriminate.

Lemma save_archives_write_located_witness :
  save_team_archive teams_mixed 2022 blank_world
  = (with_file blank_world "all_team_locations_2022.json"
               [("frc1", VDict [("lat", VNum 10); ("lng", VNum 20)])],
     Done)
  /\ save_event_archive teams_mixed blank_world
     = (with_file blank_world "all_event_locations.json"
                  [("frc1", VDict [("lat", VNum 10); ("lng", VNum 20)])],
        Done).
Proof.
  assert (Hnd : NoDup (map fst teams_mixed)) by distinct.
  pose proof (save_archives_write_located teams_mixed 2022 blank_world Hnd
                eq_refl eq_refl eq_refl) as H.
  split; [exact (proj1 H) | exact (proj1 (proj2 H))].
Defined.

Lemma dedup_perturbs_later_holders_witness :
  exists items',
    dedup_locations shifting teams_colliding blank_world
    = (items',
       with_noise blank_world
         [(10%Q, default_sigma); (20%Q, default_sigma);
          ((20 # 2)%Q, default_sigma); ((40 # 2)%Q, default_sigma)],
       Done)
    /\ nth_error items' 0
       = Some ("frc1", VDict [("lat", VNum 10); ("lng", VNum 20)])
    /\ nth_error items' 1
       = Some ("frc2", VDict [("lat", VNone); ("lng", VNone)])
    /\ nth_error items' 2
       = Some ("frc3", VDict [("name", VStr "C");
                              ("lat", VNum (10 + default_sigma));
                              ("lng", VNum (20 + default_sigma))]).
Proof.
  destruct (dedup_perturbs_later_holders shifting teams_colliding
                                         blank_world eq_refl)
    as (items' & Hrun & _ & Hnth & _).
  exists items'. split; [exact Hrun|].
  split; [exact (Hnth 0 _ _ eq_refl)|].
  split; [exact (Hnth 1 _ _ eq_refl)|exact (Hnth 2 _ _ eq_refl)].
Defined.

(** Two teams and two events at the same place: the team archive holds the
    perturbed coordinates of the second team, the event archive holds the
    coordinates of the second event as they were before the pass moved
    it. *)
Lemma archive_order_differs_witness :
  (exists tms' w',
      populate_team_locations shifting geocoder_two_at_10_20 teams_frc1_frc2
                              2022 blank_world = (tms', w', Done) /\
      dict_get "frc2" tms'
      = Some (VDict [("key", VStr "frc2"); ("lat", VNum (10 + default_sigma));
                     ("lng", VNum (20 + default_sigma))]) /\
      exists data,
        file_holds w' (team_archive_name 2022) data /\
        dict_get "frc2" data
        = Some (VDict [("lat", VNum (10 + default_sigma));
                       ("lng", VNum (20 + default_sigma))]))
  /\
  (exists evs' w',
      populate_event_locations shifting geocoder_events_at_10_20
                               events_abc_xyz blank_world = (evs', w', Done) /\
      dict_get "2020xyz" evs'
      = Some (VDict [("key", VStr "2020xyz");
                     ("lat", VNum (10 + default_sigma));
                     ("lng", VNum (20 + default_sigma))]) /\
      exists data,
        file_holds w' event_archive_name data /\
        dict_get "2020xyz" data
        = Some (VDict [("lat", VNum 10); ("lng", VNum 20)])).
Proof.
  split.
  - destruct (proj1 (archive_order_differs shifting geocoder_two_at_10_20
                                           blank_world)
                    teams_frc1_frc2 2022%Z _ _ eq_refl)
      as (resolved & w1 & w2 & data & _ & _ & Hsave & Hfile).
    do 2 eexists. split; [reflexivity|]. split; [reflexivity|].
    exists data. split; [exact Hfile|].
    injection Hsave as <-. reflexivity.
  - destruct (proj2 (archive_order_differs shifting geocoder_events_at_10_20
                                           blank_world)
                    events_abc_xyz _ _ eq_refl)
      as (resolved & w1 & w2 & data & Hres & Hsave & _ & _ & Hfile).
    do 2 eexists. split; [reflexivity|]. split; [reflexivity|].
    exists data. split; [exact Hfile|].
    injection Hres as <- _. injection Hsave as <-. reflexivity.
Defined.

Lemma override_precedence_until_dedup_witness :
  let final := fst (fst (populate_team_locations
                           shifting geocoder_two_at_10_20 teams_frc2_frc1
                           2022 blank_world)) in
  nth_error final 0
  = Some ("frc2", VDict [("key", VStr "frc2"); ("lat", VNum 10);
                         ("lng", VNum 20)])
  /\ override_respected geocoder_two_at_10_20 final "frc2" = true.
Proof.
  assert (Hnd : NoDup (map fst [("lat", VNum 10); ("lng", VNum 20)]))
    by distinct.
  pose proof (override_precedence_until_dedup
                shifting geocoder_two_at_10_20 teams_frc2_frc1 2022
                blank_world 0 "frc2" [("key", VStr "frc2")]
                [("lat", VNum 10); ("lng", VNum 20)] _ _
                eq_refl eq_refl Hnd eq_refl) as (_ & _ & H).
  split; [exact (H eq_refl) | reflexivity].
Defined.

Lemma answering_once_numeric (h : list string) (addr : string) (loc : pyval) :
  geocode answering_once h addr = Some loc -> numeric_entry loc = true.
Proof. destruct h; simpl; [intros [= <-]; reflexivity | discriminate]. Defined.

Lemma answering_once_sound :
  sound_sources answering_once geocoder_two_at_10_20.
Proof.
  constructor; try reflexivity.
  - intros h addr loc.
    destruct h; simpl; [intros [= <-]; reflexivity | discriminate].
  - intros h d H. exact H.
Defined.

Lemma location_entire_or_null_witness :
  forallb (fun kv => full_or_null (snd kv))
          (fst (fst (populate_team_locations
                       answering_once geocoder_two_at_10_20 teams_to_geocode
                       2022 blank_world))) = true
  /\ forallb (fun kv => full_or_null (snd kv))
          (fst (fst (populate_event_locations
                       answering_once geocoder_two_at_10_20 events_abc_xyz
                       blank_world))) = true.
Proof.
  pose proof (location_entire_or_null answering_once geocoder_two_at_10_20
                                      answering_once_sound) as [Ht He].
  split.
  - exact (Ht teams_to_geocode 2022%Z blank_world _ _ eq_refl).
  - exact (proj2 (He events_abc_xyz blank_world _ _ Done eq_refl eq_refl)
                 eq_refl).
Defined.

Lemma teams_to_geocode_ready :
  team_run_ready answering_once geocoder_empty teams_to_geocode 2022
                 blank_world.
Proof.
  constructor; try reflexivity.
  - exact answering_once_numeric.
  - distinct.
Defined.

Lemma provider_failure_is_confined_witness :
  exists tms' w',
    populate_team_locations answering_once geocoder_empty teams_to_geocode
                            2022 blank_world = (tms', w', Done)
    /\ provider_calls w' = ["Paris"; "Lyon"; "Nice"]
    /\ nth_error tms' 1
       = Some ("frc2", VDict [("key", VStr "frc2"); ("city", VStr "Lyon");
                              ("lat", VNone); ("lng", VNone)])
    /\ file_holds w' "all_team_locations_2022.json"
                  [("frc1", VDict [("lat", VNum 30); ("lng", VNum 40)])].
Proof.
  destruct (provider_failure_is_confined
              answering_once geocoder_empty teams_to_geocode 2022 blank_world
              teams_to_geocode_ready)
    as (tms' & w' & Hrun & Hfile & _ & Hcalls & Hfail).
  exists tms', w'. split; [exact Hrun|]. split; [exact Hcalls|].
  split.
  - exact (proj1 (Hfail 1 "frc2" _ "Lyon" eq_refl eq_refl eq_refl eq_refl)).
  - injection Hrun as <- <-. exact Hfile.
Defined.

Lemma missing_coordinate_aborts_witness :
  exists f,
    populate_event_locations offline geocoder_empty events_without_lat
                             blank_world
    = (events_without_lat, blank_world, Failed (KeyError f)).
Proof.
  exact (proj1 (proj2 (proj2
           (missing_coordinate_aborts
              offline geocoder_empty []
              [("2020xyz", VDict [("key", VStr "2020xyz"); ("lat", VNum 1);
                                  ("lng", VNum 2)])]
              "2020abc" [("key", VStr "2020abc")] 2022 blank_world
              eq_refl)))
         [("key", VStr "2020abc")] eq_refl).
Defined.

(* ===================================================================== *)
(** * Further properties *)
(* ===================================================================== *)

(** ** Splitting, joining and stripping *)

Lemma append_empty_r (s : string) : (s ++ "")%string = s.
Proof. induction s as [|c s IH]; simpl; congruence. Qed.

Lemma append_assoc (a b c : string) :
  ((a ++ b) ++ c)%string = (a ++ (b ++ c))%string.
Proof. induction a as [|x a IH]; simpl; congruence. Qed.

Lemma is_empty_app (a b : string) :
  PyStr.is_empty (a ++ b) = PyStr.is_empty a && PyStr.is_empty b.
Proof. now destruct a. Qed.

Lemma no_space_app (a b : string) :
  no_space (a ++ b) = no_space a && no_space b.
Proof.
  induction a as [|c a IH]; simpl; auto. now rewrite IH, andb_assoc.
Qed.

Lemma all_space_app (a b : string) :
  all_space (a ++ b) = all_space a && all_space b.
Proof.
  induction a as [|c a IH]; simpl; auto. now rewrite IH, andb_assoc.
Qed.

(** [split] returns words. *)
Lemma split_from_words (s : string) :
  forall w, PyStr.is_empty w = true \/ is_word w = true ->
            forallb is_word (PyStr.split_from w s) = true.
Proof.
  induction s as [|c s IH]; intros w Hw; simpl.
  - destruct (PyStr.is_empty w) eqn:E; simpl; auto.
    destruct Hw as [Hw|Hw]; [discriminate|now rewrite Hw].
  - destruct (PyStr.isspace c) eqn:Ec.
    + destruct (PyStr.is_empty w) eqn:E.
      * apply IH. now left.
      * simpl. destruct Hw as [Hw|Hw]; [discriminate|].
        rewrite Hw. apply IH. now left.
    + apply IH. right. unfold is_word.
      rewrite is_empty_app, no_space_app. simpl. rewrite Ec. simpl.
      rewrite andb_false_r. simpl.
      destruct Hw as [Hw|Hw].
      * destruct w; [reflexivity|discriminate].
      * unfold is_word in Hw. apply andb_prop in Hw. now rewrite (proj2 Hw).
Qed.

(** [split] returns nothing exactly on blank text. *)
Lemma split_from_nil (s : string) :
  forall w, PyStr.split_from w s = [] <->
            PyStr.is_empty w = true /\ all_space s = true.
Proof.
  induction s as [|c s IH]; intros w; simpl.
  - destruct (PyStr.is_empty w); split; try tauto; try discriminate.
    intros [H _]. discriminate.
  - destruct (PyStr.isspace c) eqn:Ec; simpl.
    + destruct (PyStr.is_empty w) eqn:E.
      * rewrite IH. simpl. tauto.
      * split; [discriminate|]. intros [H _]. discriminate.
    + rewrite IH, is_empty_app. simpl. rewrite andb_false_r.
      split; intros [H1 H2]; discriminate.
Qed.

(** A run without white space is read into the current word. *)
Lemma split_from_no_space (u : string) :
  forall w s, no_space u = true ->
              PyStr.split_from w (u ++ s) = PyStr.split_from (w ++ u) s.
Proof.
  induction u as [|c u IH]; intros w s Hu; simpl.
  - now rewrite append_empty_r.
  - simpl in Hu. apply andb_prop in Hu. destruct Hu as [Hc Hu].
    destruct (PyStr.isspace c); [discriminate|].
    rewrite IH by auto. now rewrite append_assoc.
Qed.

Lemma isspace_space : PyStr.isspace " " = true.
Proof. reflexivity. Qed.

(** Splitting the join of words gives the words back. *)
Lemma split_join_words (l : list string) :
  forallb is_word l = true -> PyStr.split (PyStr.join " " l) = l.
Proof.
  unfold PyStr.split, PyStr.join.
  induction l as [|w l IH]; intros Hl; auto.
  simpl in Hl. apply andb_prop in Hl. destruct Hl as [Hw Hl].
  unfold is_word in Hw. apply andb_prop in Hw. destruct Hw as [Hne Hns].
  destruct l as [|w' l].
  - simpl. rewrite <- (append_empty_r w) at 1.
    rewrite split_from_no_space by auto. simpl.
    now destruct w.
  - change (String.concat " " (w :: w' :: l))
      with (w ++ String " " (String.concat " " (w' :: l)))%string.
    rewrite split_from_no_space by auto. simpl PyStr.split_from.
    destruct w; [discriminate|]. simpl. f_equal. now apply IH.
Qed.

Lemma join_words_empty (l : list string) :
  forallb is_word l = true ->
  PyStr.is_empty (PyStr.join " " l) = true -> l = [].
Proof.
  destruct l as [|w l]; auto. simpl. intros Hl.
  apply andb_prop in Hl. destruct Hl as [Hw _].
  unfold is_word in Hw. apply andb_prop in Hw. destruct Hw as [Hne _].
  destruct w; [discriminate|]. unfold PyStr.join. simpl.
  destruct l; discriminate.
Qed.

Lemma lstrip_clean (s : string) :
  starts_clean s = true -> PyStr.lstrip s = s.
Proof.
  destruct s as [|c s]; simpl; auto.
  now destruct (PyStr.isspace c).
Qed.

Lemma lstrip_starts_clean (s : string) : starts_clean (PyStr.lstrip s) = true.
Proof.
  induction s as [|c s IH]; simpl; auto.
  destruct (PyStr.isspace c) eqn:E; auto. simpl. now rewrite E.
Qed.

Lemma rstrip_starts_clean (s : string) :
  starts_clean s = true -> starts_clean (PyStr.rstrip s) = true.
Proof.
  destruct s as [|c s]; simpl; auto.
  destruct (PyStr.isspace c) eqn:E; [discriminate|]. simpl. now rewrite E.
Qed.

Lemma rstrip_idem (s : string) :
  PyStr.rstrip (PyStr.rstrip s) = PyStr.rstrip s.
Proof.
  induction s as [|c s IH]; simpl; auto.
  destruct (PyStr.isspace c && PyStr.is_empty (PyStr.rstrip s)) eqn:E; auto.
  simpl. now rewrite IH, E.
Qed.

(** [strip] leaves nothing to strip. *)
Lemma strip_trimmed (s : string) :
  PyStr.lstrip (PyStr.strip s) = PyStr.strip s /\
  PyStr.rstrip (PyStr.strip s) = PyStr.strip s.
Proof.
  unfold PyStr.strip. split.
  - apply lstrip_clean, rstrip_starts_clean, lstrip_starts_clean.
  - apply rstrip_idem.
Qed.

Lemma rstrip_no_space (w : string) :
  no_space w = true -> PyStr.rstrip w = w.
Proof.
  induction w as [|c w IH]; simpl; auto.
  intros H. apply andb_prop in H. destruct H as [Hc Hw].
  rewrite IH by auto. now destruct (PyStr.isspace c).
Qed.

Lemma rstrip_app (u t : string) :
  PyStr.rstrip t = t -> PyStr.is_empty t = false ->
  PyStr.rstrip (u ++ t) = (u ++ t)%string.
Proof.
  intros Ht Hne. induction u as [|c u IH]; simpl; auto.
  rewrite IH, is_empty_app, Hne. now rewrite !andb_false_r.
Qed.

(** The join of words has clean ends and no repeated space. *)
Lemma join_words_trimmed (l : list string) :
  forallb is_word l = true ->
  starts_clean (PyStr.join " " l) = true /\
  PyStr.rstrip (PyStr.join " " l) = PyStr.join " " l /\
  PyStr.has_double_space (PyStr.join " " l) = false.
Proof.
  unfold PyStr.join.
  induction l as [|w l IH]; intros Hl; [repeat split|].
  simpl in Hl. apply andb_prop in Hl. destruct Hl as [Hw Hl].
  unfold is_word in Hw. apply andb_prop in Hw. destruct Hw as [Hne Hns].
  destruct l as [|w' l].
  - simpl. repeat split.
    + destruct w; [discriminate|]. simpl in *.
      apply andb_prop in Hns. tauto.
    + now apply rstrip_no_space.
    + clear Hne. induction w as [|c w IHw]; auto.
      simpl in Hns. apply andb_prop in Hns. destruct Hns as [Hc Hns].
      destruct w as [|c' w]; auto.
      change (PyStr.has_double_space (String c (String c' w)))
        with ((Ascii.eqb c " " && Ascii.eqb c' " ")
              || PyStr.has_double_space (String c' w)).
      rewrite IHw by auto.
      destruct (Ascii.eqb c " ") eqn:E; auto.
      apply Ascii.eqb_eq in E. subst c. discriminate.
  - destruct (IH Hl) as (Hs & Hr & Hd).
    change (String.concat " " (w :: w' :: l))
      with (w ++ String " " (String.concat " " (w' :: l)))%string.
    set (rest := String.concat " " (w' :: l)) in *.
    assert (Hrne : PyStr.is_empty rest = false).
    { destruct (PyStr.is_empty rest) eqn:E; auto.
      apply (join_words_empty (w' :: l) Hl) in E. discriminate. }
    repeat split.
    + destruct w; [discriminate|]. simpl in *.
      apply andb_prop in Hns. tauto.
    + apply rstrip_app.
      * simpl. rewrite Hr, Hrne. reflexivity.
      * reflexivity.
    + clear Hne. induction w as [|c w IHw].
      * simpl. destruct rest as [|c' rest']; [discriminate|].
        simpl in Hs.
        change (PyStr.has_double_space (String " " (String c' rest')))
          with ((Ascii.eqb " " " " && Ascii.eqb c' " ")
                || PyStr.has_double_space (String c' rest')).
        rewrite Hd, orb_false_r. simpl.
        destruct (Ascii.eqb c' " ") eqn:E; auto.
        apply Ascii.eqb_eq in E. subst c'. discriminate.
      * simpl in Hns. apply andb_prop in Hns. destruct Hns as [Hc Hns].
        specialize (IHw Hns).
        destruct w as [|c' w]; simpl in *.
        -- rewrite IHw, orb_false_r.
           destruct (Ascii.eqb c " ") eqn:E; auto.
           apply Ascii.eqb_eq in E. subst c. discriminate.
        -- rewrite IHw, orb_false_r.
           destruct (Ascii.eqb c " ") eqn:E; auto.
           apply Ascii.eqb_eq in E. subst c. discriminate.
Qed.

(** ** Address synthesis, further *)

(** X1.  An address made by [make_team_address] is not empty, has no white
    space at its ends and no two adjacent spaces, and is its own normal
    form: splitting it on white space and joining with single spaces gives
    it back. *)
Theorem make_team_address_normal
        (fmt : pyval -> string) (data : dict) (addr : string) :
  make_team_address fmt data = Some addr ->
  PyStr.is_empty addr = false
  /\ PyStr.strip addr = addr
  /\ PyStr.has_double_space addr = false
  /\ PyStr.join " " (PyStr.split addr) = addr.
Proof.
  unfold make_team_address.
  set (s := (fstr fmt (read data "school_name") ++ " " ++
             fstr fmt (read data "city") ++ " " ++
             fstr fmt (read data "state_prov") ++ " " ++
             fstr fmt (read data "postal_code") ++ " " ++
             fstr fmt (read data "country"))%string).
  assert (Hw : forallb is_word (PyStr.split s) = true).
  { apply split_from_words. now left. }
  destruct (PyStr.is_empty (PyStr.join " " (PyStr.split s))) eqn:E;
    [discriminate|].
  intros [= <-].
  destruct (join_words_trimmed _ Hw) as (Hs & Hr & Hd).
  repeat split; auto.
  - unfold PyStr.strip. now rewrite (lstrip_clean _ Hs).
  - now rewrite split_join_words.
Qed.

Lemma make_team_address_normal_witness :
  make_team_address (fun _ => "") ragged_team = Some "Lycee Jean Moulin France"
  /\ PyStr.strip "Lycee Jean Moulin France" = "Lycee Jean Moulin France"
  /\ PyStr.has_double_space "Lycee Jean Moulin France" = false.
Proof.
  pose proof (make_team_address_normal (fun _ => "") ragged_team
                "Lycee Jean Moulin France" eq_refl) as (_ & H1 & H2 & _).
  split; [reflexivity|]. split; [exact H1 | exact H2].
Defined.

(** X2.  [make_team_address] returns [None] exactly when each of its five
    fields, as the f-string renders it, is empty or white space only. *)
Theorem make_team_address_none (fmt : pyval -> string) (data : dict) :
  make_team_address fmt data = None <->
  forallb (fun k => all_space (fstr fmt (read data k))) team_address_fields
  = true.
Proof.
  unfold make_team_address, team_address_fields.
  set (s := (fstr fmt (read data "school_name") ++ " " ++
             fstr fmt (read data "city") ++ " " ++
             fstr fmt (read data "state_prov") ++ " " ++
             fstr fmt (read data "postal_code") ++ " " ++
             fstr fmt (read data "country"))%string).
  assert (Hw : forallb is_word (PyStr.split s) = true).
  { apply split_from_words. now left. }
  assert (Hs : all_space s
               = forallb (fun k => all_space (fstr fmt (read data k)))
                         ["school_name"; "city"; "state_prov"; "postal_code";
                          "country"]).
  { unfold s. rewrite !all_space_app. simpl.
    now rewrite !andb_true_r, !andb_assoc. }
  rewrite <- Hs.
  destruct (PyStr.is_empty (PyStr.join " " (PyStr.split s))) eqn:E.
  - apply (join_words_empty _ Hw) in E.
    apply split_from_nil in E. split; auto. tauto.
  - split; [discriminate|]. intros Hall.
    assert (Hnil : PyStr.split s = []).
    { apply split_from_nil. auto. }
    rewrite Hnil in E. discriminate.
Qed.

Lemma make_team_address_none_witness :
  make_team_address (fun _ => "") blank_team = None.
Proof. apply (proj2 (make_team_address_none _ blank_team)). reflexivity. Defined.

Lemma as_strs_spec (l : list pyval) :
  if forallb is_str l
  then exists strs, as_strs l = Ok strs
  else as_strs l = Raise TypeError.
Proof.
  induction l as [|v l IH]; simpl; eauto.
  destruct v; simpl; auto.
  destruct (forallb is_str l).
  - destruct IH as [strs ->]. simpl. eauto.
  - now rewrite IH.
Qed.

Lemma textual_read (data : dict) (k : string) :
  textual data k = is_str (read data k).
Proof.
  unfold textual, read, notNone.
  destruct (dict_get k data) as [[| | | |]|]; reflexivity.
Qed.

(** X3.  [make_event_address] raises, and then [TypeError], exactly when
    one of its six fields is bound to a value that is neither [None] nor a
    string; otherwise it returns [None] or an address that is not empty and
    has no white space at its ends. *)
Theorem make_event_address_outcome (data : dict) :
  if forallb (textual data) event_address_fields
  then exists r,
      make_event_address data = Ok r /\
      match r with
      | None => True
      | Some addr => PyStr.is_empty addr = false /\ PyStr.strip addr = addr
      end
  else make_event_address data = Raise TypeError.
Proof.
  unfold make_event_address, event_address_fields.
  pose proof (as_strs_spec
                [read data "venue"; read data "address"; read data "city";
                 read data "state_prov"; read data "postal_code";
                 read data "country"]) as H.
  simpl forallb in *. rewrite !textual_read.
  destruct (is_str (read data "venue") && (is_str (read data "address") &&
            (is_str (read data "city") && (is_str (read data "state_prov") &&
            (is_str (read data "postal_code") &&
            (is_str (read data "country") && true)))))).
  - destruct H as [strs ->]. simpl.
    eexists. split; [reflexivity|].
    destruct (PyStr.is_empty (PyStr.strip (PyStr.join " " strs))) eqn:E; auto.
    split; auto.
    destruct (strip_trimmed (PyStr.join " " strs)) as [Hl Hr].
    unfold PyStr.strip at 1. now rewrite Hl, Hr.
  - now rewrite H.
Qed.

Example make_event_address_number :
  make_event_address numbered_event = Raise TypeError /\
  make_team_address (fun _ => "75000") numbered_event = Some "75000".
Proof. split; reflexivity. Qed.


(** ** Saving and loading archives *)

Lemma holds_below_spec (f : Z -> bool) (count : N) :
  holds_below f count = true ->
  forall y, (0 <= y < Z.of_N count)%Z -> f y = true.
Proof.
  unfold holds_below.
  set (step := fun p : bool * Z => (fst p && f (snd p), (snd p + 1)%Z)).
  assert (H : snd (N.iter count step (true, 0%Z)) = Z.of_N count /\
              (fst (N.iter count step (true, 0%Z)) = true ->
               forall y, (0 <= y < Z.of_N count)%Z -> f y = true)).
  { induction count as [|n IH] using N.peano_ind.
    - simpl. split; auto. intros _ y Hy. lia.
    - rewrite N.iter_succ. destruct IH as [Hs Hf].
      destruct (N.iter n step (true, 0%Z)) as [ok z]. simpl in *.
      subst z. split; [lia|].
      intros Hok y Hy. apply andb_prop in Hok. destruct Hok as [Hok Hn].
      destruct (Z.eq_dec y (Z.of_N n)) as [->|Hne]; auto.
      apply Hf; auto. lia. }
  tauto.
Qed.

Lemma name_agrees_all : holds_below name_agrees 100000 = true.
Proof. vm_compute. reflexivity. Qed.

Lemma team_archive_name_four_digits (year : Z) :
  (1000 <= year <= 9999)%Z ->
  match_team_file (team_archive_name year) = Some year.
Proof.
  intros Hy.
  assert (Hr : (0 <= year < Z.of_N 100000)%Z) by (simpl; lia).
  pose proof (holds_below_spec name_agrees 100000 name_agrees_all year Hr)
    as H.
  unfold name_agrees in H.
  destruct (match_team_file (team_archive_name year)) as [y'|].
  - apply andb_prop in H. destruct H as [_ H].
    apply Z.eqb_eq in H. now subst.
  - destruct (Z.leb_spec 1000 year); [|lia].
    destruct (Z.leb_spec year 9999); [discriminate|lia].
Qed.

(** X4.  For a year from 0 to 99999, the name under which
    [__save_team_archive] writes is one [__read_team_archive] recognises,
    with that year, exactly when the year has four digits (1000 to 9999);
    the archive of any other year is written but never found again. *)
Theorem team_archive_name_recognised (year : Z) :
  (0 <= year < 100000)%Z ->
  match_team_file (team_archive_name year)
  = if ((1000 <=? year) && (year <=? 9999))%Z then Some year else None.
Proof.
  intros Hy.
  pose proof (holds_below_spec name_agrees 100000 name_agrees_all year Hy)
    as H.
  unfold name_agrees in H.
  destruct (match_team_file (team_archive_name year)) as [y'|].
  - apply andb_prop in H. destruct H as [H1 H2]. rewrite H1.
    apply Z.eqb_eq in H2. now subst.
  - now destruct ((1000 <=? year)%Z && (year <=? 9999)%Z).
Qed.

Lemma team_archive_name_recognised_witness :
  match_team_file (team_archive_name 2022) = Some 2022%Z /\
  match_team_file (team_archive_name 999) = None /\
  match_team_file (team_archive_name 12022) = None.
Proof.
  split; [|split].
  - apply (team_archive_name_recognised 2022). lia.
  - apply (team_archive_name_recognised 999). lia.
  - apply (team_archive_name_recognised 12022). lia.
Defined.

Lemma assoc_set_In {V : Type} (k n : string) (v x : V)
      (d : list (string * V)) :
  In (n, x) (assoc_set String.eqb k v d) -> (n = k /\ x = v) \/ In (n, x) d.
Proof.
  induction d as [|[k0 v0] d IH]; simpl.
  - intros [[= <- <-]|[]]. auto.
  - destruct (String.eqb k k0) eqn:E; simpl.
    + apply String.eqb_eq in E. subst k0.
      intros [[= <- <-]|H]; auto.
    + intros [H|H]; auto. destruct (IH H); auto.
Qed.

Lemma assoc_set_In_new {V : Type} (k : string) (v : V)
      (d : list (string * V)) :
  In (k, v) (assoc_set String.eqb k v d).
Proof.
  apply (assoc_get_In string_eqb_eq), (assoc_get_set_same string_eqb_eq).
Qed.

(** The file [__read_team_archive] opens when some file matches. *)
Lemma read_team_archive_selects (dir : directory) (name0 : string)
      (c0 : option dict) (y0 : Z) :
  In (name0, File c0) dir -> match_team_file name0 = Some y0 ->
  exists name c y,
    In (name, File c) dir /\ match_team_file name = Some y /\
    (forall name' c' y',
        In (name', File c') dir -> match_team_file name' = Some y' ->
        (y' <= y)%Z) /\
    read_team_archive dir = json_load dir name.
Proof.
  intros Hin0 Hm0. unfold read_team_archive.
  set (files := map fst (filter (fun e => is_file (snd e)) dir)).
  destruct (collect_years_spec files) as [Hsound Hcomplete].
  assert (Hk0 : In y0 (map fst (collect_years files))).
  { apply (Hcomplete name0 y0); auto. apply listed_files. eauto. }
  destruct (collect_years files) as [|[y1 f1] rest] eqn:Ey; [destruct Hk0|].
  set (m := max_year y1 rest).
  assert (Hkey : In m (map fst ((y1, f1) :: rest))).
  { simpl. destruct (max_year_in y1 rest) as [H|H]; [left|right]; auto. }
  destruct (assoc_get_of_key Z_eqb_eq _ _ Hkey) as [latest Hlatest].
  rewrite Hlatest.
  destruct (Hsound m latest Hlatest) as [Hin Hm].
  apply listed_files in Hin. destruct Hin as [c Hin].
  exists latest, c, m. repeat split; auto.
  intros name' c' y' Hin' Hm'.
  assert (Hk' : In y' (map fst ((y1, f1) :: rest))).
  { apply (Hcomplete name' y'); auto. apply listed_files. eauto. }
  destruct (max_year_ge y1 rest) as [H1 H2].
  simpl in Hk'. destruct Hk' as [<-|Hk']; auto.
Qed.

(** Loading after a file stamped with a year later than all others has
    been written gives the data written. *)
Lemma read_after_write (dir : directory) (name : string) (data : dict)
      (year : Z) :
  match_team_file name = Some year ->
  (forall n c y,
      In (n, File c) dir -> match_team_file n = Some y ->
      n <> name -> (y < year)%Z) ->
  read_team_archive (assoc_set String.eqb name (File (Some data)) dir)
  = Ok data.
Proof.
  intros Hname Hold.
  set (dir' := assoc_set String.eqb name (File (Some data)) dir).
  destruct (read_team_archive_selects dir' name (Some data) year)
    as (n & c & y & Hin & Hm & Hmax & Hread); auto.
  { apply assoc_set_In_new. }
  rewrite Hread.
  assert (Hn : n = name).
  { destruct (String.eqb_spec n name) as [|Hne]; auto. exfalso.
    apply assoc_set_In in Hin. destruct Hin as [[Hn _]|Hin]; [tauto|].
    pose proof (Hold n c y Hin Hm Hne).
    pose proof (Hmax name (Some data) year (assoc_set_In_new _ _ _) Hname).
    lia. }
  subst n. unfold json_load, dir'.
  now rewrite (assoc_get_set_same string_eqb_eq).
Qed.

(** X5.  What [__save_team_archive] writes for a four-digit year is what
    [__read_team_archive] loads from the directory afterwards, provided
    every other archive file there is stamped with an earlier year. *)
Theorem team_archive_round_trip
        (items : batch) (year : Z) (w w' : world) :
  (1000 <= year <= 9999)%Z ->
  (forall name c y,
      In (name, File c) (fs w) -> match_team_file name = Some y ->
      name <> team_archive_name year -> (y < year)%Z) ->
  save_team_archive items year w = (w', Done) ->
  read_team_archive (fs w') = save_data items [].
Proof.
  intros Hy Hold. unfold save_team_archive.
  destruct (save_data items []) as [data|e]; [|discriminate].
  unfold json_dump.
  pose proof (read_after_write (fs w) (team_archive_name year) data year
                (team_archive_name_four_digits year Hy) Hold) as Hrun.
  destruct (assoc_get String.eqb (team_archive_name year) (fs w))
    as [[|c]|]; try discriminate; intros [= <-]; exact Hrun.
Qed.

Lemma team_archive_round_trip_witness :
  read_team_archive
    (fs (fst (save_team_archive teams_mixed 2023
                (with_fs blank_world dir_2021_2022))))
  = Ok [("frc1", VDict [("lat", VNum 10); ("lng", VNum 20)])].
Proof.
  apply (team_archive_round_trip teams_mixed 2023
           (with_fs blank_world dir_2021_2022)).
  - lia.
  - intros name c y [H|[H|[H|[]]]]; inversion H; subst;
      intros [= <-] _; lia.
  - reflexivity.
Defined.

(** An archive written beside a later-listed file of the same year is not
    the one loaded: the last file listed for a year is. *)
Example team_archive_shadowed :
  let dir := [("all_team_locations_2022.json", File (Some archive_2021));
              ("all_team_locations_2022.json.old", File (Some archive_2022))]
  in
  read_team_archive
    (fs (fst (save_team_archive teams_mixed 2022 (with_fs blank_world dir))))
  = Ok archive_2022.
Proof. reflexivity. Qed.

(** X6.  What [__save_event_archive] writes is what [__read_event_archive]
    loads from the directory afterwards. *)
Theorem event_archive_round_trip (items : batch) (w w' : world) :
  save_event_archive items w = (w', Done) ->
  read_event_archive (fs w') = save_data items [].
Proof.
  unfold save_event_archive.
  destruct (save_data items []) as [data|e]; [|discriminate].
  unfold json_dump, read_event_archive, json_load.
  destruct (assoc_get String.eqb event_archive_name (fs w)) as [[|c]|];
    try discriminate; intros [= <-]; simpl;
    unfold event_archive_name;
    now rewrite (assoc_get_set_same string_eqb_eq).
Qed.

Lemma event_archive_round_trip_witness :
  read_event_archive
    (fs (fst (save_event_archive teams_mixed blank_world)))
  = Ok [("frc1", VDict [("lat", VNum 10); ("lng", VNum 20)])].
Proof.
  apply (event_archive_round_trip teams_mixed blank_world). reflexivity.
Defined.

(** ** What the deduplication pass leaves alone *)

Lemma for_items_keys {S : Type}
      (body : string -> pyval -> S -> pyval * S * status) (items : batch) :
  forall s items' s' st,
    for_items body items s = (items', s', st) ->
    map fst items' = map fst items.
Proof.
  induction items as [|[k v] rest IH]; intros s items' s' st Hrun.
  - simpl in Hrun. now injection Hrun as <- <- <-.
  - rewrite for_items_cons in Hrun.
    destruct (body k v s) as [[v1 s1] [|e]] eqn:Eb.
    + destruct (for_items body rest s1) as [[rest' s2] st2] eqn:Er.
      injection Hrun as <- <- <-. simpl. f_equal. eapply IH; eauto.
    + now injection Hrun as <- <- <-.
Qed.

Lemma for_items_related {S : Type}
      (body : string -> pyval -> S -> pyval * S * status)
      (R : pyval -> pyval -> Prop) :
  (forall v, R v v) ->
  (forall k v s v' s' st, body k v s = (v', s', st) -> R v v') ->
  forall items s items' s' st,
    for_items body items s = (items', s', st) ->
    Forall2 (fun kv kv' => fst kv' = fst kv /\ R (snd kv) (snd kv'))
            items items'.
Proof.
  intros Hrefl Hbody. induction items as [|[k v] rest IH];
    intros s items' s' st Hrun.
  - simpl in Hrun. injection Hrun as <- <- <-. constructor.
  - rewrite for_items_cons in Hrun.
    destruct (body k v s) as [[v1 s1] st1] eqn:Eb.
    pose proof (Hbody _ _ _ _ _ _ Eb) as Hv.
    destruct st1.
    + destruct (for_items body rest s1) as [[rest' s2] st2] eqn:Er.
      injection Hrun as <- <- <-. constructor; simpl; auto.
      eapply IH; eauto.
    + injection Hrun as <- <- <-. constructor; simpl; auto.
      clear - Hrefl. induction rest as [|kv rest IH]; constructor; auto.
Qed.

Lemma dict_set_keys (k : string) (v : pyval) (d : dict) :
  dict_mem k d = true -> map fst (dict_set k v d) = map fst d.
Proof.
  unfold dict_mem, assoc_mem, dict_set.
  induction d as [|[k' v'] d IH]; simpl; [discriminate|].
  destruct (String.eqb k k') eqn:E; simpl; auto.
  intros H. f_equal. auto.
Qed.

Lemma only_location_changed_refl (v : pyval) : only_location_changed v v.
Proof. destruct v; simpl; auto. Qed.

Lemma only_location_changed_trans (a b c : pyval) :
  only_location_changed a b -> only_location_changed b c ->
  only_location_changed a c.
Proof.
  destruct a as [| | | |da]; simpl; try (intros ->; simpl; auto).
  destruct b as [| | | |db]; simpl; try discriminate.
  intros [Hk Hf]. destruct c as [| | | |dc]; simpl; try discriminate.
  intros [Hk' Hf']. split; [congruence|].
  intros f H1 H2. rewrite Hf', Hf; auto.
Qed.

Lemma jitter_field_changes (G : collaborators) (k : string) (sigma : Q)
      (obj obj' : pyval) (w w' : world) (st : status) :
  k = "lat" \/ k = "lng" ->
  jitter_field G k sigma obj w = (obj', w', st) ->
  only_location_changed obj obj' /\ w' = with_noise w (noise_calls w').
Proof.
  intros Hk. unfold jitter_field.
  assert (Hw : w = with_noise w (noise_calls w)) by now destruct w.
  destruct obj as [| | | |d]; simpl;
    try (intros [= <- <- <-]; split; [reflexivity|exact Hw]).
  destruct (dict_get k d) as [v|] eqn:Ev; simpl;
    [|intros [= <- <- <-]; split; [apply (only_location_changed_refl (VDict d))
                                  |exact Hw]].
  destruct (as_number v) as [mu|e];
    [|intros [= <- <- <-]; split; [apply (only_location_changed_refl (VDict d))
                                  |exact Hw]].
  intros [= <- <- <-]. split; [|reflexivity].
  simpl. split.
  - apply dict_set_keys. unfold dict_mem, assoc_mem.
    unfold dict_get in Ev. now rewrite Ev.
  - intros f H1 H2. apply dict_get_set_other.
    destruct Hk; congruence.
Qed.

Lemma randomnize_location_changes (G : collaborators) (sigma : Q)
      (obj obj' : pyval) (w w' : world) (st : status) :
  randomnize_location G obj sigma w = (obj', w', st) ->
  only_location_changed obj obj' /\ w' = with_noise w (noise_calls w').
Proof.
  unfold randomnize_location.
  destruct (jitter_field G "lat" sigma obj w) as [[o1 w1] st1] eqn:E1.
  apply jitter_field_changes in E1; auto. destruct E1 as [H1 Hw1].
  destruct st1.
  - intros E2. apply jitter_field_changes in E2; auto.
    destruct E2 as [H2 Hw2]. split.
    + eapply only_location_changed_trans; eauto.
    + rewrite Hw2 at 1. rewrite Hw1. reflexivity.
  - intros [= <- <- <-]. auto.
Qed.

Lemma dedup_body_changes (G : collaborators) (k : string) (v v' : pyval)
      u u' (w w' : world) (st : status) :
  dedup_body G k v (u, w) = (v', (u', w'), st) ->
  only_location_changed v v' /\ w' = with_noise w (noise_calls w')
  /\ (located v = false -> v' = v).
Proof.
  assert (Hw : w = with_noise w (noise_calls w)) by now destruct w.
  unfold dedup_body. intros Hb.
  destruct (noloc v) as [[|]|e] eqn:En;
    try (injection Hb as <- <- <- <-;
         repeat split; auto using only_location_changed_refl).
  destruct (noloc_false_located v En) as [Hloc [loc [Hc Ht]]].
  rewrite Ht in Hb.
  destruct (negb (loc_hashable loc));
    try (injection Hb as <- <- <- <-;
         repeat split; auto using only_location_changed_refl).
  destruct (assoc_mem loc_eqb loc u);
    try (injection Hb as <- <- <- <-;
         repeat split; auto using only_location_changed_refl).
  destruct (randomnize_location G v default_sigma w) as [[o w2] st2] eqn:Er.
  injection Hb as <- <- <- <-.
  apply randomnize_location_changes in Er. destruct Er as [H1 H2].
  repeat split; auto. congruence.
Qed.

Lemma dedup_locations_keys (G : collaborators) (items items' : batch)
      (w w' : world) (st : status) :
  dedup_locations G items w = (items', w', st) ->
  map fst items' = map fst items.
Proof.
  unfold dedup_locations.
  destruct (for_items (dedup_body G) items ([], w)) as [[it s] st1] eqn:E.
  intros [= <- <- <-]. eapply for_items_keys; eauto.
Qed.

Lemma dedup_locations_noise_only (G : collaborators) (items items' : batch)
      (w w' : world) (st : status) :
  dedup_locations G items w = (items', w', st) ->
  w' = with_noise w (noise_calls w').
Proof.
  unfold dedup_locations.
  destruct (for_items (dedup_body G) items ([], w)) as [[it [u1 w1]] st1] eqn:E.
  intros [= <- <- <-].
  apply (for_items_preserves (dedup_body G)
           (fun s => snd s = with_noise w (noise_calls (snd s)))) in E.
  - exact E.
  - intros k v [u a] v' [u' a'] st0 Hb Ha. simpl in *.
    apply dedup_body_changes in Hb. destruct Hb as (_ & Hw' & _).
    rewrite Hw'. rewrite Ha. reflexivity.
  - simpl. now destruct w.
Qed.

(** X7.  However [__dedup_locations] ends, normally or by an exception, it
    keeps the identifiers of the batch and their order, changes nothing in
    a record but the values of [lat] and [lng], changes nothing at all in
    a record without location, and leaves the archive directory and the
    logs of the provider and of enrichment as they were. *)
Theorem dedup_changes_locations_only
        (G : collaborators) (items items' : batch) (w w' : world)
        (st : status) :
  dedup_locations G items w = (items', w', st) ->
  map fst items' = map fst items
  /\ Forall2 (fun kv kv' =>
                fst kv' = fst kv /\
                only_location_changed (snd kv) (snd kv') /\
                (located (snd kv) = false -> snd kv' = snd kv))
             items items'
  /\ w' = with_noise w (noise_calls w').
Proof.
  intros Hrun. split; [|split].
  - eapply dedup_locations_keys; eauto.
  - unfold dedup_locations in Hrun.
    destruct (for_items (dedup_body G) items ([], w))
      as [[it [u1 w1]] st1] eqn:E.
    injection Hrun as <- <- <-.
    pose proof (for_items_related (dedup_body G)
                  (fun v v' => only_location_changed v v' /\
                               (located v = false -> v' = v))) as H.
    eapply Forall2_impl; [|eapply H; eauto].
    + intros a b (H1 & H2 & H3). auto.
    + intros v. split; auto using only_location_changed_refl.
    + intros k v [u a] v' [u' a'] st0 Hb.
      apply dedup_body_changes in Hb. tauto.
  - eapply dedup_locations_noise_only; eauto.
Qed.

Lemma dedup_changes_locations_only_witness :
  exists items' w',
    dedup_locations shifting teams_colliding blank_world
    = (items', w', Done) /\
    map fst items' = ["frc1"; "frc2"; "frc3"; "frc4"] /\
    fs w' = [] /\ provider_calls w' = [].
Proof.
  destruct (dedup_locations shifting teams_colliding blank_world)
    as [[items' w'] st] eqn:E.
  destruct (dedup_changes_locations_only _ _ _ _ _ _ E) as (Hk & _ & Hw).
  exists items', w'. split.
  - f_equal. now injection E as _ _ <-.
  - split; [exact Hk|]. rewrite Hw. split; reflexivity.
Defined.

Lemma dedup_view_collision_free (G : collaborators) (items : batch) :
  forall seen h,
    collision_free seen items = true ->
    dedup_view G seen items h = (items, h).
Proof.
  induction items as [|[k v] rest IH]; intros seen h Hf; auto.
  simpl in Hf. apply andb_prop in Hf. destruct Hf as [Hc Hf].
  rewrite dedup_view_cons. cbv zeta.
  destruct (collides seen v); [discriminate|].
  now rewrite IH.
Qed.

(** X8.  On a batch whose records satisfy the Location invariant and in
    which no entity has the location of an earlier one,
    [__dedup_locations] returns normally with the batch and the world
    exactly as they were: no coordinate is perturbed and no noise is
    drawn. *)
Theorem dedup_without_collision
        (G : collaborators) (items : batch) (w : world) :
  forallb (fun kv => well_located (snd kv)) items = true ->
  collision_free [] items = true ->
  dedup_locations G items w = (items, w, Done).
Proof.
  intros Hwl Hfree.
  rewrite (dedup_locations_view G items w Hwl).
  rewrite <- dedup_view_draws with (G := G).
  rewrite (dedup_view_collision_free G items [] _ Hfree). simpl.
  now destruct w.
Qed.

Lemma dedup_without_collision_witness :
  dedup_locations shifting teams_apart blank_world
  = (teams_apart, blank_world, Done).
Proof.
  apply (dedup_without_collision shifting teams_apart blank_world);
    reflexivity.
Defined.

(** ** The provider log of a team run *)

Lemma team_body_calls (G : collaborators) (self : FRCGeocoder) (k : string)
      (v v' : pyval) (w w' : world) (st : status) :
  team_body G self k v w = (v', w', st) ->
  provider_calls w'
  = provider_calls w
    ++ match st with
       | Done => team_attempt G self (k, v)
       | Failed _ => []
       end
  /\ fs w' = fs w.
Proof.
  unfold team_body, team_attempt, geocoded, dict_mem, assoc_mem.
  simpl fst. simpl snd. fold dict_get.
  destruct (assoc_get String.eqb k (teams self)) as [o|].
  - simpl. destruct (py_update v (VDict o)); intros [= <- <- <-];
      now rewrite app_nil_r.
  - destruct (dict_get k (team_archive self)) as [a|].
    + simpl. destruct (py_update v a); intros [= <- <- <-];
        now rewrite app_nil_r.
    + simpl. destruct v as [| | | |d];
        try (intros [= <- <- <-]; now rewrite app_nil_r).
      unfold geolocate_team, geolocate_with.
      destruct (dict_get "key" d);
        [|intros [= <- <- <-]; now rewrite app_nil_r].
      destruct (make_team_address (format_value G) d) as [addr|].
      * pose proof (try_geocode_fs G d addr w) as Hfs.
        unfold try_geocode in *.
        destruct (geocode G (provider_calls w) addr) as [loc|].
        -- destruct (py_update (VDict d) loc) as [[| | | |r]|];
             intros [= <- <- <-]; auto.
        -- intros [= <- <- <-]; auto.
      * intros [= <- <- <-]. now rewrite app_nil_r.
Qed.

Lemma resolve_teams_calls (G : collaborators) (self : FRCGeocoder)
      (tms : batch) :
  forall w tms' w' st,
    resolve_teams G self tms w = (tms', w', st) ->
    (exists n, provider_calls w'
               = provider_calls w
                 ++ firstn n (provider_attempts G self tms))
    /\ (st = Done ->
        provider_calls w'
        = provider_calls w ++ provider_attempts G self tms)
    /\ fs w' = fs w.
Proof.
  unfold resolve_teams.
  induction tms as [|[k v] rest IH]; intros w tms' w' st Hrun.
  - simpl in Hrun. injection Hrun as <- <- <-.
    split; [exists 0|]; simpl; now rewrite app_nil_r.
  - rewrite for_items_cons in Hrun.
    destruct (team_body G self k v w) as [[v1 w1] st1] eqn:Eb.
    apply team_body_calls in Eb. destruct Eb as [Hc1 Hfs1].
    destruct st1.
    + destruct (for_items (team_body G self) rest w1)
        as [[rest' w2] st2] eqn:Er.
      injection Hrun as <- <- <-.
      destruct (IH _ _ _ _ Er) as ([n Hn] & Hdone & Hfs).
      unfold provider_attempts in *. simpl flat_map.
      split; [|split].
      * exists (length (team_attempt G self (k, v)) + n).
        rewrite firstn_app_2, Hn, Hc1. now rewrite app_assoc.
      * intros Hd. rewrite (Hdone Hd), Hc1. now rewrite app_assoc.
      * congruence.
    + injection Hrun as <- <- <-. rewrite app_nil_r in Hc1.
      split; [exists 0; simpl; now rewrite app_nil_r|].
      split; [discriminate|auto].
Qed.

Lemma populate_team_locations_calls
      (G : collaborators) (self : FRCGeocoder) (tms : batch) (year : Z)
      (w : world) (tms' : batch) (w' : world) (st : status) :
  populate_team_locations G self tms year w = (tms', w', st) ->
  provider_calls w'
  = provider_calls (snd (fst (resolve_teams G self tms w))).
Proof.
  unfold populate_team_locations.
  destruct (resolve_teams G self tms w) as [[t1 w1] st1]. simpl.
  destruct st1; [|now intros [= <- <- <-]].
  destruct (dedup_locations G t1 w1) as [[t2 w2] st2] eqn:Ed.
  apply dedup_locations_noise_only in Ed.
  assert (Hc2 : provider_calls w2 = provider_calls w1)
    by (rewrite Ed; reflexivity).
  destruct st2; [|now intros [= <- <- <-]].
  unfold save_team_archive.
  destruct (save_data t2 []) as [data|e]; [|now intros [= <- <- <-]].
  destruct (json_dump (fs w2) (team_archive_name year) data);
    now intros [= <- <- <-].
Qed.

(** X9.  In any run of [populate_team_locations], whether it returns or
    raises, the provider is asked for nothing but the addresses of the
    teams that are neither overridden nor archived, at most once each and
    in batch order: its log grows by an initial part of those addresses,
    and by all of them when the resolution loop completes. *)
Theorem team_run_provider_log
        (G : collaborators) (self : FRCGeocoder) (tms : batch) (year : Z)
        (w : world) (tms' : batch) (w' : world) (st : status) :
  populate_team_locations G self tms year w = (tms', w', st) ->
  (exists n, provider_calls w'
             = provider_calls w ++ firstn n (provider_attempts G self tms))
  /\ (snd (resolve_teams G self tms w) = Done ->
      provider_calls w' = provider_calls w ++ provider_attempts G self tms).
Proof.
  intros Hrun. rewrite (populate_team_locations_calls _ _ _ _ _ _ _ _ Hrun).
  destruct (resolve_teams G self tms w) as [[t1 w1] st1] eqn:Er.
  apply resolve_teams_calls in Er. destruct Er as (Hn & Hd & _).
  simpl. split; auto.
Qed.

Lemma team_run_provider_log_witness :
  provider_calls
    (snd (fst (populate_team_locations
                 answering_once geocoder_two_at_10_20 teams_to_geocode 2022
                 blank_world)))
  = ["Nice"].
Proof.
  destruct (populate_team_locations
              answering_once geocoder_two_at_10_20 teams_to_geocode 2022
              blank_world) as [[tms' w'] st] eqn:E.
  pose proof (proj2 (team_run_provider_log _ _ _ _ _ _ _ _ E)) as H.
  simpl. rewrite H; reflexivity.
Defined.

(** ** Archive precedence for teams *)

Lemma team_body_archived (G : collaborators) (self : FRCGeocoder)
      (k : string) (r a : dict) (w : world) :
  assoc_get String.eqb k (teams self) = None ->
  dict_get k (team_archive self) = Some (VDict a) ->
  team_body G self k (VDict r) w = (VDict (dict_update r a), w, Done).
Proof. intros H1 H2. unfold team_body. now rewrite H1, H2. Qed.

(** X10.  For a team that is not overridden and whose identifier is in the
    team archive with a dict entry, the resolution loop leaves the record
    updated with the archived fields: every archived field reads as in the
    archive, every other field of the record is kept, and the provider is
    not asked for this team.  When the call returns, the record is still
    that one provided no earlier team of the batch has resolved to the
    same location. *)
Theorem archive_precedence_for_teams
        (G : collaborators) (self : FRCGeocoder) (tms : batch) (year : Z)
        (w : world) (i : nat) (k : string) (r a : dict)
        (tms' : batch) (w' : world) :
  nth_error tms i = Some (k, VDict r) ->
  assoc_get String.eqb k (teams self) = None ->
  dict_get k (team_archive self) = Some (VDict a) ->
  NoDup (map fst a) ->
  populate_team_locations G self tms year w = (tms', w', Done) ->
  nth_error (resolved_teams G self tms w) i
  = Some (k, VDict (dict_update r a))
  /\ (forall f x, dict_get f a = Some x ->
                  dict_get f (dict_update r a) = Some x)
  /\ (forall f, ~ In f (map fst a) ->
                dict_get f (dict_update r a) = dict_get f r)
  /\ team_attempt G self (k, VDict r) = []
  /\ (collides (firstn i (resolved_teams G self tms w))
               (VDict (dict_update r a)) = false ->
      nth_error tms' i = Some (k, VDict (dict_update r a))).
Proof.
  intros Hi Ho Ha Hnd Hrun. unfold resolved_teams.
  unfold populate_team_locations in Hrun.
  destruct (resolve_teams G self tms w) as [[t1 w1] [|e1]] eqn:Er;
    [|discriminate].
  destruct (dedup_locations G t1 w1) as [[t2 w2] [|e2]] eqn:Ed;
    [|discriminate].
  destruct (save_team_archive t2 year w2) as [w3 st3].
  injection Hrun as <- <- ->. simpl.
  destruct (for_items_nth _ _ _ _ _ _ _ _ Er Hi)
    as (sa & sb & v' & _ & Hb & Hn).
  rewrite (team_body_archived G self k r a sa Ho Ha) in Hb.
  injection Hb as <- <-.
  split; [exact Hn|]. split; [|split; [|split]].
  - intros f x Hf. now apply dict_get_update_bound.
  - intros f Hf. now apply dict_get_update_absent.
  - unfold team_attempt, geocoded, dict_mem, assoc_mem. simpl.
    unfold dict_get in Ha. rewrite Ha. now rewrite andb_false_r.
  - intros Hc. eapply dedup_first_holder_unchanged; eauto.
Qed.

Lemma archive_precedence_for_teams_witness :
  nth_error (fst (fst (populate_team_locations
                         shifting geocoder_two_at_10_20 teams_frc1_frc2
                         2022 blank_world))) 0
  = Some ("frc1", VDict [("key", VStr "frc1"); ("lat", VNum 10);
                         ("lng", VNum 20)]).
Proof.
  assert (Hnd : NoDup (map fst [("lat", VNum 10); ("lng", VNum 20)]))
    by distinct.
  pose proof (archive_precedence_for_teams
                shifting geocoder_two_at_10_20 teams_frc1_frc2 2022
                blank_world 0 "frc1" [("key", VStr "frc1")]
                [("lat", VNum 10); ("lng", VNum 20)] _ _
                eq_refl eq_refl eq_refl Hnd eq_refl) as (_ & _ & _ & _ & H).
  exact (H eq_refl).
Defined.

(** ** Events that miss the archive *)

Lemma length_set_slot {A : Type} (x : A) (l : list A) :
  forall i, length (set_slot i x l) = length l.
Proof.
  induction l as [|y l IH]; intros [|i]; simpl; auto.
Qed.

Lemma nth_error_set_slot_same {A : Type} (x : A) (l : list A) :
  forall i, i < length l -> nth_error (set_slot i x l) i = Some x.
Proof.
  induction l as [|y l IH]; intros [|i] Hi; simpl in *; try lia; auto.
  apply IH. lia.
Qed.

Lemma map_fst_set_slot (k : string) (v v' : pyval) (l : batch) :
  forall i, nth_error l i = Some (k, v) ->
            map fst (set_slot i (k, v') l) = map fst l.
Proof.
  induction l as [|y l IH]; intros [|i] Hi; simpl in *; try discriminate.
  - now injection Hi as ->.
  - f_equal. auto.
Qed.

Lemma noloc_not_runtime (v : pyval) (e : exn) :
  noloc v = Raise e -> e <> RuntimeError.
Proof.
  unfold noloc, getitem. destruct v as [| | | |d]; simpl;
    try (intros [= <-]; discriminate).
  destruct (dict_get "lat" d) as [a|]; simpl;
    [|intros [= <-]; discriminate].
  destruct (is_none a); [discriminate|].
  destruct (dict_get "lng" d); simpl; [discriminate|].
  intros [= <-]; discriminate.
Qed.

Lemma noloc_true_unlocated (v : pyval) :
  noloc v = Ok true -> located v = false /\ exists d, v = VDict d.
Proof.
  unfold noloc, getitem, located. destruct v as [| | | |d]; simpl;
    try discriminate.
  destruct (dict_get "lat" d) as [a|]; simpl; [|discriminate].
  destruct (is_none a) eqn:Ea.
  - intros _. split; eauto. now destruct (dict_get "lng" d).
  - destruct (dict_get "lng" d) as [b|]; simpl; [|discriminate].
    intros [= ->]. split; eauto.
Qed.

Lemma set_ignore_accounted (d : dict) :
  accounted (VDict (dict_set "ignore" (VBool true) d)) = true.
Proof.
  unfold accounted, ignored. rewrite dict_get_set_same.
  apply orb_true_r.
Qed.

Section ArchiveMiss.
Variable G : collaborators.
Variable self : FRCGeocoder.

Lemma event_body_miss (i : nat) (key : string) (event : pyval)
      (evs evs' : batch) (w w' : world) (st : status) :
  dict_get key (event_archive self) = None ->
  nth_error evs i = Some (key, event) ->
  event_body G self i key event evs w = (evs', w', st) ->
  map fst evs' = map fst evs
  /\ (forall j, j <> i -> nth_error evs' j = nth_error evs j)
  /\ st <> Failed RuntimeError
  /\ (st = Done ->
      exists v', nth_error evs' i = Some (key, v') /\ accounted v' = true).
Proof.
  intros Hmiss Hi. unfold event_body.
  assert (Hlen : i < length evs) by (apply nth_error_Some; congruence).
  destruct (match assoc_get String.eqb key (events self) with
            | Some override => py_update event (VDict override)
            | None => Ok event
            end) as [ev1|e] eqn:Eov.
  2:{ intros [= <- <- <-]. repeat split; auto; try discriminate.
      destruct (assoc_get String.eqb key (events self)); [|discriminate].
      destruct event; simpl in Eov; try discriminate;
        injection Eov as <-; discriminate. }
  set (evs1 := set_slot i (key, ev1) evs).
  assert (Hk1 : map fst evs1 = map fst evs)
    by (eapply map_fst_set_slot; eauto).
  assert (Ho1 : forall j, j <> i -> nth_error evs1 j = nth_error evs j)
    by (intros; apply nth_error_set_slot_other; auto).
  assert (Hi1 : nth_error evs1 i = Some (key, ev1))
    by (apply nth_error_set_slot_same; auto).
  destruct (noloc ev1) as [nl|e] eqn:En.
  2:{ intros [= <- <- <-]. repeat split; auto; try discriminate.
      intros [= ->]. now apply noloc_not_runtime in En. }
  destruct nl.
  - (* no location yet *)
    unfold resolve_event. rewrite Hmiss.
    destruct (noloc_true_unlocated _ En) as [_ [d ->]].
    assert (Hfin : forall (d2 : dict) (evs2 : batch) (w2 : world),
               map fst evs2 = map fst evs ->
               (forall j, j <> i -> nth_error evs2 j = nth_error evs j) ->
               nth_error evs2 i = Some (key, VDict d2) ->
               forall (evs' : batch) (w' : world) (st : status),
               match noloc (VDict d2) with
               | Ok true =>
                   match setitem (VDict d2) "ignore" (VBool true) with
                   | Ok ev3 => (set_slot i (key, ev3) evs2, w2, Done)
                   | Raise e => (evs2, w2, Failed e)
                   end
               | Ok false => (evs2, w2, Done)
               | Raise e => (evs2, w2, Failed e)
               end = (evs', w', st) ->
               map fst evs' = map fst evs
               /\ (forall j, j <> i -> nth_error evs' j = nth_error evs j)
               /\ st <> Failed RuntimeError
               /\ (st = Done ->
                   exists v', nth_error evs' i = Some (key, v') /\
                              accounted v' = true)).
    { intros d2 evs2 w2 Hk2 Ho2 Hi2 evs'0 w'0 st0.
      assert (Hlen2 : i < length evs2) by (apply nth_error_Some; congruence).
      destruct (noloc (VDict d2)) as [[|]|e] eqn:En2.
      - simpl. intros [= <- <- <-]. repeat split; try discriminate.
        + rewrite <- Hk2. eapply map_fst_set_slot; eauto.
        + intros j Hj. rewrite nth_error_set_slot_other; auto.
        + intros _. eexists. split.
          * apply nth_error_set_slot_same; auto.
          * apply set_ignore_accounted.
      - intros [= <- <- <-]. repeat split; auto; try discriminate.
        intros _. exists (VDict d2). split; auto.
        unfold accounted.
        now rewrite (proj1 (noloc_false_located _ En2)).
      - intros [= <- <- <-]. repeat split; auto; try discriminate.
        intros [= ->]. now apply noloc_not_runtime in En2. }
    destruct (is_official (VDict d)).
    + destruct (enhance_and_geolocate G d w) as [d' w1] eqn:Ee.
      apply Hfin.
      * rewrite <- Hk1. eapply map_fst_set_slot; eauto.
      * intros j Hj. rewrite nth_error_set_slot_other; auto.
      * apply nth_error_set_slot_same.
        unfold evs1. now rewrite length_set_slot.
    + apply Hfin; auto.
  - (* located after the override step *)
    rewrite En. intros [= <- <- <-]. repeat split; auto; try discriminate.
    intros _. exists ev1. split; auto. unfold accounted.
    now rewrite (proj1 (noloc_false_located _ En)).
Qed.

Lemma event_loop_miss (size : nat) :
  forall todo i evs w evs' w' st,
    length evs = size -> i + todo = size ->
    (forall k, In k (map fst evs) ->
               dict_get k (event_archive self) = None) ->
    (forall j k v, j < i -> nth_error evs j = Some (k, v) ->
                   accounted v = true) ->
    event_loop G self size todo i evs w = (evs', w', st) ->
    map fst evs' = map fst evs
    /\ st <> Failed RuntimeError
    /\ (st = Done ->
        forall j k v, nth_error evs' j = Some (k, v) -> accounted v = true).
Proof.
  induction todo as [|todo IH]; intros i evs w evs' w' st Hlen Hsum Hmiss Hvis;
    simpl; rewrite Hlen, Nat.eqb_refl; simpl.
  - intros [= <- <- <-]. repeat split; try discriminate.
    intros _ j k v Hj. apply (Hvis j k v); auto.
    assert (j < length evs) by (apply nth_error_Some; congruence). lia.
  - destruct (nth_error evs i) as [[key event]|] eqn:Ei.
    2:{ apply nth_error_None in Ei. lia. }
    assert (Hkey : dict_get key (event_archive self) = None).
    { apply Hmiss. apply in_map_iff. exists (key, event). split; auto.
      eapply nth_error_In; eauto. }
    destruct (event_body G self i key event evs w) as [[e1 w1] st1] eqn:Eb.
    destruct (event_body_miss _ _ _ _ _ _ _ _ Hkey Ei Eb)
      as (Hk1 & Ho1 & Hrt & Hdone).
    destruct st1.
    + intros Hrun.
      destruct (Hdone eq_refl) as (v' & Hv' & Hacc).
      destruct (IH (S i) e1 w1 evs' w' st) as (Hk & Hr & Hd); auto.
      * rewrite <- Hlen.
        now rewrite <- (length_map fst e1), Hk1, length_map.
      * lia.
      * intros k Hin. apply Hmiss. now rewrite <- Hk1.
      * intros j k v Hj Hn.
        destruct (Nat.eq_dec j i) as [->|Hne].
        -- rewrite Hv' in Hn. now injection Hn as _ <-.
        -- rewrite Ho1 in Hn by auto. apply (Hvis j k v); auto. lia.
      * split; [congruence|auto].
    + intros [= <- <- <-]. repeat split; auto. discriminate.
Qed.
End ArchiveMiss.

Lemma jitter_field_located (G : collaborators) (k : string) (sigma : Q)
      (obj obj' : pyval) (w w' : world) (st : status) :
  k = "lat" \/ k = "lng" ->
  located obj = true ->
  jitter_field G k sigma obj w = (obj', w', st) ->
  located obj' = true.
Proof.
  intros Hk Hl. unfold jitter_field.
  destruct obj as [| | | |d]; try discriminate.
  unfold getitem. destruct (dict_get k d) as [v|] eqn:Ev; simpl;
    [|intros [= <- <- <-]; auto].
  destruct (as_number v) as [mu|e]; [|intros [= <- <- <-]; auto].
  intros [= <- <- <-]. unfold located in *.
  destruct (dict_get "lat" d) as [a|] eqn:Ea; [|discriminate].
  destruct (dict_get "lng" d) as [b|] eqn:Eb; [|discriminate].
  apply andb_prop in Hl. destruct Hl as [Hla Hlb].
  destruct Hk as [-> | ->].
  - rewrite dict_get_set_same, dict_get_set_other, Eb by discriminate.
    simpl. exact Hlb.
  - rewrite dict_get_set_same, dict_get_set_other, Ea by discriminate.
    simpl. now rewrite Hla.
Qed.

Lemma dedup_body_accounted (G : collaborators) (k : string) (v v' : pyval)
      s s' (st : status) :
  dedup_body G k v s = (v', s', st) ->
  accounted v = true -> accounted v' = true.
Proof.
  destruct s as [u w], s' as [u' w']. intros Hb Hacc.
  destruct (located v) eqn:Hl.
  - unfold accounted. unfold dedup_body in Hb.
    destruct (noloc v) as [[|]|e];
      try (injection Hb as <- <- <- <-; now rewrite Hl).
    destruct (location_tuple v) as [loc|e];
      try (injection Hb as <- <- <- <-; now rewrite Hl).
    destruct (negb (loc_hashable loc));
      try (injection Hb as <- <- <- <-; now rewrite Hl).
    destruct (assoc_mem loc_eqb loc u);
      try (injection Hb as <- <- <- <-; now rewrite Hl).
    unfold randomnize_location in Hb.
    destruct (jitter_field G "lat" default_sigma v w) as [[o1 w1] st1] eqn:E1.
    apply jitter_field_located in E1; auto.
    destruct st1.
    + destruct (jitter_field G "lng" default_sigma o1 w1)
        as [[o2 w2] st2] eqn:E2.
      apply jitter_field_located in E2; auto.
      injection Hb as <- <- <- <-. now rewrite E2.
    + injection Hb as <- <- <- <-. now rewrite E1.
  - apply dedup_body_changes in Hb. destruct Hb as (_ & _ & Hsame).
    now rewrite (Hsame Hl).
Qed.

(** X11.  On a batch of events none of which is in the event archive, the
    resolution loop of [populate_event_locations] keeps the identifiers
    and their order and never raises [RuntimeError]; and when the call
    returns, every event of the batch either has a location or is marked
    [ignore]. *)
Theorem event_run_accounts_for_all
        (G : collaborators) (self : FRCGeocoder) (evs : batch) (w : world)
        (evs' : batch) (w' : world) (st : status) :
  archive_misses self evs = true ->
  populate_event_locations G self evs w = (evs', w', st) ->
  map fst (fst (fst (resolve_events G self evs w))) = map fst evs
  /\ snd (resolve_events G self evs w) <> Failed RuntimeError
  /\ (st = Done ->
      map fst evs' = map fst evs /\
      forallb (fun kv => accounted (snd kv)) evs' = true).
Proof.
  intros Hmiss. unfold populate_event_locations.
  destruct (resolve_events G self evs w) as [[e1 w1] st1] eqn:Er.
  unfold resolve_events in Er.
  assert (Hnone : forall k, In k (map fst evs) ->
                            dict_get k (event_archive self) = None).
  { intros k Hin. apply in_map_iff in Hin. destruct Hin as [[k' v] [<- Hin]].
    unfold archive_misses in Hmiss.
    pose proof (forallb_In _ _ _ Hmiss Hin) as H. cbv beta in H.
    simpl fst in H |- *. unfold dict_mem, assoc_mem in H. unfold dict_get.
    destruct (assoc_get String.eqb k' (event_archive self));
      [simpl in H; discriminate|reflexivity]. }
  assert (Hvis : forall j k (v : pyval),
             j < 0 -> nth_error evs j = Some (k, v) -> accounted v = true).
  { intros j k v Hj. lia. }
  pose proof (event_loop_miss G self (length evs) (length evs) 0 evs w
                              e1 w1 st1 eq_refl eq_refl Hnone Hvis Er)
    as Er'.
  clear Er. rename Er' into Er.
  destruct Er as (Hk1 & Hrt & Hd1). simpl fst. simpl snd.
  intros Hrun. split; [exact Hk1|]. split; [exact Hrt|].
  intros ->.
  destruct st1; [|discriminate].
  destruct (save_event_archive e1 w1) as [w2 [|e2]]; [|discriminate].
  assert (Hall1 : forallb (fun kv => accounted (snd kv)) e1 = true).
  { apply forallb_forall. intros [k v] Hin.
    apply In_nth_error in Hin. destruct Hin as [j Hj].
    apply (Hd1 eq_refl j k v Hj). }
  split.
  - rewrite <- Hk1.
    eapply dedup_locations_keys; eauto.
  - apply (dedup_locations_kept G accounted)
      with (1 := dedup_body_accounted G) in Hrun; auto.
Qed.

Lemma event_run_accounts_for_all_witness :
  populate_event_locations answering_once geocoder_empty
                           events_mixed blank_world
  = ([("2020abc", VDict [("key", VStr "2020abc"); ("is_official", VBool true);
                         ("city", VStr "Paris"); ("lat", VNum 30);
                         ("lng", VNum 40)]);
      ("2020off", VDict [("key", VStr "2020off");
                         ("is_official", VBool false); ("lat", VNone);
                         ("lng", VNone); ("ignore", VBool true)]);
      ("2020xyz", VDict [("key", VStr "2020xyz"); ("lat", VNum 1);
                         ("lng", VNum 2)])],
     with_file (mkWorld [] ["Paris"] []
                        [[("key", VStr "2020abc");
                          ("is_official", VBool true);
                          ("city", VStr "Paris"); ("lat", VNone);
                          ("lng", VNone)]])
               event_archive_name
               [("2020abc", VDict [("lat", VNum 30); ("lng", VNum 40)]);
                ("2020xyz", VDict [("lat", VNum 1); ("lng", VNum 2)])],
     Done)
  /\ forallb (fun kv => accounted (snd kv))
             (fst (fst (populate_event_locations
                          answering_once geocoder_empty
                          events_mixed blank_world))) = true.
Proof.
  split; [reflexivity|].
  exact (proj2 (proj2 (proj2
           (event_run_accounts_for_all
              answering_once geocoder_empty events_mixed
              blank_world _ _ Done eq_refl eq_refl)) eq_refl)).
Defined.

(** ** From one run to the next *)

Lemma noloc_ok_readable (v : pyval) (b : bool) :
  noloc v = Ok b -> loc_readable v = true.
Proof.
  unfold noloc, getitem, loc_readable, dict_mem, assoc_mem. fold dict_get.
  destruct v as [| | | |d]; simpl; try discriminate.
  destruct (dict_get "lat" d) as [a|]; simpl; [|discriminate].
  destruct (is_none a); simpl; auto.
  now destruct (dict_get "lng" d).
Qed.

Lemma save_data_ok_readable (items : batch) :
  forall data data',
    save_data items data = Ok data' ->
    forallb (fun kv => loc_readable (snd kv)) items = true.
Proof.
  induction items as [|[k v] rest IH]; intros data data' Hs; auto.
  simpl in Hs |- *.
  destruct (noloc v) as [b|e] eqn:En; [|discriminate].
  rewrite (noloc_ok_readable _ _ En). simpl in *.
  destruct b; [eapply IH; eauto|].
  destruct v; try discriminate. eapply IH; eauto.
Qed.

Lemma populate_team_locations_saved
      (G : collaborators) (self : FRCGeocoder) (tms : batch) (year : Z)
      (w : world) (tms' : batch) (w' : world) :
  populate_team_locations G self tms year w = (tms', w', Done) ->
  map fst tms' = map fst tms /\
  exists wb, fs wb = fs w /\ save_team_archive tms' year wb = (w', Done).
Proof.
  unfold populate_team_locations.
  destruct (resolve_teams G self tms w) as [[t1 w1] [|e1]] eqn:Er;
    [|discriminate].
  destruct (dedup_locations G t1 w1) as [[t2 w2] [|e2]] eqn:Ed;
    [|discriminate].
  destruct (save_team_archive t2 year w2) as [w3 st3] eqn:Es.
  intros [= <- <- ->]. split.
  - rewrite (dedup_locations_keys _ _ _ _ _ _ Ed).
    unfold resolve_teams in Er. eapply for_items_keys; eauto.
  - exists w2. split; auto.
    apply resolve_teams_calls in Er. destruct Er as (_ & _ & Hfs).
    apply dedup_locations_noise_only in Ed. rewrite Ed. simpl. exact Hfs.
Qed.

Lemma archive_view_has (items : batch) (k : string) (v : pyval) :
  In (k, v) items -> located v = true ->
  dict_mem k (archive_view items) = true.
Proof.
  intros Hin Hl.
  assert (Hk : In k (map fst (archive_view items))).
  { unfold archive_view. rewrite map_map. simpl.
    apply in_map_iff. exists (k, v). split; auto.
    apply filter_In. auto. }
  destruct (assoc_get_of_key string_eqb_eq _ _ Hk) as [x Hx].
  unfold dict_mem, assoc_mem. now rewrite Hx.
Qed.

(** X12.  After a run of [populate_team_locations] has returned for a
    four-digit year later than the year of every other archive file, a
    geocoder constructed on the directory reads as its team archive
    exactly the located teams of that run; and with that archive a later
    run, whatever the provider and the batch, never asks the provider for
    a team the first run located.  In particular a run over teams that
    were all located makes no provider call at all. *)
Theorem located_teams_are_not_asked_again
        (G : collaborators) (self : FRCGeocoder) (tms : batch) (year : Z)
        (w : world) (tms1 : batch) (w1 : world) :
  (1000 <= year <= 9999)%Z ->
  (forall name c y,
      In (name, File c) (fs w) -> match_team_file name = Some y ->
      name <> team_archive_name year -> (y < year)%Z) ->
  NoDup (map fst tms) ->
  populate_team_locations G self tms year w = (tms1, w1, Done) ->
  read_team_archive (fs w1) = Ok (archive_view tms1)
  /\ forall (G2 : collaborators) (self2 : FRCGeocoder),
      team_archive self2 = archive_view tms1 ->
      (forall k v1 v,
          In (k, v1) tms1 -> located v1 = true ->
          team_attempt G2 self2 (k, v) = [])
      /\ (forall tms2 year2 w2 tms2' w2' st2,
             (forall k v, In (k, v) tms2 ->
                          exists v1, In (k, v1) tms1 /\ located v1 = true) ->
             populate_team_locations G2 self2 tms2 year2 w2
             = (tms2', w2', st2) ->
             provider_calls w2' = provider_calls w2).
Proof.
  intros Hy Hold Hnd Hrun.
  destruct (populate_team_locations_saved _ _ _ _ _ _ _ Hrun)
    as (Hkeys & wb & Hfs & Hsave).
  assert (Hread : read_team_archive (fs w1) = Ok (archive_view tms1)).
  { unfold save_team_archive in Hsave.
    destruct (save_data tms1 []) as [data|e] eqn:Esd; [|discriminate].
    assert (Hdata : data = archive_view tms1).
    { pose proof (save_data_ok_readable _ _ _ Esd) as Hr.
      rewrite (save_data_view tms1 []) in Esd; auto.
      - now injection Esd as <-.
      - now rewrite Hkeys. }
    subst data. unfold json_dump in Hsave.
    pose proof (read_after_write (fs wb) (team_archive_name year)
                  (archive_view tms1) year
                  (team_archive_name_four_digits year Hy)) as Hraw.
    rewrite Hfs in Hraw. specialize (Hraw Hold). rewrite <- Hfs in Hraw.
    destruct (assoc_get String.eqb (team_archive_name year) (fs wb))
      as [[|c]|]; try discriminate; injection Hsave as <-; exact Hraw. }
  split; [exact Hread|].
  intros G2 self2 Harch.
  assert (Hatt : forall k v1 v,
             In (k, v1) tms1 -> located v1 = true ->
             team_attempt G2 self2 (k, v) = []).
  { intros k v1 v Hin Hl. unfold team_attempt, geocoded. simpl fst.
    rewrite Harch, (archive_view_has tms1 k v1 Hin Hl).
    now rewrite andb_false_r. }
  split; [exact Hatt|].
  intros tms2 year2 w2 tms2' w2' st2 Hall Hrun2.
  rewrite (populate_team_locations_calls _ _ _ _ _ _ _ _ Hrun2).
  destruct (resolve_teams G2 self2 tms2 w2) as [[t w'] st] eqn:Er.
  apply resolve_teams_calls in Er. destruct Er as ([n Hn] & _ & _).
  simpl. rewrite Hn.
  assert (Hnil : provider_attempts G2 self2 tms2 = []).
  { unfold provider_attempts. clear - Hall Hatt.
    induction tms2 as [|[k v] rest IH]; simpl; auto.
    destruct (Hall k v (or_introl eq_refl)) as (v1 & Hin & Hl).
    rewrite (Hatt k v1 v Hin Hl). simpl. apply IH.
    intros k' v' H. apply (Hall k' v'). now right. }
  rewrite Hnil. destruct n; simpl; now rewrite app_nil_r.
Qed.

Lemma located_teams_are_not_asked_again_witness :
  read_team_archive (fs (snd (fst first_run)))
  = Ok [("frc1", VDict [("lat", VNum 10); ("lng", VNum 20)]);
        ("frc2", VDict [("lat", VNum (10 + default_sigma));
                        ("lng", VNum (20 + default_sigma))])]
  /\ provider_calls
       (snd (fst (populate_team_locations
                    answering_once geocoder_after_first_run teams_frc2_frc1
                    2023 (snd (fst first_run)))))
     = [].
Proof.
  assert (Hy : (1000 <= 2022 <= 9999)%Z) by lia.
  assert (Hold : forall name c y,
             In (name, File c) (fs blank_world) ->
             match_team_file name = Some y ->
             name <> team_archive_name 2022 -> (y < 2022)%Z).
  { intros name c y []. }
  assert (Hnd : NoDup (map fst teams_frc1_frc2)) by distinct.
  pose proof (located_teams_are_not_asked_again
                shifting geocoder_two_at_10_20 teams_frc1_frc2 2022
                blank_world (fst (fst first_run)) (snd (fst first_run))
                Hy Hold Hnd eq_refl) as [Hread Hnext].
  split; [exact Hread|].
  destruct (Hnext answering_once geocoder_after_first_run eq_refl)
    as [_ Hrun].
  destruct (populate_team_locations
              answering_once geocoder_after_first_run teams_frc2_frc1
              2023 (snd (fst first_run))) as [[t2 w2] st2] eqn:E.
  assert (Hall : forall k v,
             In (k, v) teams_frc2_frc1 ->
             exists v1, In (k, v1) (fst (fst first_run)) /\
                        located v1 = true).
  { intros k v [H|[H|[]]]; injection H as <- <-.
    - eexists. split; [right; left; reflexivity | reflexivity].
    - eexists. split; [left; reflexivity | reflexivity]. }
  simpl. rewrite (Hrun _ _ _ _ _ _ Hall E). reflexivity.
Defined.

(** ** Constructing the geocoder *)





(** ** The identifiers of a batch *)

Lemma dict_set_keys_ext (k : string) (v : pyval) (d : dict) :
  map fst (dict_set k v d)
  = map fst d ++ (if dict_mem k d then [] else [k]).
Proof.
  unfold dict_set, dict_mem, assoc_mem.
  induction d as [|[k' v'] d IH]; simpl; auto.
  destruct (String.eqb k k') eqn:E; simpl.
  - now rewrite app_nil_r.
  - now rewrite IH.
Qed.

Lemma dict_update_keys (src : dict) :
  forall d, exists extra,
      map fst (dict_update d src) = map fst d ++ extra /\
      forall k, In k extra -> In k (map fst src).
Proof.
  induction src as [|[k v] src IH]; intros d.
  - exists []. simpl. now rewrite app_nil_r.
  - rewrite dict_update_cons.
    destruct (IH (dict_set k v d)) as (extra & Hk & Hin).
    rewrite dict_set_keys_ext in Hk.
    exists ((if dict_mem k d then [] else [k]) ++ extra). split.
    + now rewrite Hk, app_assoc.
    + intros x Hx. apply in_app_or in Hx. simpl. destruct Hx as [Hx|Hx].
      * destruct (dict_mem k d); [destruct Hx|].
        destruct Hx as [->|[]]. now left.
      * right. auto.
Qed.

Lemma map_fst_set_slot_key (k : string) (v' : pyval) (l : batch) :
  forall i, nth_error (map fst l) i = Some k ->
            map fst (set_slot i (k, v') l) = map fst l.
Proof.
  induction l as [|y l IH]; intros [|i] Hi; simpl in *; try discriminate.
  - now injection Hi as ->.
  - f_equal. auto.
Qed.

Section Identifiers.
Variable G : collaborators.
Variable self : FRCGeocoder.

Lemma resolve_event_keys (i : nat) (key : string) (ev : pyval) (evs : batch)
      (w : world) :
  nth_error (map fst evs) i = Some key ->
  exists extra,
    map fst (snd (fst (fst (fst (resolve_event G self i key ev evs w)))))
    = map fst evs ++ extra
    /\ archive_fields self extra.
Proof.
  intros Hi. unfold resolve_event.
  assert (Hnone : exists extra, map fst evs = map fst evs ++ extra /\
                                archive_fields self extra).
  { exists []. split; [now rewrite app_nil_r|]. intros k []. }
  destruct (dict_get key (event_archive self)) as [a|] eqn:Ea.
  - destruct a as [| | |s|a]; simpl; auto.
    + destruct s; simpl; auto.
    + destruct (dict_update_keys a evs) as (extra & Hk & Hin).
      exists extra. split; auto. intros k Hk'. exists key, a. auto.
  - destruct ev as [| | | |d]; try (simpl; exact Hnone).
    destruct (is_official (VDict d)); [|simpl; exact Hnone].
    destruct (enhance_and_geolocate G d w) as [d' w1]. simpl.
    exists []. rewrite app_nil_r. split; [|intros k []].
    now apply map_fst_set_slot_key.
Qed.

Lemma event_body_keys (i : nat) (key : string) (event : pyval)
      (evs evs' : batch) (w w' : world) (st : status) :
  nth_error evs i = Some (key, event) ->
  event_body G self i key event evs w = (evs', w', st) ->
  exists extra,
    map fst evs' = map fst evs ++ extra /\ archive_fields self extra.
Proof.
  intros Hi. unfold event_body.
  assert (Hnone : exists extra, map fst evs = map fst evs ++ extra /\
                                archive_fields self extra).
  { exists []. split; [now rewrite app_nil_r|]. intros k []. }
  assert (Hik : nth_error (map fst evs) i = Some key).
  { now rewrite nth_error_map, Hi. }
  destruct (match assoc_get String.eqb key (events self) with
            | Some override => py_update event (VDict override)
            | None => Ok event
            end) as [ev1|e]; [|now intros [= <- <- <-]].
  assert (Hk1 : map fst (set_slot i (key, ev1) evs) = map fst evs)
    by now apply map_fst_set_slot_key.
  destruct (noloc ev1) as [nl|e];
    [|intros [= <- <- <-]; rewrite Hk1; exact Hnone].
  assert (Hblk : exists extra,
             map fst (snd (fst (fst (fst
               (if nl
                then resolve_event G self i key ev1
                                   (set_slot i (key, ev1) evs) w
                else (ev1, set_slot i (key, ev1) evs, true, w, Done))))))
             = map fst evs ++ extra /\ archive_fields self extra).
  { destruct nl; simpl; [|rewrite Hk1; exact Hnone].
    rewrite <- Hk1. apply resolve_event_keys. now rewrite Hk1. }
  destruct (if nl
            then resolve_event G self i key ev1 (set_slot i (key, ev1) evs) w
            else (ev1, set_slot i (key, ev1) evs, true, w, Done))
    as [[[[ev2 evs2] attached] w2] st2].
  simpl in Hblk.
  destruct st2; [|now intros [= <- <- <-]].
  destruct (noloc ev2) as [[|]|e]; try (now intros [= <- <- <-]).
  destruct (setitem ev2 "ignore" (VBool true)) as [ev3|e];
    [|now intros [= <- <- <-]].
  intros [= <- <- <-]. destruct attached; auto.
  destruct Hblk as (extra & Hk & Hf). exists extra. split; auto.
  rewrite <- Hk. apply map_fst_set_slot_key.
  rewrite Hk. rewrite nth_error_app1; auto.
  apply nth_error_Some. congruence.
Qed.

Lemma event_loop_keys (size : nat) :
  forall todo i evs w evs' w' st,
    event_loop G self size todo i evs w = (evs', w', st) ->
    exists extra,
      map fst evs' = map fst evs ++ extra /\ archive_fields self extra.
Proof.
  assert (Hnone : forall evs : batch,
             exists extra, map fst evs = map fst evs ++ extra /\
                           archive_fields self extra).
  { intros evs. exists []. split; [now rewrite app_nil_r|]. intros k []. }
  induction todo as [|todo IH]; intros i evs w evs' w' st; simpl.
  - destruct (negb (length evs =? size)); intros [= <- <- <-]; auto.
  - destruct (negb (length evs =? size)); [intros [= <- <- <-]; auto|].
    destruct (nth_error evs i) as [[key event]|] eqn:Ei;
      [|intros [= <- <- <-]; auto].
    destruct (event_body G self i key event evs w) as [[e1 w1] st1] eqn:Eb.
    destruct (event_body_keys _ _ _ _ _ _ _ _ Ei Eb) as (x1 & Hk1 & Hf1).
    destruct st1.
    + intros Hrun. destruct (IH _ _ _ _ _ _ Hrun) as (x2 & Hk2 & Hf2).
      exists (x1 ++ x2). split.
      * now rewrite Hk2, Hk1, app_assoc.
      * intros k Hk. apply in_app_or in Hk. destruct Hk; auto.
    + intros [= <- <- <-]. eauto.
Qed.

(** X14.  However it ends, [populate_team_locations] keeps the identifiers
    of the batch and their order.  [populate_event_locations] keeps them
    too, as the initial part of the keys of the batch: the only keys it
    can add, after them, are field names of entries of the event
    archive. *)
Theorem batch_identifiers_kept :
  (forall tms year w tms' w' st,
      populate_team_locations G self tms year w = (tms', w', st) ->
      map fst tms' = map fst tms)
  /\
  (forall evs w evs' w' st,
      populate_event_locations G self evs w = (evs', w', st) ->
      exists extra,
        map fst evs' = map fst evs ++ extra /\
        forall k, In k extra ->
                  exists key a,
                    dict_get key (event_archive self) = Some (VDict a) /\
                    In k (map fst a)).
Proof.
  split.
  - intros tms year w tms' w' st. unfold populate_team_locations.
    destruct (resolve_teams G self tms w) as [[t1 w1] st1] eqn:Er.
    unfold resolve_teams in Er. apply for_items_keys in Er.
    destruct st1; [|now intros [= <- <- <-]].
    destruct (dedup_locations G t1 w1) as [[t2 w2] st2] eqn:Ed.
    apply dedup_locations_keys in Ed.
    destruct st2; [|intros [= <- <- <-]; congruence].
    destruct (save_team_archive t2 year w2).
    intros [= <- <- <-]. congruence.
  - intros evs w evs' w' st. unfold populate_event_locations.
    destruct (resolve_events G self evs w) as [[e1 w1] st1] eqn:Er.
    unfold resolve_events in Er. apply event_loop_keys in Er.
    destruct st1; [|now intros [= <- <- <-]].
    destruct (save_event_archive e1 w1) as [w2 [|e2]];
      [|now intros [= <- <- <-]].
    intros Hd. apply dedup_locations_keys in Hd. now rewrite Hd.
Qed.
End Identifiers.

Lemma batch_identifiers_kept_witness :
  map fst (fst (fst (populate_team_locations
                       answering_once geocoder_two_at_10_20 teams_to_geocode
                       2022 blank_world)))
  = ["frc1"; "frc2"; "frc3"; "frc4"]
  /\ exists extra,
      map fst (fst (fst (populate_event_locations
                           offline geocoder_knowing_2020abc event_2020abc
                           blank_world)))
      = ["2020abc"] ++ extra.
Proof.
  destruct (batch_identifiers_kept answering_once geocoder_two_at_10_20)
    as [Ht _].
  destruct (batch_identifiers_kept offline geocoder_knowing_2020abc)
    as [_ He].
  split.
  - destruct (populate_team_locations
                answering_once geocoder_two_at_10_20 teams_to_geocode
                2022 blank_world) as [[t w] st] eqn:E.
    exact (Ht _ _ _ _ _ _ E).
  - destruct (populate_event_locations
                offline geocoder_knowing_2020abc event_2020abc blank_world)
      as [[e w] st] eqn:E.
    destruct (He _ _ _ _ _ E) as (extra & Hk & _).
    exists extra. exact Hk.
Defined.
